(** * talxwev-notify: a shallow embedding of [src/index.ts]

    The toast widget is modelled as explicit state passing over a record
    [State] that holds the three module-level variables of the source
    ([TOASTS], [CONTAINERS], [globalConfig]) together with the part of the
    page the code touches: the container elements appended to the document
    body, the toast elements, the heap of [InternalToast] objects (they are
    shared between the registry and the closures of the listeners, so they
    live in a store and are named by handles), the pending timers of
    [setTimeout], the pending animation-frame callbacks, the clock read by
    [Date.now], and the trace of [onClose] invocations.

    Numbers are the integers among the JavaScript numbers: durations and
    clock readings are in [Z], a subtraction of the source rounds to the
    nearest double ([fsub]) and a timer delay goes through the platform's
    conversion to a signed 32-bit integer ([toInt32]). The page is one on
    which the code can render: [browser] says that [window] and
    [document] exist, and then [document.head] and [document.body] exist
    too. *)

From Stdlib Require Import ZArith Lia Ascii String.
From stdpp Require Import base option list strings gmap.

Open Scope Z_scope.
Open Scope string_scope.
Open Scope list_scope.

(** ** Option records *)

Inductive ToastType := info_t | success_t | error_t | warning_t.

Inductive Position :=
  | top_right | top_left | bottom_right | bottom_left | top_center | bottom_center.

(** A property of a JavaScript object: the key may be missing, or present
    with a value; a present value may itself be [undefined] ([None]). *)
Inductive Slot (A : Type) :=
  | Absent
  | Present (v : option A).
Arguments Absent {A}.
Arguments Present {A} v.

(** Reading [o.f]: a missing key reads as [undefined]. *)
Definition rd {A} (x : Slot A) : option A :=
  match x with Absent => None | Present v => v end.

(** One property of [Object.assign(target, src)]: own keys of [src] are
    copied over the target's, whatever their value. *)
Definition over {A} (target src : Slot A) : Slot A :=
  match src with Absent => target | Present v => Present v end.

(** [onClose] callbacks are caller code: they are named by a tag and their
    invocations are recorded in the state. [NoopCb] is the arrow function
    of [DEFAULTS]. *)
Inductive Callback := NoopCb | UserCb (tag : nat).

Record RenderArgs := {
  ra_id : string;
  ra_title : option string;
  ra_message : option string;
  ra_type : option ToastType }.

(** What a custom renderer hands back: markup text, an element the caller
    built (named by an opaque handle), or an exception. *)
Inductive RenderOut := OutString (html : string) | OutElement (node : nat) | OutThrow.

(** The [render] field: [null] in [DEFAULTS], or a function. *)
Inductive Render := RNull | RFun (f : RenderArgs -> RenderOut).

Record NotifyOptions := {
  id : Slot string;
  title : Slot string;
  message : Slot string;
  type : Slot ToastType;
  duration : Slot Z;
  closable : Slot bool;
  pauseOnHover : Slot bool;
  position : Slot Position;
  containerClass : Slot string;
  toastClass : Slot string;
  injectStyles : Slot bool;
  onClose : Slot Callback;
  render : Slot Render }.

(** The object literal [{}]. *)
Definition empty_opts : NotifyOptions :=
  {| id := Absent; title := Absent; message := Absent; type := Absent;
     duration := Absent; closable := Absent; pauseOnHover := Absent;
     position := Absent; containerClass := Absent; toastClass := Absent;
     injectStyles := Absent; onClose := Absent; render := Absent |}.

Definition DEFAULTS : NotifyOptions :=
  {| id := Present (Some "");
     title := Present (Some "");
     message := Present (Some "");
     type := Present (Some info_t);
     duration := Present (Some 4000);
     closable := Present (Some true);
     pauseOnHover := Present (Some true);
     position := Present (Some top_right);
     containerClass := Present (Some "");
     toastClass := Present (Some "");
     injectStyles := Present (Some true);
     onClose := Present (Some NoopCb);
     render := Present (Some RNull) |}.

(** [Object.assign(target, src)], and the spread [{...target, ...src}]. *)
Definition assign (target src : NotifyOptions) : NotifyOptions :=
  {| id := over (id target) (id src);
     title := over (title target) (title src);
     message := over (message target) (message src);
     type := over (type target) (type src);
     duration := over (duration target) (duration src);
     closable := over (closable target) (closable src);
     pauseOnHover := over (pauseOnHover target) (pauseOnHover src);
     position := over (position target) (position src);
     containerClass := over (containerClass target) (containerClass src);
     toastClass := over (toastClass target) (toastClass src);
     injectStyles := over (injectStyles target) (injectStyles src);
     onClose := over (onClose target) (onClose src);
     render := over (render target) (render src) |}.

Definition with_id (v : Slot string) (o : NotifyOptions) : NotifyOptions :=
  {| id := v; title := title o; message := message o; type := type o;
     duration := duration o; closable := closable o;
     pauseOnHover := pauseOnHover o; position := position o;
     containerClass := containerClass o; toastClass := toastClass o;
     injectStyles := injectStyles o; onClose := onClose o; render := render o |}.

Definition with_message (v : Slot string) (o : NotifyOptions) : NotifyOptions :=
  {| id := id o; title := title o; message := v; type := type o;
     duration := duration o; closable := closable o;
     pauseOnHover := pauseOnHover o; position := position o;
     containerClass := containerClass o; toastClass := toastClass o;
     injectStyles := injectStyles o; onClose := onClose o; render := render o |}.

Definition with_type (v : Slot ToastType) (o : NotifyOptions) : NotifyOptions :=
  {| id := id o; title := title o; message := message o; type := v;
     duration := duration o; closable := closable o;
     pauseOnHover := pauseOnHover o; position := position o;
     containerClass := containerClass o; toastClass := toastClass o;
     injectStyles := injectStyles o; onClose := onClose o; render := render o |}.

(** Truthiness of the values the code tests. *)
Definition truthy_str (v : option string) : bool :=
  match v with Some s => negb (String.eqb s "") | None => false end.

Definition truthy_bool (v : option bool) : bool :=
  match v with Some b => b | None => false end.

Definition truthy_num (v : option nat) : bool :=
  match v with Some (S _) => true | _ => false end.

Definition truthy_render (v : option Render) : bool :=
  match v with Some (RFun _) => true | _ => false end.

(** The first argument of [notify]: [string | NotifyOptions]. *)
Inductive MessageOrOpts := Msg (m : string) | Opts (o : NotifyOptions).

(** [typeof messageOrOpts === "string" ? { message: messageOrOpts,
    ...(maybeOpts || {}) } : messageOrOpts] *)
Definition optsBase (messageOrOpts : MessageOrOpts) (maybeOpts : option NotifyOptions)
  : NotifyOptions :=
  match messageOrOpts with
  | Msg m =>
      assign (with_message (Present (Some m)) empty_opts)
             (match maybeOpts with Some o => o | None => empty_opts end)
  | Opts o => o
  end.

(** [Object.assign({}, DEFAULTS, globalConfig, optsBase)] *)
Definition merged (globalConfig base : NotifyOptions) : NotifyOptions :=
  assign (assign (assign empty_opts DEFAULTS) globalConfig) base.

(** ** Strings the code builds *)

Definition position_name (p : Position) : string :=
  match p with
  | top_right => "top-right"
  | top_left => "top-left"
  | bottom_right => "bottom-right"
  | bottom_left => "bottom-left"
  | top_center => "top-center"
  | bottom_center => "bottom-center"
  end.

Definition type_name (t : ToastType) : string :=
  match t with
  | info_t => "info"
  | success_t => "success"
  | error_t => "error"
  | warning_t => "warning"
  end.

(** String coercion of a possibly [undefined] value in [+] and in a
    template literal. *)
Definition coerce {A} (name : A -> string) (v : option A) : string :=
  match v with Some a => name a | None => "undefined" end.

Definition digit36 (d : N) : ascii :=
  nth (N.to_nat d) (list_ascii_of_string "0123456789abcdefghijklmnopqrstuvwxyz") "0"%char.

Fixpoint digits36 (fuel : nat) (n : N) (acc : string) : string :=
  match fuel with
  | O => acc
  | S fuel' =>
      let acc' := String (digit36 (n mod 36)) acc in
      if (n / 36 =? 0)%N then acc' else digits36 fuel' (n / 36) acc'
  end.

(** [n.toString(36)] for an integer [n]. *)
Definition toString36 (z : Z) : string :=
  match z with
  | Z0 => "0"
  | Zpos p => digits36 (Pos.size_nat p) (Npos p) ""
  | Zneg p => "-" +:+ digits36 (Pos.size_nat p) (Npos p) ""
  end.

(** [makeId]: [rnd] stands for [Math.random().toString(36).slice(2, 8)],
    the one source of non-determinism; the caller of the model supplies it. *)
Definition makeId (now : Z) (rnd : string) : string :=
  "t_" +:+ toString36 now +:+ "_" +:+ rnd.

(** The option record [notify] works with: the merge, then
    [if (!opts.id) opts.id = makeId()]. *)
Definition resolved (globalConfig : NotifyOptions) (now : Z) (rnd : string)
    (base : NotifyOptions) : NotifyOptions :=
  let opts0 := merged globalConfig base in
  if truthy_str (rd (id opts0)) then opts0
  else with_id (Present (Some (makeId now rnd))) opts0.

(** [position + (containerClass ? `|${containerClass}` : "")] *)
Definition containerKey (position : option Position) (containerClass : string) : string :=
  coerce position_name position
  +:+ (if truthy_str (Some containerClass) then "|" +:+ containerClass else "").

(** ** The page and the module state *)

(** A container [div] appended to [document.body]. Its handle is its index
    in [body]. *)
Record ContainerEl := {
  c_className : string;
  c_pointerEvents : string }.

(** The variables captured by the two hover listeners of one [notify] call:
    the [internal] object (by handle) and the mutable locals [remaining] and
    [start]. [remaining] is [None] when it is not a number ([undefined], or
    [NaN] after arithmetic on [undefined]). *)
Record Hover := {
  internal : nat;
  remaining : option Z;
  start : Z }.

Inductive Content :=
  | CMarkup (html : string)
  | CNode (node : nat)
  | CDefault (title_line message_line : option string).

(** A toast root element. [className] is the class string
    [buildToastElement] assigns; the one later edit of the class list, the
    token [talx-toast--hide] added by [dismiss] and removed by the
    animation frame, is kept apart in [hide], which says whether the class
    list holds that token. [content] is what [buildToastElement] appended;
    a node returned by a custom renderer is named by an opaque handle, and
    where that node sits in the document later on is not followed.
    [parent] is the container the element is attached to; [hover] holds
    the closure of the [mouseenter]/[mouseleave] listeners when they are
    installed. *)
Record ToastEl := {
  className : string;
  data_tid : string;
  hide : bool;
  content : Content;
  closeButton : bool;
  parent : option nat;
  hover : option Hover }.

Record InternalToast := {
  toast_id : string;
  el : nat;
  timeoutId : option nat;
  opts : NotifyOptions }.

(** The three closures the code hands to [setTimeout]. *)
Inductive TimerCb :=
  | AutoDismiss (h : nat)            (* () => dismiss(internal.id), in setAutoDismiss *)
  | HoverResume (h : nat)            (* () => dismiss(opts.id), in the mouseleave listener *)
  | Removal (id : string) (h : nat). (* the removal closure of dismiss(id) *)

Record Timer := {
  callback : TimerCb;
  delay : option Z;
  due : Z }.

Record State := {
  browser : bool;
  now : Z;
  styleInjected : bool;
  TOASTS : list (string * nat);
  CONTAINERS : gmap string nat;
  globalConfig : NotifyOptions;
  body : list ContainerEl;
  elems : list ToastEl;
  heap : list InternalToast;
  timers : gmap nat Timer;
  nextTimer : nat;
  frames : list nat;
  closeLog : list Callback }.

Definition init (browser : bool) (now : Z) : State :=
  {| browser := browser; now := now; styleInjected := false;
     TOASTS := []; CONTAINERS := ∅; globalConfig := empty_opts;
     body := []; elems := []; heap := [];
     timers := ∅; nextTimer := 1; frames := []; closeLog := [] |}.

Definition with_now (v : Z) (s : State) : State :=
  {| browser := browser s; now := v; styleInjected := styleInjected s;
     TOASTS := TOASTS s; CONTAINERS := CONTAINERS s; globalConfig := globalConfig s;
     body := body s; elems := elems s; heap := heap s;
     timers := timers s; nextTimer := nextTimer s; frames := frames s;
     closeLog := closeLog s |}.

Definition with_styleInjected (v : bool) (s : State) : State :=
  {| browser := browser s; now := now s; styleInjected := v;
     TOASTS := TOASTS s; CONTAINERS := CONTAINERS s; globalConfig := globalConfig s;
     body := body s; elems := elems s; heap := heap s;
     timers := timers s; nextTimer := nextTimer s; frames := frames s;
     closeLog := closeLog s |}.

Definition with_TOASTS (v : list (string * nat)) (s : State) : State :=
  {| browser := browser s; now := now s; styleInjected := styleInjected s;
     TOASTS := v; CONTAINERS := CONTAINERS s; globalConfig := globalConfig s;
     body := body s; elems := elems s; heap := heap s;
     timers := timers s; nextTimer := nextTimer s; frames := frames s;
     closeLog := closeLog s |}.

Definition with_container (key : string) (c : ContainerEl) (s : State) : State :=
  {| browser := browser s; now := now s; styleInjected := styleInjected s;
     TOASTS := TOASTS s; CONTAINERS := <[key := length (body s)]> (CONTAINERS s);
     globalConfig := globalConfig s;
     body := body s ++ [c]; elems := elems s; heap := heap s;
     timers := timers s; nextTimer := nextTimer s; frames := frames s;
     closeLog := closeLog s |}.

Definition with_globalConfig (v : NotifyOptions) (s : State) : State :=
  {| browser := browser s; now := now s; styleInjected := styleInjected s;
     TOASTS := TOASTS s; CONTAINERS := CONTAINERS s; globalConfig := v;
     body := body s; elems := elems s; heap := heap s;
     timers := timers s; nextTimer := nextTimer s; frames := frames s;
     closeLog := closeLog s |}.

Definition with_elems (v : list ToastEl) (s : State) : State :=
  {| browser := browser s; now := now s; styleInjected := styleInjected s;
     TOASTS := TOASTS s; CONTAINERS := CONTAINERS s; globalConfig := globalConfig s;
     body := body s; elems := v; heap := heap s;
     timers := timers s; nextTimer := nextTimer s; frames := frames s;
     closeLog := closeLog s |}.

Definition with_heap (v : list InternalToast) (s : State) : State :=
  {| browser := browser s; now := now s; styleInjected := styleInjected s;
     TOASTS := TOASTS s; CONTAINERS := CONTAINERS s; globalConfig := globalConfig s;
     body := body s; elems := elems s; heap := v;
     timers := timers s; nextTimer := nextTimer s; frames := frames s;
     closeLog := closeLog s |}.

Definition with_timers (v : gmap nat Timer) (s : State) : State :=
  {| browser := browser s; now := now s; styleInjected := styleInjected s;
     TOASTS := TOASTS s; CONTAINERS := CONTAINERS s; globalConfig := globalConfig s;
     body := body s; elems := elems s; heap := heap s;
     timers := v; nextTimer := nextTimer s; frames := frames s;
     closeLog := closeLog s |}.

Definition with_nextTimer (v : nat) (s : State) : State :=
  {| browser := browser s; now := now s; styleInjected := styleInjected s;
     TOASTS := TOASTS s; CONTAINERS := CONTAINERS s; globalConfig := globalConfig s;
     body := body s; elems := elems s; heap := heap s;
     timers := timers s; nextTimer := v; frames := frames s;
     closeLog := closeLog s |}.

Definition with_frames (v : list nat) (s : State) : State :=
  {| browser := browser s; now := now s; styleInjected := styleInjected s;
     TOASTS := TOASTS s; CONTAINERS := CONTAINERS s; globalConfig := globalConfig s;
     body := body s; elems := elems s; heap := heap s;
     timers := timers s; nextTimer := nextTimer s; frames := v;
     closeLog := closeLog s |}.

Definition with_closeLog (v : list Callback) (s : State) : State :=
  {| browser := browser s; now := now s; styleInjected := styleInjected s;
     TOASTS := TOASTS s; CONTAINERS := CONTAINERS s; globalConfig := globalConfig s;
     body := body s; elems := elems s; heap := heap s;
     timers := timers s; nextTimer := nextTimer s; frames := frames s;
     closeLog := v |}.

(** ** The registry: a JavaScript [Map], which keeps insertion order *)

Fixpoint map_get (k : string) (m : list (string * nat)) : option nat :=
  match m with
  | [] => None
  | (k', v) :: m' => if decide (k = k') then Some v else map_get k m'
  end.

(** [Map.set] replaces the value of a key in place and appends a new key. *)
Fixpoint map_set (k : string) (v : nat) (m : list (string * nat)) : list (string * nat) :=
  match m with
  | [] => [(k, v)]
  | (k', v') :: m' =>
      if decide (k = k') then (k, v) :: m' else (k', v') :: map_set k v m'
  end.

Fixpoint map_delete (k : string) (m : list (string * nat)) : list (string * nat) :=
  match m with
  | [] => []
  | (k', v') :: m' =>
      if decide (k = k') then map_delete k m' else (k', v') :: map_delete k m'
  end.

Definition map_keys (m : list (string * nat)) : list string := m.*1.

(** ** Element and object updates *)

Definition set_hide (b : bool) (e : ToastEl) : ToastEl :=
  {| className := className e; data_tid := data_tid e; hide := b;
     content := content e; closeButton := closeButton e;
     parent := parent e; hover := hover e |}.

Definition set_parent (p : option nat) (e : ToastEl) : ToastEl :=
  {| className := className e; data_tid := data_tid e; hide := hide e;
     content := content e; closeButton := closeButton e;
     parent := p; hover := hover e |}.

Definition set_hover (hv : option Hover) (e : ToastEl) : ToastEl :=
  {| className := className e; data_tid := data_tid e; hide := hide e;
     content := content e; closeButton := closeButton e;
     parent := parent e; hover := hv |}.

Definition set_timeoutId (t : option nat) (o : InternalToast) : InternalToast :=
  {| toast_id := toast_id o; el := el o; timeoutId := t; opts := opts o |}.

(** ** Timers *)

(** The platform takes the delay of [setTimeout] as a signed 32-bit
    integer: the number is reduced modulo 2^32 into [-2^31, 2^31). *)
Definition toInt32 (z : Z) : Z := (z + 2 ^ 31) mod 2 ^ 32 - 2 ^ 31.

(** The milliseconds a timer set with delay [d] waits: [undefined] counts
    as 0, the number is converted to 32 bits, and a negative result counts
    as 0. *)
Definition timeout_ms (d : option Z) : Z := Z.max 0 (toInt32 (default 0 d)).

(** [setTimeout(cb, delay)]: the timer gets the next identifier (they start
    at 1) and becomes due [timeout_ms delay] milliseconds from now. *)
Definition setTimeout (cb : TimerCb) (d : option Z) (s : State) : State * nat :=
  let t := nextTimer s in
  let tm := {| callback := cb; delay := d; due := now s + timeout_ms d |} in
  (with_nextTimer (S t) (with_timers (<[t := tm]> (timers s)) s), t).

(** ** Arithmetic on numbers *)

(** The double nearest to an integer, ties to the even significand: below
    2^53 every integer is a double; from there on the doubles are the
    multiples of a power of two [u] that leave 53 significant bits. *)
Definition round53 (z : Z) : Z :=
  let a := Z.abs z in
  if (a <? 2 ^ 53)%Z then z
  else
    let u := 2 ^ (Z.log2 a - 52) in
    let q := a / u in
    let r := a mod u in
    let q' := if (2 * r <? u)%Z then q
              else if (u <? 2 * r)%Z then q + 1
              else if Z.even q then q else q + 1 in
    Z.sgn z * (q' * u).

(** [a - b] on numbers. *)
Definition fsub (a b : Z) : Z := round53 (a - b).

(** ** Class lists *)

(** ASCII whitespace, which separates the tokens of a class string. *)
Definition is_space (c : ascii) : bool :=
  match nat_of_ascii c with
  | 9%nat | 10%nat | 12%nat | 13%nat | 32%nat => true
  | _ => false
  end.

Fixpoint split_spaces (s : string) (cur : string) : list string :=
  match s with
  | EmptyString => [cur]
  | String c s' =>
      if is_space c then cur :: split_spaces s' ""
      else split_spaces s' (cur +:+ String c "")
  end.

(** The tokens of a class string, as [classList] sees them. *)
Definition tokens (s : string) : list string :=
  filter (fun t => t ≠ "") (split_spaces s "").

Definition HIDE : string := "talx-toast--hide".

(** [clearTimeout(t)]: no effect when [t] is [undefined] or names no
    pending timer. *)
Definition clearTimeout (t : option nat) (s : State) : State :=
  match t with
  | Some t => with_timers (delete t (timers s)) s
  | None => s
  end.

(** ** Helpers of the source *)

Definition isBrowser (s : State) : bool := browser s.

Definition injectDefaultStyles (s : State) : State :=
  if negb (isBrowser s) then s
  else if styleInjected s then s
  else with_styleInjected true s.

(** [containerFor(position, containerClass = "")]: an [undefined] second
    argument takes the default. The result is the container's handle. The
    new container is appended to [document.body], which the page has. *)
Definition containerFor (position : option Position) (containerClass : option string)
    (s : State) : State * option nat :=
  if negb (isBrowser s) then (s, None)
  else
    let containerClass := default "" containerClass in
    let key := containerKey position containerClass in
    match CONTAINERS s !! key with
    | Some c => (s, Some c)
    | None =>
        let c := {| c_className :=
                      "talx-container talx-container--" +:+ coerce position_name position
                      +:+ (if truthy_str (Some containerClass)
                           then " " +:+ containerClass else "");
                    c_pointerEvents := "none" |} in
        (with_container key c s, Some (length (body s)))
    end.

(** [buildToastElement(id, opts)]; [None] when the custom renderer raises.
    The element is returned detached and without hover listeners. Its
    class list holds the token [talx-toast--hide] from the start when the
    class string does, which only a [toastClass] can bring about. *)
Definition buildToastElement (id0 : string) (o : NotifyOptions) : option ToastEl :=
  let cls :=
    "talx-toast talx-toast--" +:+ coerce type_name (rd (type o))
    +:+ (if truthy_str (rd (toastClass o))
         then " " +:+ coerce (fun x => x) (rd (toastClass o)) else "") in
  let toast (c : Content) :=
    {| className := cls;
       data_tid := id0;
       hide := bool_decide (HIDE ∈ tokens cls);
       content := c;
       closeButton := truthy_bool (rd (closable o));
       parent := None;
       hover := None |} in
  match rd (render o) with
  | Some (RFun f) =>
      match f {| ra_id := id0; ra_title := rd (title o);
                 ra_message := rd (message o); ra_type := rd (type o) |} with
      | OutString html => Some (toast (CMarkup html))
      | OutElement n => Some (toast (CNode n))
      | OutThrow => None
      end
  | _ =>
      Some (toast (CDefault
                     (if truthy_str (rd (title o)) then rd (title o) else None)
                     (if truthy_str (rd (message o)) then rd (message o) else None)))
  end.

(** [setAutoDismiss(internal)], [internal] given by its handle. *)
Definition setAutoDismiss (h : nat) (s : State) : State :=
  match heap s !! h with
  | None => s
  | Some o =>
      match rd (duration (opts o)) with
      | Some 0 => s
      | d =>
          let s1 := clearTimeout (timeoutId o) s in
          let '(s2, t) := setTimeout (AutoDismiss h) d s1 in
          with_heap (alter (set_timeoutId (Some t)) h (heap s2)) s2
      end
  end.

(** ** The public operations *)

Definition dismiss (id0 : string) (s : State) : State :=
  if negb (isBrowser s) then s
  else
    match map_get id0 (TOASTS s) with
    | None => s
    | Some h =>
        match heap s !! h with
        | None => s
        | Some o =>
            let s1 := with_elems (alter (set_hide true) (el o) (elems s)) s in
            let s2 := if truthy_num (timeoutId o)
                      then clearTimeout (timeoutId o) s1 else s1 in
            (setTimeout (Removal id0 h) (Some 220) s2).1
        end
    end.

(** The closure [dismiss] schedules, run 220 ms later. *)
Definition removal (id0 : string) (h : nat) (s : State) : State :=
  match heap s !! h with
  | None => s
  | Some o =>
      let s1 :=
        match elems s !! el o with
        | Some e =>
            match parent e with
            | Some _ => with_elems (alter (set_parent None) (el o) (elems s)) s
            | None => s
            end
        | None => s
        end in
      let s2 := with_TOASTS (map_delete id0 (TOASTS s1)) s1 in
      match rd (onClose (opts o)) with
      | Some cb => with_closeLog (closeLog s2 ++ [cb]) s2
      | None => s2
      end
  end.

Inductive Outcome :=
  | Returned (r : option string)
  | Threw.

Definition notify (messageOrOpts : MessageOrOpts) (maybeOpts : option NotifyOptions)
    (rnd : string) (s : State) : State * Outcome :=
  if negb (isBrowser s) then (s, Returned None)
  else
    let base := optsBase messageOrOpts maybeOpts in
    let opts1 := resolved (globalConfig s) (now s) rnd base in
    let id1 := default "" (rd (id opts1)) in
    let s1 := if truthy_bool (rd (injectStyles opts1)) then injectDefaultStyles s else s in
    let '(s2, container) :=
      containerFor (rd (position opts1)) (rd (containerClass opts1)) s1 in
    match container with
    | None => (s2, Returned None)
    | Some c =>
        match buildToastElement id1 opts1 with
        | None => (s2, Threw)
        | Some e0 =>
            let e := length (elems s2) in
            let h := length (heap s2) in
            let o := {| toast_id := id1; el := e; timeoutId := None; opts := opts1 |} in
            let hv :=
              if truthy_bool (rd (pauseOnHover opts1))
              then Some {| internal := h; remaining := rd (duration opts1);
                           start := now s2 |}
              else None in
            let s3 := with_heap (heap s2 ++ [o]) s2 in
            let s4 := with_TOASTS (map_set id1 h (TOASTS s3)) s3 in
            let s5 := with_elems (elems s4 ++ [set_hover hv (set_parent (Some c) e0)]) s4 in
            let s6 := with_frames (frames s5 ++ [e]) s5 in
            (setAutoDismiss h s6, Returned (Some id1))
        end
    end.

(** [success], [error], [info] and [warning]: [notify({...base, type})]. *)
Definition notify_as (t : ToastType) (msgOrOpts : MessageOrOpts)
    (maybe : option NotifyOptions) (rnd : string) (s : State) : State * Outcome :=
  let base := optsBase msgOrOpts maybe in
  notify (Opts (with_type (Present (Some t)) (assign empty_opts base))) None rnd s.

Definition success := notify_as success_t.
Definition error := notify_as error_t.
Definition info := notify_as info_t.
Definition warning := notify_as warning_t.

(** [Array.from(TOASTS.keys()).forEach((id) => dismiss(id))] *)
Definition clear (s : State) : State :=
  if negb (isBrowser s) then s
  else foldl (fun s id0 => dismiss id0 s) s (map_keys (TOASTS s)).

Definition configure (options : NotifyOptions) (s : State) : State :=
  with_globalConfig (assign (assign empty_opts (globalConfig s)) options) s.

(** ** Listeners and scheduled callbacks *)

(** The [mouseenter] listener of element [e]. *)
Definition mouseenter (e : nat) (s : State) : State :=
  match elems s !! e with
  | Some x =>
      match hover x with
      | Some hv =>
          match heap s !! internal hv with
          | Some o =>
              if truthy_num (timeoutId o) then
                let s1 := clearTimeout (timeoutId o) s in
                let r := (fun r => Z.max 0 (fsub r (fsub (now s) (start hv))))
                           <$> remaining hv in
                with_elems
                  (alter (set_hover (Some {| internal := internal hv;
                                             remaining := r; start := start hv |}))
                         e (elems s1)) s1
              else s
          | None => s
          end
      | None => s
      end
  | None => s
  end.

(** The [mouseleave] listener of element [e]. *)
Definition mouseleave (e : nat) (s : State) : State :=
  match elems s !! e with
  | Some x =>
      match hover x with
      | Some hv =>
          match remaining hv with
          | Some r =>
              if decide (0 < r) then
                let s1 :=
                  with_elems
                    (alter (set_hover (Some {| internal := internal hv;
                                               remaining := Some r; start := now s |}))
                           e (elems s)) s in
                let '(s2, t) := setTimeout (HoverResume (internal hv)) (Some r) s1 in
                with_heap (alter (set_timeoutId (Some t)) (internal hv) (heap s2)) s2
              else s
          | None => s
          end
      | None => s
      end
  | None => s
  end.

(** The click listener of the close button of element [e]. *)
Definition clickClose (e : nat) (s : State) : State :=
  match elems s !! e with
  | Some x => if closeButton x then dismiss (data_tid x) s else s
  | None => s
  end.

(** The [requestAnimationFrame] callbacks queued by [notify]. *)
Definition frame (s : State) : State :=
  with_frames []
    (with_elems (foldl (fun es e => alter (set_hide false) e es) (elems s) (frames s)) s).

(** A pending timer fires once it is due: it leaves the pending set and its
    closure runs. *)
Definition fire (t : nat) (s : State) : State :=
  match timers s !! t with
  | None => s
  | Some tm =>
      if decide (due tm <= now s) then
        let s1 := with_timers (delete t (timers s)) s in
        match callback tm with
        | AutoDismiss h =>
            match heap s1 !! h with
            | Some o => dismiss (toast_id o) s1
            | None => s1
            end
        | HoverResume h =>
            match heap s1 !! h with
            | Some o =>
                match rd (id (opts o)) with
                | Some i => dismiss i s1
                | None => s1
                end
            | None => s1
            end
        | Removal i h => removal i h s1
        end
      else s
  end.

(** ** Runs *)

(** Time passes by [ETick]: the clock and the timers advance together. The
    clock that [Date.now] reads can also be set, forward or back, while the
    timers, which the platform runs on a monotonic clock, keep the time they
    have left: [EClock delta] moves the clock by [delta] and, the due times
    being written in clock readings, moves them along. *)
Definition set_due (delta : Z) (tm : Timer) : Timer :=
  {| callback := callback tm; delay := delay tm; due := due tm + delta |}.

Inductive Event :=
  | ENotify (messageOrOpts : MessageOrOpts) (maybeOpts : option NotifyOptions) (rnd : string)
  | ENotifyAs (t : ToastType) (msgOrOpts : MessageOrOpts) (maybe : option NotifyOptions)
              (rnd : string)
  | EDismiss (id0 : string)
  | EClear
  | EConfigure (options : NotifyOptions)
  | ETick (ms : N)
  | EClock (delta : Z)
  | EFire (t : nat)
  | EFrame
  | EMouseEnter (e : nat)
  | EMouseLeave (e : nat)
  | EClickClose (e : nat).

Definition step (ev : Event) (s : State) : State :=
  match ev with
  | ENotify a b rnd => (notify a b rnd s).1
  | ENotifyAs t a b rnd => (notify_as t a b rnd s).1
  | EDismiss i => dismiss i s
  | EClear => clear s
  | EConfigure o => configure o s
  | ETick ms => with_now (now s + Z.of_N ms) s
  | EClock delta => with_timers (set_due delta <$> timers s) (with_now (now s + delta) s)
  | EFire t => fire t s
  | EFrame => frame s
  | EMouseEnter e => mouseenter e s
  | EMouseLeave e => mouseleave e s
  | EClickClose e => clickClose e s
  end.

Definition run (tr : list Event) (s : State) : State :=
  foldl (fun s ev => step ev s) s tr.

(** ** Notions used in the statements *)

(** A field of an option record is populated when reading it gives a value
    ([null] counts: it is what [DEFAULTS] gives to [render]). *)
Definition populated (o : NotifyOptions) : Prop :=
  is_Some (rd (id o)) ∧ is_Some (rd (title o)) ∧ is_Some (rd (message o)) ∧
  is_Some (rd (type o)) ∧ is_Some (rd (duration o)) ∧ is_Some (rd (closable o)) ∧
  is_Some (rd (pauseOnHover o)) ∧ is_Some (rd (position o)) ∧
  is_Some (rd (containerClass o)) ∧ is_Some (rd (toastClass o)) ∧
  is_Some (rd (injectStyles o)) ∧ is_Some (rd (onClose o)) ∧ is_Some (rd (render o)).

(** The three layers read through one field: the call's value when the call
    has the key, else the configured one when the configuration has the
    key, else the built-in default. *)
Definition layered {A} (call config builtin : Slot A) : option A :=
  match call with
  | Present v => v
  | Absent => match config with Present v => v | Absent => rd builtin end
  end.

(** Number of entries of the registry under a key. *)
Fixpoint count_key (k : string) (m : list (string * nat)) : nat :=
  match m with
  | [] => O
  | (k', _) :: m' => ((if decide (k = k') then 1 else 0) + count_key k m')%nat
  end.

Definition carries (i : string) (x : ToastEl) : bool :=
  bool_decide (data_tid x = i) && bool_decide (is_Some (parent x)).

(** Handles of the toast elements that are attached to a container and
    carry the identifier [i], starting from handle [n]. *)
Fixpoint attached_from (i : string) (n : nat) (es : list ToastEl) : list nat :=
  match es with
  | [] => []
  | x :: es' => (if carries i x then [n] else []) ++ attached_from i (S n) es'
  end.

Definition attached_with (i : string) (s : State) : list nat :=
  attached_from i 0 (elems s).

(** The identifier a [notify]-like event resolves to. *)
Definition event_id (s : State) (ev : Event) : option string :=
  match ev with
  | ENotify a b rnd =>
      Some (default "" (rd (id (resolved (globalConfig s) (now s) rnd (optsBase a b)))))
  | ENotifyAs t a b rnd =>
      Some (default ""
              (rd (id (resolved (globalConfig s) (now s) rnd
                         (with_type (Present (Some t))
                                    (assign empty_opts (optsBase a b)))))))
  | _ => None
  end.

(** [i] is the identifier of no toast created so far. *)
Definition unused (i : string) (s : State) : Prop :=
  Forall (fun o => toast_id o ≠ i) (heap s).

(** The event is an explicit dismissal of the toast [i] shown in element
    [e]: [dismiss(i)], [clear()], or a click on its close button. *)
Definition dismisses (i : string) (e : nat) (ev : Event) : bool :=
  match ev with
  | EDismiss j => bool_decide (j = i)
  | EClear => true
  | EClickClose e' => bool_decide (e' = e)
  | _ => false
  end.

(** The run neither dismisses the toast [i] of element [e] explicitly nor
    shows another toast under the identifier [i]. *)
Fixpoint undisturbed (i : string) (e : nat) (s : State) (tr : list Event) : bool :=
  match tr with
  | [] => true
  | ev :: tr' =>
      negb (dismisses i e ev)
      && negb (bool_decide (event_id s ev = Some i))
      && undisturbed i e (step ev s) tr'
  end.

(** The custom renderer of the record, if any, returns. *)
Definition renderer_returns (i : string) (o : NotifyOptions) : Prop :=
  is_Some (buildToastElement i o).

(** ** States after each operation *)

(** [s'] extends the page of [s]: containers may have been added and the
    style sheet injected, nothing else differs. *)
Record page_ext (s s' : State) : Prop := {
  pe_browser : browser s' = browser s;
  pe_now : now s' = now s;
  pe_TOASTS : TOASTS s' = TOASTS s;
  pe_globalConfig : globalConfig s' = globalConfig s;
  pe_elems : elems s' = elems s;
  pe_heap : heap s' = heap s;
  pe_timers : timers s' = timers s;
  pe_nextTimer : nextTimer s' = nextTimer s;
  pe_frames : frames s' = frames s;
  pe_closeLog : closeLog s' = closeLog s;
  pe_body : ∃ l, body s' = body s ++ l;
  pe_old : ∀ k c, CONTAINERS s !! k = Some c → CONTAINERS s' !! k = Some c;
  pe_new : ∀ k c, CONTAINERS s' !! k = Some c →
             CONTAINERS s !! k = Some c ∨ (length (body s) ≤ c < length (body s'))%nat }.

(** The [InternalToast] a successful [notify] leaves in the heap, once
    [setAutoDismiss] has run. *)
Definition new_toast (o1 : NotifyOptions) (i : string) (s : State) : InternalToast :=
  {| toast_id := i; el := length (elems s);
     timeoutId := match rd (duration o1) with Some 0 => None | _ => Some (nextTimer s) end;
     opts := o1 |}.

Definition auto_timer (o1 : NotifyOptions) (s : State) : Timer :=
  {| callback := AutoDismiss (length (heap s)); delay := rd (duration o1);
     due := now s + timeout_ms (rd (duration o1)) |}.

(** [s'] is [s] after a [notify] that resolved its options to [o1], showed
    the toast [i] as element [x] in container [c]. *)
Record shown (o1 : NotifyOptions) (i : string) (c : nat) (x : ToastEl)
    (s s' : State) : Prop := {
  sh_browser : browser s = true;
  sh_browser' : browser s' = true;
  sh_id : rd (id o1) = Some i;
  sh_nonempty : i ≠ "";
  sh_key : CONTAINERS s' !! containerKey (rd (position o1))
                                         (default "" (rd (containerClass o1))) = Some c;
  sh_old : ∀ k c', CONTAINERS s !! k = Some c' → CONTAINERS s' !! k = Some c';
  sh_new : ∀ k c', CONTAINERS s' !! k = Some c' →
             CONTAINERS s !! k = Some c' ∨ (length (body s) ≤ c' < length (body s'))%nat;
  sh_body : ∃ l, body s' = body s ++ l;
  sh_built : ∃ e0, buildToastElement i o1 = Some e0;
  sh_tid : data_tid x = i;
  sh_parent : parent x = Some c;
  sh_hide : ∃ e0, buildToastElement i o1 = Some e0 ∧ hide x = hide e0;
  sh_hover : hover x = if truthy_bool (rd (pauseOnHover o1))
                       then Some {| internal := length (heap s);
                                    remaining := rd (duration o1); start := now s |}
                       else None;
  sh_elems : elems s' = elems s ++ [x];
  sh_heap : heap s' = heap s ++ [new_toast o1 i s];
  sh_TOASTS : TOASTS s' = map_set i (length (heap s)) (TOASTS s);
  sh_timers : timers s' = match rd (duration o1) with
                          | Some 0 => timers s
                          | _ => <[nextTimer s := auto_timer o1 s]> (timers s)
                          end;
  sh_nextTimer : nextTimer s' = match rd (duration o1) with
                                | Some 0 => nextTimer s
                                | _ => S (nextTimer s)
                                end;
  sh_frames : frames s' = frames s ++ [length (elems s)];
  sh_now : now s' = now s;
  sh_globalConfig : globalConfig s' = globalConfig s;
  sh_closeLog : closeLog s' = closeLog s }.

(** Timers left once [if (internal.timeoutId) clearTimeout(internal.timeoutId)]
    has run. *)
Definition cancel (t : option nat) (m : gmap nat Timer) : gmap nat Timer :=
  if truthy_num t then match t with Some t => delete t m | None => m end else m.

Definition removal_timer (i : string) (h : nat) (s : State) : Timer :=
  {| callback := Removal i h; delay := Some 220; due := now s + 220 |}.

(** The state after [dismiss(i)] found the object [o] at handle [h]. *)
Definition dismissed (i : string) (h : nat) (o : InternalToast) (s : State) : State :=
  with_nextTimer (S (nextTimer s))
    (with_timers (<[nextTimer s := removal_timer i h s]> (cancel (timeoutId o) (timers s)))
       (with_elems (alter (set_hide true) (el o) (elems s)) s)).

(** The entries [onClose && onClose()] adds to the trace. *)
Definition invoked (o : InternalToast) : list Callback :=
  match rd (onClose (opts o)) with Some cb => [cb] | None => [] end.

(** The state after the removal closure of [dismiss(i)] ran on object [o]. *)
Definition removed (i : string) (o : InternalToast) (s : State) : State :=
  with_closeLog (closeLog s ++ invoked o)
    (with_TOASTS (map_delete i (TOASTS s))
       (with_elems (alter (set_parent None) (el o) (elems s)) s)).

Definition paused (hv : Hover) (s : State) : Hover :=
  {| internal := internal hv;
     remaining := (fun r => Z.max 0 (fsub r (fsub (now s) (start hv)))) <$> remaining hv;
     start := start hv |}.

(** The state after the [mouseenter] listener of [e] found a timer
    identifier in its [internal] object [o]. *)
Definition entered (e : nat) (hv : Hover) (o : InternalToast) (s : State) : State :=
  with_elems (alter (set_hover (Some (paused hv s))) e (elems s))
    (with_timers (cancel (timeoutId o) (timers s)) s).

Definition resume_timer (hv : Hover) (r : Z) (s : State) : Timer :=
  {| callback := HoverResume (internal hv); delay := Some r;
     due := now s + timeout_ms (Some r) |}.

Definition resumed (hv : Hover) (r : Z) (s : State) : Hover :=
  {| internal := internal hv; remaining := Some r; start := now s |}.

(** The state after the [mouseleave] listener of [e] restarted a timer for
    the [r] remaining milliseconds. *)
Definition left_hover (e : nat) (hv : Hover) (r : Z) (s : State) : State :=
  with_heap (alter (set_timeoutId (Some (nextTimer s))) (internal hv) (heap s))
    (with_nextTimer (S (nextTimer s))
       (with_timers (<[nextTimer s := resume_timer hv r s]> (timers s))
          (with_elems (alter (set_hover (Some (resumed hv r s))) e (elems s)) s))).


(** ** Well-formed states *)

(** A timer closure refers to an object of the heap; a removal closure
    carries the identifier of its object. *)
Definition cb_ok (s : State) (cb : TimerCb) : Prop :=
  match cb with
  | AutoDismiss h | HoverResume h => (h < length (heap s))%nat
  | Removal i h => ∃ o, heap s !! h = Some o ∧ toast_id o = i
  end.

(** What every state reached from [init] satisfies. *)
Record Inv (s : State) : Prop := {
  inv_keys : ∀ k, (count_key k (TOASTS s) ≤ 1)%nat;
  inv_len : length (heap s) = length (elems s);
  inv_heap : ∀ h o, heap s !! h = Some o →
    el o = h ∧ rd (id (opts o)) = Some (toast_id o) ∧
    (∀ t, timeoutId o = Some t → (1 ≤ t < nextTimer s)%nat);
  inv_elems : ∀ e x, elems s !! e = Some x →
    (∃ o, heap s !! e = Some o ∧ data_tid x = toast_id o) ∧
    (∀ hv, hover x = Some hv → internal hv = e) ∧
    (∀ c, parent x = Some c → (c < length (body s))%nat);
  inv_reg : ∀ i h, map_get i (TOASTS s) = Some h →
    ∃ o x, heap s !! h = Some o ∧ toast_id o = i ∧
           elems s !! h = Some x ∧ is_Some (parent x);
  inv_timers : ∀ t tm, timers s !! t = Some tm →
    (1 ≤ t < nextTimer s)%nat ∧ cb_ok s (callback tm);
  inv_next : (1 ≤ nextTimer s)%nat;
  inv_containers : ∀ k c, CONTAINERS s !! k = Some c → (c < length (body s))%nat }.

(** What later operations leave in place: the rendering surface, the
    containers and their keys, and for each toast ever shown its object
    (identifier, element, options) and the identifier its element carries. *)
Record evolves (s s' : State) : Prop := {
  ev_browser : browser s' = browser s;
  ev_body : ∃ l, body s' = body s ++ l;
  ev_containers : ∀ k c, CONTAINERS s !! k = Some c → CONTAINERS s' !! k = Some c;
  ev_heap : ∀ h o, heap s !! h = Some o →
    ∃ o', heap s' !! h = Some o' ∧ toast_id o' = toast_id o ∧ el o' = el o ∧
          opts o' = opts o;
  ev_elems : ∀ e x, elems s !! e = Some x →
    ∃ x', elems s' !! e = Some x' ∧ data_tid x' = data_tid x }.

(** ** Further notions *)

(** The identifier a [notify]-like event returns, when it returns one. *)
Definition returned_id (s : State) (ev : Event) : option string :=
  match ev with
  | ENotify a b rnd =>
      match (notify a b rnd s).2 with Returned r => r | Threw => None end
  | ENotifyAs t a b rnd =>
      match (notify_as t a b rnd s).2 with Returned r => r | Threw => None end
  | _ => None
  end.

(** Along the run, no [notify] returns the identifier [i] while an element
    still attached to the page carries it. *)
Fixpoint reuse_free (i : string) (s : State) (tr : list Event) : bool :=
  match tr with
  | [] => true
  | ev :: tr' =>
      (if decide (returned_id s ev = Some i)
       then bool_decide (attached_with i s = []) else true)
      && reuse_free i (step ev s) tr'
  end.

(** No two attached elements carry the identifier [i]. *)
Definition one_each (i : string) (es : list ToastEl) : Prop :=
  ∀ e e' x x', es !! e = Some x → es !! e' = Some x' →
               is_Some (parent x) → is_Some (parent x') →
               data_tid x = i → data_tid x' = i → e = e'.

(** From [es] to [es'] no element appears, changes its identifier or gets
    attached. *)
Definition detaching (es es' : list ToastEl) : Prop :=
  ∀ e x', es' !! e = Some x' →
          ∃ x, es !! e = Some x ∧ data_tid x' = data_tid x ∧
               (is_Some (parent x') → is_Some (parent x)).

(** The timer a toast's [timeoutId] names, when it is still pending, is one
    of that toast's own dismissal timers. *)
Definition owns_timers (s : State) : Prop :=
  ∀ h o t tm, heap s !! h = Some o → timeoutId o = Some t →
              timers s !! t = Some tm →
              callback tm = AutoDismiss h ∨ callback tm = HoverResume h.

(** The toast of handle [h] is sticky and has stayed so: its duration is 0,
    its object names no timer, its hover listeners have nothing remaining,
    and no pending timer is one of its own dismissal timers. *)
Definition sticky (h : nat) (s : State) : Prop :=
  (∃ o, heap s !! h = Some o ∧ rd (duration (opts o)) = Some 0 ∧ timeoutId o = None) ∧
  (∀ e x hv, elems s !! e = Some x → hover x = Some hv → internal hv = h →
             remaining hv = Some 0) ∧
  (∀ t tm, timers s !! t = Some tm →
           callback tm ≠ AutoDismiss h ∧ callback tm ≠ HoverResume h).

(** The identifier [i] is registered for the toast [h], no other toast has
    it, and no removal of [i] is pending. *)
Definition kept (i : string) (h : nat) (s : State) : Prop :=
  map_get i (TOASTS s) = Some h ∧
  (∀ h' o', heap s !! h' = Some o' → toast_id o' = i → h' = h) ∧
  (∀ t tm h', timers s !! t = Some tm → callback tm ≠ Removal i h').

(** The container [div] that [containerFor] builds for a position and a
    class. *)
Definition container_div (position : option Position) (containerClass : string)
  : ContainerEl :=
  {| c_className :=
       "talx-container talx-container--" +:+ coerce position_name position
       +:+ (if truthy_str (Some containerClass) then " " +:+ containerClass else "");
     c_pointerEvents := "none" |}.

(** Every cached container is the [div] built for its key, and no two keys
    share a container; every container of the page is cached. *)
Definition containers_ok (s : State) : Prop :=
  (∀ k c, CONTAINERS s !! k = Some c →
     ∃ p cc, k = containerKey p cc ∧ body s !! c = Some (container_div p cc)) ∧
  (∀ c div, body s !! c = Some div → ∃ k, CONTAINERS s !! k = Some c).




(** The event is a [notify] whose resolved options ask for the default
    style sheet. *)
Definition wants_styles (s : State) (ev : Event) : bool :=
  match ev with
  | ENotify a b rnd =>
      truthy_bool (rd (injectStyles (resolved (globalConfig s) (now s) rnd (optsBase a b))))
  | ENotifyAs t a b rnd =>
      truthy_bool (rd (injectStyles
                         (resolved (globalConfig s) (now s) rnd
                            (with_type (Present (Some t))
                                       (assign empty_opts (optsBase a b))))))
  | _ => false
  end.

(** Reading a base-36 numeral back: the value of a digit, and of a string
    of digits after the value [acc] of the digits before it. *)
Definition value36 (c : ascii) : N :=
  let fix go (l : list ascii) (k : N) :=
    match l with
    | [] => 0%N
    | d :: l' => if Ascii.eqb c d then k else go l' (N.succ k)
    end in
  go (list_ascii_of_string "0123456789abcdefghijklmnopqrstuvwxyz") 0%N.

Fixpoint parse36 (acc : N) (s : string) : N :=
  match s with
  | EmptyString => acc
  | String c s' => parse36 (acc * 36 + value36 c) s'
  end.

(** Every character of the string satisfies [P]. *)
Fixpoint every (P : ascii → Prop) (s : string) : Prop :=
  match s with
  | EmptyString => True
  | String c s' => P c ∧ every P s'
  end.

(** What [buildToastElement] and the listener installation of [notify] fix
    for an element: the identifier it carries, what was appended to it as
    content, whether it has a close button, and whether it has hover
    listeners (and for which object). *)
Definition same_build (x x' : ToastEl) : Prop :=
  data_tid x' = data_tid x ∧ content x' = content x ∧
  closeButton x' = closeButton x ∧ internal <$> hover x' = internal <$> hover x.

Definition build_kept (es es' : list ToastEl) : Prop :=
  ∀ e x, es !! e = Some x → ∃ x', es' !! e = Some x' ∧ same_build x x'.

(** The keys of an option object, and whether the object has a key (with
    any value, [undefined] included). *)
Inductive Key :=
  | k_id | k_title | k_message | k_type | k_duration | k_closable | k_pauseOnHover
  | k_position | k_containerClass | k_toastClass | k_injectStyles | k_onClose | k_render.

Definition present {A} (x : Slot A) : bool :=
  match x with Present _ => true | Absent => false end.

Definition has_key (k : Key) (o : NotifyOptions) : bool :=
  match k with
  | k_id => present (id o)
  | k_title => present (title o)
  | k_message => present (message o)
  | k_type => present (type o)
  | k_duration => present (duration o)
  | k_closable => present (closable o)
  | k_pauseOnHover => present (pauseOnHover o)
  | k_position => present (position o)
  | k_containerClass => present (containerClass o)
  | k_toastClass => present (toastClass o)
  | k_injectStyles => present (injectStyles o)
  | k_onClose => present (onClose o)
  | k_render => present (render o)
  end.

(** Whether reading the key gives a value other than [undefined]. *)
Definition holds {A} (x : Slot A) : bool :=
  match rd x with Some _ => true | None => false end.

Definition has_value (k : Key) (o : NotifyOptions) : bool :=
  match k with
  | k_id => holds (id o)
  | k_title => holds (title o)
  | k_message => holds (message o)
  | k_type => holds (type o)
  | k_duration => holds (duration o)
  | k_closable => holds (closable o)
  | k_pauseOnHover => holds (pauseOnHover o)
  | k_position => holds (position o)
  | k_containerClass => holds (containerClass o)
  | k_toastClass => holds (toastClass o)
  | k_injectStyles => holds (injectStyles o)
  | k_onClose => holds (onClose o)
  | k_render => holds (render o)
  end.

(** Whether the topmost layer that has the key holds a value for it: the
    call's record, else the configuration, else the built-in defaults. *)
Definition top_value (k : Key) (g base : NotifyOptions) : bool :=
  if has_key k base then has_value k base
  else if has_key k g then has_value k g
  else has_value k DEFAULTS.

Definition is_configure (ev : Event) : bool :=
  match ev with EConfigure _ => true | _ => false end.






(** * Proofs *)

(** ** The registry map *)

Section registry_map.
Implicit Types (k : string) (v : nat) (m : list (string * nat)).

Lemma map_get_set k v m k' :
  map_get k' (map_set k v m) = if decide (k' = k) then Some v else map_get k' m.
Proof.
  induction m as [|[k0 v0] m IH]; simpl.
  - reflexivity.
  - repeat (case_decide; simpl; subst); congruence.
Qed.

Lemma map_get_delete k m k' :
  map_get k' (map_delete k m) = if decide (k' = k) then None else map_get k' m.
Proof.
  induction m as [|[k0 v0] m IH]; simpl.
  - by case_decide.
  - repeat (case_decide; simpl; subst); congruence.
Qed.

Lemma count_key_set k v m k' :
  count_key k' (map_set k v m)
  = if decide (k' = k) then Nat.max 1 (count_key k' m) else count_key k' m.
Proof.
  induction m as [|[k0 v0] m IH]; simpl.
  - repeat case_decide; simpl; lia.
  - repeat (case_decide; simpl; subst); try congruence; lia.
Qed.

Lemma count_key_delete k m k' :
  count_key k' (map_delete k m) = if decide (k' = k) then O else count_key k' m.
Proof.
  induction m as [|[k0 v0] m IH]; simpl.
  - by case_decide.
  - repeat (case_decide; simpl; subst); try congruence; lia.
Qed.

Lemma map_get_count k m : is_Some (map_get k m) ↔ (1 ≤ count_key k m)%nat.
Proof.
  induction m as [|[k0 v0] m IH]; simpl.
  - split; [intros [? [=]] | lia].
  - case_decide; [split; [lia | eauto] | by rewrite IH].
Qed.
End registry_map.

(** ** Merging option records *)

Lemma over_absent_l {A} (x : Slot A) : over Absent x = x.
Proof. by destruct x. Qed.

Lemma rd_over {A} (x y : Slot A) :
  rd (over x y) = match y with Present v => v | Absent => rd x end.
Proof. by destruct y. Qed.

Lemma rd_merged {A} (b g d : Slot A) :
  rd (over (over (over Absent d) g) b) = layered b g d.
Proof. by destruct b, g, d. Qed.

Lemma assign_empty_l (o : NotifyOptions) : assign empty_opts o = o.
Proof. destruct o; unfold assign; simpl; by rewrite !over_absent_l. Qed.

(** What [resolved] does to the identifier. *)
Lemma resolved_id g t rnd base :
  rd (id (resolved g t rnd base))
  = if truthy_str (rd (id (merged g base))) then rd (id (merged g base))
    else Some (makeId t rnd).
Proof. unfold resolved. by destruct (truthy_str _). Qed.

Lemma makeId_nonempty t rnd : makeId t rnd ≠ "".
Proof. done. Qed.

Lemma truthy_str_Some v : truthy_str v = true → ∃ x, v = Some x ∧ x ≠ "".
Proof.
  destruct v as [x|]; [|done]. simpl. intros H. exists x. split; [done|].
  intros ->. done.
Qed.

Lemma resolved_id_nonempty g t rnd base :
  ∃ i, rd (id (resolved g t rnd base)) = Some i ∧ i ≠ "".
Proof.
  rewrite resolved_id. destruct (truthy_str _) eqn:E.
  - by apply truthy_str_Some.
  - eexists. split; [done | apply makeId_nonempty].
Qed.

(** ** Effects on the page only *)

Lemma page_ext_refl s : page_ext s s.
Proof. split; auto. exists []. by rewrite app_nil_r. Qed.

Lemma page_ext_trans s1 s2 s3 : page_ext s1 s2 → page_ext s2 s3 → page_ext s1 s3.
Proof.
  intros [] []. split; try congruence; auto.
  - destruct pe_body0 as [l1 E1], pe_body1 as [l2 E2].
    exists (l1 ++ l2). by rewrite E2, E1, app_assoc.
  - intros k c H. destruct pe_body0 as [l1 E1], pe_body1 as [l2 E2].
    destruct (pe_new1 k c H) as [H'|H'].
    + destruct (pe_new0 k c H') as [?|?]; [by left|right].
      rewrite E2, length_app. lia.
    + right. rewrite E1, length_app in H'. lia.
Qed.

Lemma injectDefaultStyles_ext s : page_ext s (injectDefaultStyles s).
Proof.
  unfold injectDefaultStyles. destruct (negb _), (styleInjected s);
    try apply page_ext_refl.
  split; simpl; auto. exists []. by rewrite app_nil_r.
Qed.

Lemma containerFor_browser p cc s :
  browser s = true →
  ∃ s' c, containerFor p cc s = (s', Some c) ∧ page_ext s s' ∧
          CONTAINERS s' !! containerKey p (default "" cc) = Some c.
Proof.
  intros Hb. unfold containerFor, isBrowser. rewrite Hb. simpl.
  destruct (CONTAINERS s !! _) as [c|] eqn:E.
  - exists s, c. split; [done|]. split; [apply page_ext_refl | done].
  - eexists _, _. split; [done|]. split.
    + split; simpl; auto.
      * by eexists.
      * intros k c H. rewrite lookup_insert_ne; [done|]. intros <-. congruence.
      * intros k c. rewrite lookup_insert. case_decide.
        -- intros [= <-]. right. rewrite length_app. simpl. lia.
        -- by left.
    + simpl. by rewrite lookup_insert_eq.
Qed.

Lemma containerFor_no_browser p cc s :
  browser s = false → containerFor p cc s = (s, None).
Proof. intros Hb. unfold containerFor, isBrowser. by rewrite Hb. Qed.

(** ** What [notify] does *)

Lemma buildToastElement_fields i o e0 :
  buildToastElement i o = Some e0 →
  data_tid e0 = i ∧ parent e0 = None ∧ hover e0 = None.
Proof.
  unfold buildToastElement. intros H.
  destruct (rd (render o)) as [[|f]|]; [| destruct (f _) |]; by simplify_eq.
Qed.

(** The three ways out of [notify]. *)
Lemma notify_cases a b rnd s s' r :
  notify a b rnd s = (s', r) →
  let o1 := resolved (globalConfig s) (now s) rnd (optsBase a b) in
  (browser s = false ∧ s' = s ∧ r = Returned None)
  ∨ (browser s = true ∧ r = Threw ∧ page_ext s s' ∧
     buildToastElement (default "" (rd (id o1))) o1 = None)
  ∨ (∃ i c x, r = Returned (Some i) ∧ shown o1 i c x s s').
Proof.
  intros H o1. unfold notify, isBrowser in H. fold o1 in H.
  destruct (browser s) eqn:Hb; simpl in H; [|left; by simplify_eq].
  right.
  destruct (resolved_id_nonempty (globalConfig s) (now s) rnd (optsBase a b))
    as (i & Hi & Hne). fold o1 in Hi. rewrite Hi in H. simpl in H.
  set (s1 := if truthy_bool (rd (injectStyles o1)) then injectDefaultStyles s else s) in *.
  assert (page_ext s s1) as Hs1.
  { unfold s1. destruct (truthy_bool _);
      [apply injectDefaultStyles_ext | apply page_ext_refl]. }
  destruct (containerFor_browser (rd (position o1)) (rd (containerClass o1)) s1)
    as (s2 & c & Hc & Hs2 & Hkey).
  { by rewrite (pe_browser _ _ Hs1). }
  rewrite Hc in H.
  pose proof (page_ext_trans _ _ _ Hs1 Hs2) as [].
  destruct (buildToastElement i o1) as [e0|] eqn:Hbuild.
  - right. destruct (buildToastElement_fields _ _ _ Hbuild) as (?&?&?).
    injection H as <- <-.
    exists i, c, (set_hover
      (if truthy_bool (rd (pauseOnHover o1))
       then Some {| internal := length (heap s2); remaining := rd (duration o1);
                    start := now s2 |} else None) (set_parent (Some c) e0)).
    split; [done|].
    unfold setAutoDismiss. simpl.
    rewrite lookup_app_r, Nat.sub_diag by lia. simpl.
    rewrite pe_heap0, pe_now0, pe_elems0.
    destruct (rd (duration o1)) as [[| |]|] eqn:Hd; simpl.
    all: split; simpl; rewrite ?Hb, ?Hd, ?pe_heap0, ?pe_elems0, ?pe_TOASTS0,
           ?pe_timers0, ?pe_nextTimer0, ?pe_frames0, ?pe_now0; eauto;
         try (rewrite <- (Nat.add_0_r (length (heap s))) at 1;
              rewrite alter_app_r; simpl; unfold new_toast; simpl; by rewrite ?Hd).
    all: unfold new_toast, auto_timer; by rewrite Hd.
  - left. injection H as <- <-. rewrite Hi. simpl. done.
Qed.

(** ** What the other operations do *)

Lemma cancel_lookup t m t' tm : cancel t m !! t' = Some tm → m !! t' = Some tm.
Proof.
  unfold cancel. destruct (truthy_num t); [|done]. destruct t as [t|]; [|done].
  rewrite lookup_delete. by case_decide.
Qed.

(** ** Delays and subtractions within range *)

Lemma toInt32_small z : - 2 ^ 31 <= z < 2 ^ 31 → toInt32 z = z.
Proof.
  intros Hz. unfold toInt32. rewrite Z.mod_small; lia.
Qed.

Lemma timeout_ms_small r : 0 <= r < 2 ^ 31 → timeout_ms (Some r) = r.
Proof.
  intros Hr. unfold timeout_ms. simpl. rewrite toInt32_small by lia. lia.
Qed.

Lemma timeout_ms_nonneg d : 0 <= timeout_ms d.
Proof. unfold timeout_ms. lia. Qed.

Lemma round53_small z : Z.abs z < 2 ^ 53 → round53 z = z.
Proof.
  intros Hz. unfold round53.
  destruct (Z.ltb_spec (Z.abs z) (2 ^ 53)); [done|lia].
Qed.


Lemma fsub_small a b : Z.abs (a - b) < 2 ^ 53 → fsub a b = a - b.
Proof. apply round53_small. Qed.

Lemma lookup_set_due delta (m : gmap nat Timer) t tm :
  (set_due delta <$> m) !! t = Some tm →
  ∃ tm0, m !! t = Some tm0 ∧ callback tm = callback tm0 ∧ delay tm = delay tm0 ∧
         due tm = due tm0 + delta.
Proof.
  rewrite lookup_fmap. destruct (m !! t) as [tm0|]; [|done].
  intros [= <-]. by exists tm0.
Qed.

Lemma dismiss_cases i s :
  dismiss i s = s ∨
  ∃ h o, browser s = true ∧ map_get i (TOASTS s) = Some h ∧ heap s !! h = Some o ∧
         dismiss i s = dismissed i h o s.
Proof.
  unfold dismiss, isBrowser. destruct (browser s) eqn:Hb; simpl; [|by left].
  destruct (map_get i (TOASTS s)) as [h|] eqn:Hg; [|by left].
  destruct (heap s !! h) as [o|] eqn:Ho; [|by left].
  right. exists h, o. repeat split; try done.
  unfold dismissed, cancel. destruct (truthy_num (timeoutId o)); [|done].
  by destruct (timeoutId o).
Qed.

Lemma alter_fixed {A} (f : A → A) (l : list A) i x :
  l !! i = Some x → f x = x → alter f i l = l.
Proof.
  intros Hx Hf. apply list_eq. intros j. rewrite list_lookup_alter.
  case_decide; [subst; by rewrite Hx; simpl; rewrite Hf | done].
Qed.

Lemma alter_absent {A} (f : A → A) (l : list A) i :
  l !! i = None → alter f i l = l.
Proof.
  intros Hx. apply list_eq. intros j. rewrite list_lookup_alter.
  case_decide; [subst; by rewrite Hx | done].
Qed.

Lemma removal_eq i h o s : heap s !! h = Some o → removal i h s = removed i o s.
Proof.
  intros Ho. unfold removal, removed, invoked. rewrite Ho.
  assert (alter (set_parent None) (el o) (elems s)
          = match elems s !! el o with
            | Some x => match parent x with
                        | Some _ => alter (set_parent None) (el o) (elems s)
                        | None => elems s
                        end
            | None => elems s
            end) as ->.
  { destruct (elems s !! el o) as [x|] eqn:Hx.
    - destruct (parent x) eqn:Hp; [done|].
      apply (alter_fixed _ _ _ x Hx). destruct x; simpl in *; by subst.
    - by apply alter_absent. }
  destruct s; simpl.
  destruct (elems0 !! el o) as [x|]; [destruct (parent x)|];
    destruct (rd (onClose (opts o))); simpl; by rewrite ?app_nil_r.
Qed.

Lemma removal_none i h s : heap s !! h = None → removal i h s = s.
Proof. intros Ho. unfold removal. by rewrite Ho. Qed.

Lemma mouseenter_cases e s :
  mouseenter e s = s ∨
  ∃ x hv o, elems s !! e = Some x ∧ hover x = Some hv ∧
            heap s !! internal hv = Some o ∧ truthy_num (timeoutId o) = true ∧
            mouseenter e s = entered e hv o s.
Proof.
  unfold mouseenter. destruct (elems s !! e) as [x|] eqn:Hx; [|by left].
  destruct (hover x) as [hv|] eqn:Hh; [|by left].
  destruct (heap s !! internal hv) as [o|] eqn:Ho; [|by left].
  destruct (truthy_num (timeoutId o)) eqn:Ht; [|by left].
  right. exists x, hv, o. repeat split; try done.
  unfold entered, cancel. rewrite Ht. by destruct (timeoutId o).
Qed.

Lemma mouseleave_cases e s :
  mouseleave e s = s ∨
  ∃ x hv r, elems s !! e = Some x ∧ hover x = Some hv ∧ remaining hv = Some r ∧
            0 < r ∧ mouseleave e s = left_hover e hv r s.
Proof.
  unfold mouseleave. destruct (elems s !! e) as [x|] eqn:Hx; [|by left].
  destruct (hover x) as [hv|] eqn:Hh; [|by left].
  destruct (remaining hv) as [r|] eqn:Hr; [|by left].
  case_decide; [|by left]. right. by exists x, hv, r.
Qed.

(** [frame] only clears [hide] flags. *)
Lemma foldl_unhide_lookup (l : list nat) (es : list ToastEl) e :
  ∃ b : bool, foldl (fun es e => alter (set_hide false) e es) es l !! e
              = (fun x => if b then set_hide false x else x) <$> es !! e.
Proof.
  revert es. induction l as [|e' l IH]; intros es; simpl.
  - exists false. by destruct (es !! e).
  - destruct (IH (alter (set_hide false) e' es)) as [b ->].
    rewrite list_lookup_alter. case_decide.
    + subst. exists true. destruct (es !! e); simpl; [|done]. by destruct b.
    + by exists b.
Qed.

Lemma frame_lookup s e :
  ∃ b : bool, elems (frame s) !! e
              = (fun x => if b then set_hide false x else x) <$> elems s !! e.
Proof. apply foldl_unhide_lookup. Qed.

Lemma frame_length s : length (elems (frame s)) = length (elems s).
Proof.
  unfold frame. simpl. generalize (elems s).
  induction (frames s) as [|e l IH]; intros es; simpl; [done|].
  by rewrite IH, length_alter.
Qed.

(** [fire] either does nothing or takes a due timer out and runs its
    closure. *)
Lemma fire_cases t s :
  fire t s = s ∨
  ∃ tm, timers s !! t = Some tm ∧ due tm <= now s ∧
        let s1 := with_timers (delete t (timers s)) s in
        fire t s =
        match callback tm with
        | AutoDismiss h =>
            match heap s !! h with Some o => dismiss (toast_id o) s1 | None => s1 end
        | HoverResume h =>
            match heap s !! h with
            | Some o => match rd (id (opts o)) with Some i => dismiss i s1 | None => s1 end
            | None => s1
            end
        | Removal i h => removal i h s1
        end.
Proof.
  unfold fire. destruct (timers s !! t) as [tm|] eqn:Ht; [|by left].
  case_decide; [|by left]. right. by exists tm.
Qed.

(** ** The invariant is preserved *)

Ltac alter_cases H :=
  rewrite list_lookup_alter in H; case_decide;
  [subst; apply fmap_Some in H as (? & H & ->) | ].

Lemma Inv_init b t0 : Inv (init b t0).
Proof.
  split; simpl; try done; try lia.
Qed.

Lemma Inv_page s s' : Inv s → page_ext s s' → Inv s'.
Proof.
  intros [] []. destruct pe_body0 as [l Hl].
  split; rewrite ?pe_TOASTS0, ?pe_heap0, ?pe_elems0, ?pe_timers0, ?pe_nextTimer0; auto.
  - intros e x Hx. destruct (inv_elems0 e x Hx) as (? & ? & Hc).
    repeat split; auto. intros c Hp. apply Hc in Hp. rewrite Hl, length_app. lia.
  - intros t tm Ht. destruct (inv_timers0 t tm Ht) as [? Hcb]. split; [done|].
    destruct (callback tm); simpl in *; by rewrite ?pe_heap0.
  - intros k c Hk. destruct (pe_new0 k c Hk) as [H|H]; [|lia].
    apply inv_containers0 in H. rewrite Hl, length_app. lia.
Qed.

Lemma cb_ok_ext s s' cb :
  (∀ h o, heap s !! h = Some o → ∃ o', heap s' !! h = Some o' ∧ toast_id o' = toast_id o) →
  cb_ok s cb → cb_ok s' cb.
Proof.
  intros Hh. destruct cb as [h|h|i h]; simpl.
  - intros Hlt. apply lookup_lt_is_Some_2 in Hlt as [o Ho].
    destruct (Hh _ _ Ho) as (o' & Ho' & _). by apply lookup_lt_Some in Ho'.
  - intros Hlt. apply lookup_lt_is_Some_2 in Hlt as [o Ho].
    destruct (Hh _ _ Ho) as (o' & Ho' & _). by apply lookup_lt_Some in Ho'.
  - intros (o & Ho & <-). destruct (Hh _ _ Ho) as (o' & Ho' & ?). eauto.
Qed.

Lemma Inv_shown o1 i c x s s' : Inv s → shown o1 i c x s s' → Inv s'.
Proof.
  intros [] [].
  assert (c < length (body s'))%nat as Hc.
  { destruct sh_body0 as [l Hl]. destruct (sh_new0 _ _ sh_key0) as [H|H]; [|lia].
    apply inv_containers0 in H. rewrite Hl, length_app. lia. }
  assert (nextTimer s ≤ nextTimer s')%nat as Hn.
  { rewrite sh_nextTimer0. destruct (rd (duration o1)) as [[| |]|]; lia. }
  split.
  - intros k. rewrite sh_TOASTS0, count_key_set. pose proof (inv_keys0 k).
    case_decide; lia.
  - rewrite sh_heap0, sh_elems0, !length_app. simpl. lia.
  - intros h o. rewrite sh_heap0. intros [[_ Ho]|[-> <-]]%lookup_snoc_Some.
    + destruct (inv_heap0 h o Ho) as (? & ? & Ht). split; [done|]. split; [done|].
      intros t Hto. apply Ht in Hto. lia.
    + unfold new_toast. simpl. split; [done|]. split; [done|].
      intros t. rewrite sh_nextTimer0.
      destruct (rd (duration o1)) as [[| |]|]; intros [= <-]; lia.
  - intros e y. rewrite sh_elems0, sh_heap0.
    intros [[_ Hy]|[-> <-]]%lookup_snoc_Some.
    + destruct (inv_elems0 e y Hy) as ((o & Ho & ?) & ? & Hp).
      split; [|split; [done|]].
      * exists o. split; [by apply lookup_app_l_Some | done].
      * intros c' Hc'. apply Hp in Hc'. destruct sh_body0 as [l ->].
        rewrite length_app. lia.
    + split; [|split].
      * exists (new_toast o1 i s). rewrite <- inv_len0.
        split; [by apply list_lookup_middle | done].
      * rewrite sh_hover0, <- inv_len0. destruct (truthy_bool _); [|done].
        by intros hv [= <-].
      * rewrite sh_parent0. by intros c' [= <-].
  - intros j h. rewrite sh_TOASTS0, map_get_set, sh_heap0, sh_elems0. case_decide.
    + intros [= <-]. subst j. exists (new_toast o1 i s), x.
      split; [by apply list_lookup_middle|]. split; [done|].
      split; [rewrite inv_len0; by apply list_lookup_middle|].
      rewrite sh_parent0. eauto.
    + intros Hj. destruct (inv_reg0 j h Hj) as (o & y & ? & ? & ? & ?).
      exists o, y. repeat split; auto using lookup_app_l_Some.
  - intros t tm Ht.
    assert (cb_ok s (callback tm) → cb_ok s' (callback tm)) as Hext.
    { apply cb_ok_ext. intros h o Ho. exists o. rewrite sh_heap0.
      split; [by apply lookup_app_l_Some | done]. }
    rewrite sh_timers0 in Ht.
    assert (timers s !! t = Some tm ∨
            (t = nextTimer s ∧ tm = auto_timer o1 s ∧ nextTimer s' = S (nextTimer s)))
      as [Hold|(-> & -> & Hnew)].
    { rewrite sh_nextTimer0.
      destruct (rd (duration o1)) as [[| |]|]; [by left|..];
        rewrite lookup_insert in Ht; case_decide; simplify_eq; auto. }
    + destruct (inv_timers0 t tm Hold). split; [lia | auto].
    + split; [lia|]. simpl. rewrite sh_heap0, length_app. simpl. lia.
  - lia.
  - intros k c' Hk. destruct sh_body0 as [l Hl].
    destruct (sh_new0 k c' Hk) as [H|H]; [|lia].
    apply inv_containers0 in H. rewrite Hl, length_app. lia.
Qed.

Lemma Inv_cancelled s m :
  Inv s → (∀ t tm, m !! t = Some tm → timers s !! t = Some tm) →
  Inv (with_timers m s).
Proof.
  intros [] Hm. split; simpl; auto.
  intros t tm Ht. apply Hm in Ht. by apply inv_timers0.
Qed.

Lemma Inv_dismissed i h o s :
  Inv s → heap s !! h = Some o → toast_id o = i → Inv (dismissed i h o s).
Proof.
  intros [] Ho Hi. split; simpl.
  - done.
  - by rewrite length_alter.
  - intros h' o' Ho'. destruct (inv_heap0 h' o' Ho') as (? & ? & Ht).
    split; [done|]. split; [done|]. intros t Hto. apply Ht in Hto. lia.
  - intros e x Hx. alter_cases Hx; simpl; by apply inv_elems0.
  - intros j h' Hj. destruct (inv_reg0 j h' Hj) as (o' & y & ? & ? & Hy & ?).
    destruct (decide (el o = h')) as [<-|].
    + exists o', (set_hide true y). rewrite list_lookup_alter_eq, Hy. by simpl.
    + exists o', y. by rewrite list_lookup_alter_ne.
  - intros t tm. rewrite lookup_insert. case_decide.
    + intros [= <-]. subst. split; [lia|]. simpl. eauto.
    + intros Ht%cancel_lookup. destruct (inv_timers0 t tm Ht). split; [lia|done].
  - lia.
  - done.
Qed.

Lemma Inv_dismiss i s : Inv s → Inv (dismiss i s).
Proof.
  intros HI. destruct (dismiss_cases i s) as [->|(h & o & _ & Hg & Ho & ->)]; [done|].
  apply Inv_dismissed; [done..|].
  destruct (inv_reg _ HI _ _ Hg) as (o' & ? & Ho' & ? & _). congruence.
Qed.

Lemma Inv_removed i o s :
  Inv s → heap s !! el o = Some o → toast_id o = i → Inv (removed i o s).
Proof.
  intros [] Ho Hi. split; simpl.
  - intros k. rewrite count_key_delete. pose proof (inv_keys0 k). case_decide; lia.
  - by rewrite length_alter.
  - done.
  - intros e x Hx. alter_cases Hx; simpl.
    + destruct (inv_elems0 _ _ Hx) as (? & ? & ?). done.
    + by apply inv_elems0.
  - intros j h'. rewrite map_get_delete. case_decide; [done|]. intros Hj.
    destruct (inv_reg0 j h' Hj) as (o' & y & Ho' & ? & Hy & ?).
    exists o', y. rewrite list_lookup_alter_ne; [done|].
    intros <-. congruence.
  - done.
  - done.
  - done.
Qed.

Lemma Inv_removal i h s : Inv s → cb_ok s (Removal i h) → Inv (removal i h s).
Proof.
  intros HI (o & Ho & Hi). rewrite (removal_eq _ _ _ _ Ho).
  destruct (inv_heap _ HI _ _ Ho) as (He & _). apply Inv_removed; [done| |done].
  by rewrite He.
Qed.

Lemma Inv_entered e x hv o s :
  Inv s → elems s !! e = Some x → hover x = Some hv → Inv (entered e hv o s).
Proof.
  intros HI Hx Hhv.
  assert (Inv (with_timers (cancel (timeoutId o) (timers s)) s)) as [].
  { apply Inv_cancelled; [done|]. apply cancel_lookup. }
  simpl in *.
  destruct (inv_elems _ HI _ _ Hx) as (_ & Hint & _).
  split; simpl.
  - done.
  - by rewrite length_alter.
  - done.
  - intros e' y Hy. alter_cases Hy; simpl; [|by apply inv_elems0].
    destruct (inv_elems0 _ _ Hy) as (? & ? & ?). split; [done|]. split; [|done].
    intros ? [= <-]. simpl. simplify_eq. by apply Hint.
  - intros j h' Hj. destruct (inv_reg0 j h' Hj) as (o' & y & ? & ? & Hy & ?).
    destruct (decide (e = h')) as [<-|].
    + eexists o', _. rewrite list_lookup_alter_eq, Hy. by simpl.
    + exists o', y. by rewrite list_lookup_alter_ne.
  - done.
  - done.
  - done.
Qed.

Lemma Inv_left_hover e x hv r s :
  Inv s → elems s !! e = Some x → hover x = Some hv → Inv (left_hover e hv r s).
Proof.
  intros [] Hx Hhv.
  destruct (inv_elems0 _ _ Hx) as ((o & Ho & _) & Hint & _).
  pose proof (Hint _ Hhv) as Hie. clear Hint.
  unfold left_hover. rewrite !Hie.
  split; simpl.
  - done.
  - by rewrite !length_alter.
  - intros h' o' Ho'. alter_cases Ho'; simpl.
    + destruct (inv_heap0 _ _ Ho') as (? & ? & _). split; [done|]. split; [done|].
      intros ? [= <-]. lia.
    + destruct (inv_heap0 _ _ Ho') as (? & ? & Ht). split; [done|]. split; [done|].
      intros t Hto. apply Ht in Hto. lia.
  - intros e' y Hy.
    assert (∀ o', heap s !! e' = Some o' →
              ∃ o'', alter (set_timeoutId (Some (nextTimer s))) e (heap s)
                     !! e' = Some o'' ∧ toast_id o'' = toast_id o') as Hheap.
    { intros o' Ho'. rewrite list_lookup_alter. case_decide; subst.
      - rewrite Ho'. simpl. eauto.
      - eauto. }
    alter_cases Hy; simpl.
    + destruct (inv_elems0 _ _ Hy) as ((o' & Ho' & ?) & ? & ?).
      split; [|split; [|done]].
      * destruct (Hheap _ Ho') as (o'' & ? & ?). exists o''. split; [done|congruence].
      * intros ? [= <-]. simpl. eauto.
    + destruct (inv_elems0 _ _ Hy) as ((o' & Ho' & ?) & ? & ?).
      split; [|done].
      destruct (Hheap _ Ho') as (o'' & ? & ?). exists o''. split; [done|congruence].
  - intros j h' Hj. destruct (inv_reg0 j h' Hj) as (o' & y & Ho' & ? & Hy & ?).
    assert (∃ y', alter (set_hover (Some (resumed hv r s))) e (elems s) !! h' = Some y'
                  ∧ is_Some (parent y')) as (y' & ? & ?).
    { rewrite list_lookup_alter. case_decide; subst.
      - rewrite Hy. simpl. eauto.
      - eauto. }
    destruct (decide (e = h')) as [<-|].
    + eexists _, y'. rewrite list_lookup_alter_eq, Ho'. by simpl.
    + exists o', y'. by rewrite list_lookup_alter_ne.
  - intros t tm Ht.
    rewrite lookup_insert in Ht. case_decide.
    + simplify_eq. split; [lia|]. simpl. rewrite length_alter.
      by apply lookup_lt_Some in Ho.
    + destruct (inv_timers0 t tm Ht) as [? Hcb]. split; [lia|].
      revert Hcb. apply cb_ok_ext. intros h' o' Ho'. simpl. rewrite list_lookup_alter.
      case_decide; subst; [rewrite Ho'; simpl|]; eauto.
  - lia.
  - done.
Qed.

Lemma Inv_frame s : Inv s → Inv (frame s).
Proof.
  intros []. split.
  - done.
  - by rewrite frame_length.
  - done.
  - intros e x Hx. destruct (frame_lookup s e) as [b Hb]. rewrite Hb in Hx.
    apply fmap_Some in Hx as (y & Hy & ->).
    destruct (inv_elems0 _ _ Hy). by destruct b.
  - intros j h' Hj. destruct (inv_reg0 j h' Hj) as (o' & y & Ho' & ? & Hy & ?).
    destruct (frame_lookup s h') as [b Hb]. rewrite Hy in Hb.
    eexists o', _. split; [done|]. split; [done|]. split; [exact Hb|].
    by destruct b.
  - done.
  - done.
  - done.
Qed.

Lemma Inv_clear s : Inv s → Inv (clear s).
Proof.
  unfold clear. destruct (negb _); [done|].
  generalize (map_keys (TOASTS s)). intros l. revert s.
  induction l as [|i l IH]; intros s HI; simpl; [done|].
  by apply IH, Inv_dismiss.
Qed.

Lemma Inv_notify a b rnd s : Inv s → Inv (notify a b rnd s).1.
Proof.
  intros HI. destruct (notify a b rnd s) as [s' r] eqn:E.
  destruct (notify_cases _ _ _ _ _ _ E) as [(_ & -> & _)|[(_ & _ & Hp & _)|(i & c & x & _ & Hs)]];
    simpl; eauto using Inv_page, Inv_shown.
Qed.

Lemma Inv_fire t s : Inv s → Inv (fire t s).
Proof.
  intros HI. destruct (fire_cases t s) as [->|(tm & Ht & _ & ->)]; [done|].
  destruct (inv_timers _ HI _ _ Ht) as [_ Hcb].
  assert (Inv (with_timers (delete t (timers s)) s)) as HI'.
  { apply Inv_cancelled; [done|]. intros t' tm'. rewrite lookup_delete.
    by case_decide. }
  destruct (callback tm) as [h|h|i h].
  - destruct (heap s !! h); [by apply Inv_dismiss | done].
  - destruct (heap s !! h) as [o|]; [|done].
    destruct (rd (id (opts o))); [by apply Inv_dismiss | done].
  - by apply Inv_removal.
Qed.

Lemma Inv_step ev s : Inv s → Inv (step ev s).
Proof.
  intros HI. destruct ev; simpl.
  - by apply Inv_notify.
  - by apply Inv_notify.
  - by apply Inv_dismiss.
  - by apply Inv_clear.
  - by destruct HI.
  - by destruct HI.
  - destruct HI. split; simpl; try done.
    intros t tm. rewrite lookup_fmap.
    destruct (timers s !! t) as [tm'|] eqn:E; [|done].
    intros [= <-]. apply (inv_timers0 t tm' E).
  - by apply Inv_fire.
  - by apply Inv_frame.
  - destruct (mouseenter_cases e s) as [->|(x & hv & o & ? & ? & ? & ? & ->)];
      eauto using Inv_entered.
  - destruct (mouseleave_cases e s) as [->|(x & hv & r & ? & ? & ? & ? & ->)];
      eauto using Inv_left_hover.
  - unfold clickClose. destruct (elems s !! e) as [x|]; [|done].
    destruct (closeButton x); [by apply Inv_dismiss | done].
Qed.

Lemma Inv_run_from tr s : Inv s → Inv (run tr s).
Proof.
  revert s. induction tr as [|ev tr IH]; intros s HI; [done|].
  apply IH, Inv_step, HI.
Qed.

Lemma Inv_run b t0 tr : Inv (run tr (init b t0)).
Proof. apply Inv_run_from, Inv_init. Qed.

(** ** What no operation undoes *)

Lemma evolves_refl s : evolves s s.
Proof.
  split; eauto. exists []. by rewrite app_nil_r.
Qed.

Lemma evolves_trans s1 s2 s3 : evolves s1 s2 → evolves s2 s3 → evolves s1 s3.
Proof.
  intros [] []. split; try congruence; auto.
  - destruct ev_body0 as [l1 E1], ev_body1 as [l2 E2].
    exists (l1 ++ l2). by rewrite E2, E1, app_assoc.
  - intros h o Ho. destruct (ev_heap0 _ _ Ho) as (o' & Ho' & ? & ? & ?).
    destruct (ev_heap1 _ _ Ho') as (o'' & ? & ? & ? & ?).
    exists o''. repeat split; congruence.
  - intros e x Hx. destruct (ev_elems0 _ _ Hx) as (x' & Hx' & ?).
    destruct (ev_elems1 _ _ Hx') as (x'' & ? & ?).
    exists x''. split; congruence.
Qed.

Lemma evolves_page s s' : page_ext s s' → evolves s s'.
Proof.
  intros []. split; auto.
  - rewrite pe_heap0. eauto.
  - rewrite pe_elems0. eauto.
Qed.

Lemma evolves_shown o1 i c x s s' : shown o1 i c x s s' → evolves s s'.
Proof.
  intros []. split; auto.
  - congruence.
  - intros h o Ho. exists o. rewrite sh_heap0. by split; [apply lookup_app_l_Some|].
  - intros e y Hy. exists y. rewrite sh_elems0. by split; [apply lookup_app_l_Some|].
Qed.

Lemma evolves_notify a b rnd s : evolves s (notify a b rnd s).1.
Proof.
  destruct (notify a b rnd s) as [s' r] eqn:E.
  destruct (notify_cases _ _ _ _ _ _ E)
    as [(_ & -> & _)|[(_ & _ & Hp & _)|(i & c & x & _ & Hs)]];
    simpl; eauto using evolves_refl, evolves_page, evolves_shown.
Qed.

Lemma evolves_elems (f : ToastEl → ToastEl) e s :
  (∀ x, data_tid (f x) = data_tid x) →
  evolves s (with_elems (alter f e (elems s)) s).
Proof.
  intros Hf. split; simpl; eauto.
  - exists []. by rewrite app_nil_r.
  - intros e' x Hx. rewrite list_lookup_alter. case_decide; subst.
    + rewrite Hx. simpl. eauto.
    + eauto.
Qed.

Lemma evolves_timers m n s : evolves s (with_nextTimer n (with_timers m s)).
Proof. split; simpl; eauto. exists []. by rewrite app_nil_r. Qed.

Lemma evolves_dismiss i s : evolves s (dismiss i s).
Proof.
  destruct (dismiss_cases i s) as [->|(h & o & _ & _ & _ & ->)];
    [apply evolves_refl|].
  eapply evolves_trans; [by apply (evolves_elems (set_hide true) (el o))|].
  apply (evolves_timers _ _ (with_elems _ s)).
Qed.

Lemma evolves_removal i h s : evolves s (removal i h s).
Proof.
  destruct (heap s !! h) as [o|] eqn:Ho;
    [|rewrite removal_none by done; apply evolves_refl].
  rewrite (removal_eq _ _ _ _ Ho).
  eapply evolves_trans; [by apply (evolves_elems (set_parent None) (el o))|].
  split; simpl; eauto. exists []. by rewrite app_nil_r.
Qed.

Lemma evolves_clear s : evolves s (clear s).
Proof.
  unfold clear. destruct (negb _); [apply evolves_refl|].
  generalize (map_keys (TOASTS s)). intros l. revert s.
  induction l as [|i l IH]; intros s; simpl; [apply evolves_refl|].
  eapply evolves_trans; [apply evolves_dismiss | apply IH].
Qed.

Lemma evolves_fire t s : evolves s (fire t s).
Proof.
  destruct (fire_cases t s) as [->|(tm & Ht & _ & ->)]; [apply evolves_refl|].
  eapply evolves_trans.
  { apply (evolves_timers (delete t (timers s)) (nextTimer s)). }
  simpl. destruct (callback tm) as [h|h|i h].
  - destruct (heap s !! h); [apply evolves_dismiss | apply evolves_refl].
  - destruct (heap s !! h) as [o|]; [|apply evolves_refl].
    destruct (rd (id (opts o))); [apply evolves_dismiss | apply evolves_refl].
  - apply evolves_removal.
Qed.

Lemma evolves_frame s : evolves s (frame s).
Proof.
  split; eauto.
  - exists []. by rewrite app_nil_r.
  - intros e x Hx. destruct (frame_lookup s e) as [b Hb]. rewrite Hx in Hb.
    eexists. split; [exact Hb|]. by destruct b.
Qed.

Lemma evolves_step ev s : evolves s (step ev s).
Proof.
  destruct ev; simpl.
  - apply evolves_notify.
  - apply evolves_notify.
  - apply evolves_dismiss.
  - apply evolves_clear.
  - split; simpl; eauto. exists []. by rewrite app_nil_r.
  - split; simpl; eauto. exists []. by rewrite app_nil_r.
  - split; simpl; eauto. exists []. by rewrite app_nil_r.
  - apply evolves_fire.
  - apply evolves_frame.
  - destruct (mouseenter_cases e s) as [->|(x & hv & o & ? & ? & ? & ? & ->)];
      [apply evolves_refl|].
    eapply evolves_trans;
      [apply (evolves_timers (cancel (timeoutId o) (timers s)) (nextTimer s))|].
    by apply (evolves_elems (set_hover _) e (with_nextTimer _ (with_timers _ s))).
  - destruct (mouseleave_cases e s) as [->|(x & hv & r & ? & ? & ? & ? & ->)];
      [apply evolves_refl|].
    split; simpl; eauto.
    + exists []. by rewrite app_nil_r.
    + intros h o Ho. rewrite list_lookup_alter. case_decide; subst.
      * rewrite Ho. simpl. eauto.
      * eauto.
    + intros e' y Hy. rewrite list_lookup_alter. case_decide; subst.
      * rewrite Hy. simpl. eauto.
      * eauto.
  - unfold clickClose. destruct (elems s !! e) as [x|]; [|apply evolves_refl].
    destruct (closeButton x); [apply evolves_dismiss | apply evolves_refl].
Qed.

Lemma evolves_run tr s : evolves s (run tr s).
Proof.
  revert s. induction tr as [|ev tr IH]; intros s; [apply evolves_refl|].
  eapply evolves_trans; [apply evolves_step | apply IH].
Qed.

(** * The claims *)

(** ** Option resolution *)

Lemma notify_registered a b rnd s s' i :
  notify a b rnd s = (s', Returned (Some i)) →
  let o1 := resolved (globalConfig s) (now s) rnd (optsBase a b) in
  map_get i (TOASTS s') = Some (length (heap s)) ∧
  heap s' !! length (heap s) = Some (new_toast o1 i s) ∧
  rd (id o1) = Some i ∧ i ≠ "".
Proof.
  intros E o1.
  destruct (notify_cases _ _ _ _ _ _ E)
    as [(_ & _ & ?)|[(_ & ? & _)|(i' & c & x & [= <-] & [])]]; [done..|].
  fold o1 in sh_heap0, sh_id0. split; [|split; [|done]].
  - rewrite sh_TOASTS0, map_get_set. by case_decide.
  - rewrite sh_heap0. by apply list_lookup_middle.
Qed.

Lemma resolved_fields g t rnd base :
  let r := resolved g t rnd base in
  title r = title (merged g base) ∧ message r = message (merged g base) ∧
  type r = type (merged g base) ∧ duration r = duration (merged g base) ∧
  closable r = closable (merged g base) ∧
  pauseOnHover r = pauseOnHover (merged g base) ∧
  position r = position (merged g base) ∧
  containerClass r = containerClass (merged g base) ∧
  toastClass r = toastClass (merged g base) ∧
  injectStyles r = injectStyles (merged g base) ∧
  onClose r = onClose (merged g base) ∧ render r = render (merged g base).
Proof. unfold resolved. by destruct (truthy_str _). Qed.

Lemma merged_layered g base :
  rd (id (merged g base)) = layered (id base) (id g) (id DEFAULTS) ∧
  rd (title (merged g base)) = layered (title base) (title g) (title DEFAULTS) ∧
  rd (message (merged g base)) = layered (message base) (message g) (message DEFAULTS) ∧
  rd (type (merged g base)) = layered (type base) (type g) (type DEFAULTS) ∧
  rd (duration (merged g base))
  = layered (duration base) (duration g) (duration DEFAULTS) ∧
  rd (closable (merged g base))
  = layered (closable base) (closable g) (closable DEFAULTS) ∧
  rd (pauseOnHover (merged g base))
  = layered (pauseOnHover base) (pauseOnHover g) (pauseOnHover DEFAULTS) ∧
  rd (position (merged g base))
  = layered (position base) (position g) (position DEFAULTS) ∧
  rd (containerClass (merged g base))
  = layered (containerClass base) (containerClass g) (containerClass DEFAULTS) ∧
  rd (toastClass (merged g base))
  = layered (toastClass base) (toastClass g) (toastClass DEFAULTS) ∧
  rd (injectStyles (merged g base))
  = layered (injectStyles base) (injectStyles g) (injectStyles DEFAULTS) ∧
  rd (onClose (merged g base))
  = layered (onClose base) (onClose g) (onClose DEFAULTS) ∧
  rd (render (merged g base)) = layered (render base) (render g) (render DEFAULTS).
Proof.
  unfold merged, assign.
  cbn [id title message type duration closable pauseOnHover position
       containerClass toastClass injectStyles onClose render empty_opts].
  repeat split; apply rd_merged.
Qed.

Lemma holds_layered {A} (b g d : Slot A) :
  match layered b g d with Some _ => true | None => false end
  = if present b then holds b else if present g then holds g else holds d.
Proof. by destruct b as [|[]], g as [|[]]. Qed.

Lemma holds_true {A} (x : Slot A) : holds x = true ↔ is_Some (rd x).
Proof.
  unfold holds. destruct (rd x) as [v|]; split; intros H; eauto; try done.
Qed.

(** Each field of the resolved record, [id] apart, has a value exactly
    when the topmost layer with its key has one. *)
Lemma resolved_has_value k g t rnd base :
  k ≠ k_id → has_value k (resolved g t rnd base) = top_value k g base.
Proof.
  intros Hk.
  destruct (resolved_fields g t rnd base)
    as (E1 & E2 & E3 & E4 & E5 & E6 & E7 & E8 & E9 & E10 & E11 & E12).
  destruct (merged_layered g base)
    as (_ & L1 & L2 & L3 & L4 & L5 & L6 & L7 & L8 & L9 & L10 & L11 & L12).
  unfold top_value.
  destruct k; [done|..]; cbn [has_value has_key]; unfold holds at 1.
  - rewrite E1, L1. apply holds_layered.
  - rewrite E2, L2. apply holds_layered.
  - rewrite E3, L3. apply holds_layered.
  - rewrite E4, L4. apply holds_layered.
  - rewrite E5, L5. apply holds_layered.
  - rewrite E6, L6. apply holds_layered.
  - rewrite E7, L7. apply holds_layered.
  - rewrite E8, L8. apply holds_layered.
  - rewrite E9, L9. apply holds_layered.
  - rewrite E10, L10. apply holds_layered.
  - rewrite E11, L11. apply holds_layered.
  - rewrite E12, L12. apply holds_layered.
Qed.

Lemma populated_has_value o :
  populated o ↔ ∀ k, has_value k o = true.
Proof.
  unfold populated. rewrite <- !holds_true. split.
  - intros (?&?&?&?&?&?&?&?&?&?&?&?&?) k. by destruct k.
  - intros H.
    pose proof (H k_id). pose proof (H k_title). pose proof (H k_message).
    pose proof (H k_type). pose proof (H k_duration). pose proof (H k_closable).
    pose proof (H k_pauseOnHover). pose proof (H k_position).
    pose proof (H k_containerClass). pose proof (H k_toastClass).
    pose proof (H k_injectStyles). pose proof (H k_onClose). pose proof (H k_render).
    done.
Qed.

(** C3, as stated, fails: a call that passes [duration: undefined] is
    registered with an option record whose [duration] reads [undefined]. *)
Lemma undefined_field_not_populated :
  let call := {| id := Absent; title := Absent; message := Present (Some "saved");
                 type := Absent; duration := Present None; closable := Absent;
                 pauseOnHover := Absent; position := Absent;
                 containerClass := Absent; toastClass := Absent;
                 injectStyles := Absent; onClose := Absent; render := Absent |} in
  let '(s', r) := notify (Opts call) None "k3x9q1" (init true 0) in
  r = Returned (Some "t_0_k3x9q1") ∧
  map_get "t_0_k3x9q1" (TOASTS s') = Some O ∧
  ∃ o, heap s' !! O = Some o ∧ rd (duration (opts o)) = None ∧ ¬ populated (opts o).
Proof.
  vm_compute. split; [done|]. split; [done|]. eexists. split; [done|].
  split; [done|]. intros (_ & _ & _ & _ & [? [=]] & _).
Qed.

(** C3, amended: the record [notify] registers always has a non-empty
    [id], and each other field has a value exactly when the topmost layer
    that has its key (the call's record, else the configuration, else the
    built-in defaults) holds a value other than [undefined]. So every
    field is populated if and only if no key other than [id] is left
    [undefined] by its topmost layer ([render] counts as populated with
    [null]); a key other than [id] that the call sets to [undefined]
    leaves that field [undefined], whatever the lower layers hold. *)
Theorem resolved_populated a b rnd s s' i :
  notify a b rnd s = (s', Returned (Some i)) →
  ∃ h o, map_get i (TOASTS s') = Some h ∧ heap s' !! h = Some o ∧
         rd (id (opts o)) = Some i ∧ i ≠ "" ∧
         (∀ k, k ≠ k_id →
               has_value k (opts o) = top_value k (globalConfig s) (optsBase a b)) ∧
         (populated (opts o) ↔
          ∀ k, k ≠ k_id → top_value k (globalConfig s) (optsBase a b) = true) ∧
         (∀ k, k ≠ k_id → has_key k (optsBase a b) = true →
               has_value k (optsBase a b) = false → has_value k (opts o) = false).
Proof.
  intros E.
  destruct (notify_registered _ _ _ _ _ _ E) as (Hget & Hheap & Hid & Hne).
  eexists _, _. split; [exact Hget|]. split; [exact Hheap|].
  unfold new_toast. cbn [opts].
  split; [done|]. split; [done|].
  split; [intros k Hk; by apply resolved_has_value|].
  split.
  - rewrite populated_has_value. split.
    + intros H k Hk. rewrite <- (resolved_has_value k _ (now s) rnd) by done. apply H.
    + intros H k.
      assert (k = k_id ∨ k ≠ k_id) as [->|Hk] by (destruct k; (by left) || (by right)).
      * cbn [has_value]. unfold holds. by rewrite Hid.
      * rewrite resolved_has_value by done. by apply H.
  - intros k Hk Hkey Hval. rewrite resolved_has_value by done.
    unfold top_value. by rewrite Hkey.
Qed.

Lemma resolved_populated_witness :
  let call := {| id := Present None; title := Absent; message := Absent;
                 type := Absent; duration := Present (Some 1000); closable := Absent;
                 pauseOnHover := Absent; position := Absent;
                 containerClass := Absent; toastClass := Absent;
                 injectStyles := Absent; onClose := Absent; render := Absent |} in
  let s := init true 0 in
  let s' := (notify (Opts call) None "k3x9q1" s).1 in
  notify (Opts call) None "k3x9q1" s = (s', Returned (Some "t_0_k3x9q1")) ∧
  ∃ h o, map_get "t_0_k3x9q1" (TOASTS s') = Some h ∧ heap s' !! h = Some o ∧
         populated (opts o).
Proof.
  intros call s s'.
  assert (notify (Opts call) None "k3x9q1" s = (s', Returned (Some "t_0_k3x9q1")))
    as E by (vm_compute; reflexivity).
  split; [exact E|].
  destruct (resolved_populated _ _ _ _ _ _ E)
    as (h & o & Hg & Ho & _ & _ & _ & Hiff & _).
  exists h, o. split; [exact Hg|]. split; [exact Ho|].
  apply Hiff. intros k Hk. destruct k; [done|..]; vm_compute; reflexivity.
Defined.

(** C9, as stated, fails for the [id] field: a call that supplies no
    identifier is registered under a generated one, not under the built-in
    default (the empty string). *)
Lemma generated_id_not_layered :
  let s := init true 0 in
  let '(s', r) := notify (Msg "saved") None "k3x9q1" s in
  r = Returned (Some "t_0_k3x9q1") ∧
  layered (id (optsBase (Msg "saved") None)) (id (globalConfig s)) (id DEFAULTS)
  = Some "" ∧
  ∃ o, heap s' !! O = Some o ∧ map_get "t_0_k3x9q1" (TOASTS s') = Some O ∧
       rd (id (opts o)) = Some "t_0_k3x9q1" ∧
       rd (id (opts o))
       ≠ layered (id (optsBase (Msg "saved") None)) (id (globalConfig s)) (id DEFAULTS).
Proof.
  vm_compute. split; [done|]. split; [done|]. eexists. by repeat split.
Qed.

(** C9, amended: every field of the record [notify] registers other than
    [id] is the call's value when the call has the key (even with the value
    [undefined]), else the configured value when the configuration has the
    key, else the built-in default; [id] follows the same rule when that
    gives a non-empty string and is a generated identifier otherwise.
    [configure] overwrites the configured keys it is given, keeps the
    others, and changes nothing else of the state: toasts already shown
    keep their options, and a later [notify] reads the new configuration. *)
Theorem resolved_layers a b rnd s s' i options :
  notify a b rnd s = (s', Returned (Some i)) →
  let base := optsBase a b in
  let g := globalConfig s in
  (∃ h o, map_get i (TOASTS s') = Some h ∧ heap s' !! h = Some o ∧
     rd (title (opts o)) = layered (title base) (title g) (title DEFAULTS) ∧
     rd (message (opts o)) = layered (message base) (message g) (message DEFAULTS) ∧
     rd (type (opts o)) = layered (type base) (type g) (type DEFAULTS) ∧
     rd (duration (opts o)) = layered (duration base) (duration g) (duration DEFAULTS) ∧
     rd (closable (opts o)) = layered (closable base) (closable g) (closable DEFAULTS) ∧
     rd (pauseOnHover (opts o))
     = layered (pauseOnHover base) (pauseOnHover g) (pauseOnHover DEFAULTS) ∧
     rd (position (opts o)) = layered (position base) (position g) (position DEFAULTS) ∧
     rd (containerClass (opts o))
     = layered (containerClass base) (containerClass g) (containerClass DEFAULTS) ∧
     rd (toastClass (opts o))
     = layered (toastClass base) (toastClass g) (toastClass DEFAULTS) ∧
     rd (injectStyles (opts o))
     = layered (injectStyles base) (injectStyles g) (injectStyles DEFAULTS) ∧
     rd (onClose (opts o)) = layered (onClose base) (onClose g) (onClose DEFAULTS) ∧
     rd (render (opts o)) = layered (render base) (render g) (render DEFAULTS) ∧
     rd (id (opts o)) = Some i ∧
     i = (if truthy_str (layered (id base) (id g) (id DEFAULTS))
          then default "" (layered (id base) (id g) (id DEFAULTS))
          else makeId (now s) rnd)) ∧
  globalConfig (configure options s') = assign (globalConfig s') options ∧
  configure options s' = with_globalConfig (assign (globalConfig s') options) s' ∧
  heap (configure options s') = heap s' ∧
  TOASTS (configure options s') = TOASTS s' ∧
  elems (configure options s') = elems s' ∧
  timers (configure options s') = timers s'.
Proof.
  intros E base g. subst base g. split.
  - destruct (notify_registered _ _ _ _ _ _ E) as (Hget & Hheap & Hid & _).
    eexists _, _. split; [exact Hget|]. split; [exact Hheap|].
    unfold new_toast. cbn [opts].
    destruct (resolved_fields (globalConfig s) (now s) rnd (optsBase a b))
      as (E1 & E2 & E3 & E4 & E5 & E6 & E7 & E8 & E9 & E10 & E11 & E12).
    destruct (merged_layered (globalConfig s) (optsBase a b))
      as (L0 & L1 & L2 & L3 & L4 & L5 & L6 & L7 & L8 & L9 & L10 & L11 & L12).
    rewrite E1, E2, E3, E4, E5, E6, E7, E8, E9, E10, E11, E12.
    repeat (split; [done|]).
    rewrite resolved_id, L0 in Hid.
    destruct (truthy_str _); [rewrite Hid|]; by simplify_eq.
  - unfold configure. rewrite assign_empty_l. by repeat split.
Qed.

Lemma resolved_layers_witness :
  let s := init true 0 in
  let s' := (notify (Msg "saved") None "k3x9q1" s).1 in
  notify (Msg "saved") None "k3x9q1" s = (s', Returned (Some "t_0_k3x9q1")) ∧
  globalConfig (configure DEFAULTS s') = assign (globalConfig s') DEFAULTS.
Proof.
  intros s s'.
  assert (notify (Msg "saved") None "k3x9q1" s = (s', Returned (Some "t_0_k3x9q1")))
    as E by (vm_compute; reflexivity).
  split; [exact E|].
  exact (proj1 (proj2 (resolved_layers _ _ _ _ _ _ DEFAULTS E))).
Defined.

(** C10: with a bare message string and a secondary record, the registered
    [message] is the secondary record's whenever that record has the key
    [message], and the string otherwise. *)
Theorem secondary_message_overrides m maybeOpts rnd s s' i :
  notify (Msg m) maybeOpts rnd s = (s', Returned (Some i)) →
  ∃ h o, map_get i (TOASTS s') = Some h ∧ heap s' !! h = Some o ∧
         rd (message (opts o))
         = match maybeOpts with
           | Some o2 => match message o2 with Present v => v | Absent => Some m end
           | None => Some m
           end.
Proof.
  intros E.
  destruct (notify_registered _ _ _ _ _ _ E) as (Hget & Hheap & _).
  eexists _, _. split; [exact Hget|]. split; [exact Hheap|]. unfold new_toast. cbn [opts].
  destruct (resolved_fields (globalConfig s) (now s) rnd (optsBase (Msg m) maybeOpts))
    as (_ & -> & _).
  destruct (merged_layered (globalConfig s) (optsBase (Msg m) maybeOpts))
    as (_ & _ & -> & _).
  destruct maybeOpts as [o2|]; simpl; [|done]. by destruct (message o2).
Qed.

Lemma secondary_message_overrides_witness :
  let s := init true 0 in
  let o2 := with_message (Present (Some "from options")) empty_opts in
  let s' := (notify (Msg "bare") (Some o2) "k3x9q1" s).1 in
  notify (Msg "bare") (Some o2) "k3x9q1" s = (s', Returned (Some "t_0_k3x9q1")) ∧
  ∃ h o, map_get "t_0_k3x9q1" (TOASTS s') = Some h ∧ heap s' !! h = Some o ∧
         rd (message (opts o)) = Some "from options".
Proof.
  intros s o2 s'.
  assert (notify (Msg "bare") (Some o2) "k3x9q1" s = (s', Returned (Some "t_0_k3x9q1")))
    as E by (vm_compute; reflexivity).
  split; [exact E|].
  exact (secondary_message_overrides _ _ _ _ _ _ E).
Defined.

(** ** Registration and containers *)

Lemma browser_run tr s : browser (run tr s) = browser s.
Proof. apply (ev_browser _ _ (evolves_run tr s)). Qed.

(** C7: in a browser, for every option record whose renderer (if any)
    returns, [notify] returns a non-empty identifier, and right after the
    call the registry holds exactly one entry under it, which is the new
    toast. *)
Theorem notify_registers_one t0 tr a b rnd :
  let s := run tr (init true t0) in
  let o1 := resolved (globalConfig s) (now s) rnd (optsBase a b) in
  renderer_returns (default "" (rd (id o1))) o1 →
  ∃ s' i, notify a b rnd s = (s', Returned (Some i)) ∧ i ≠ "" ∧
          count_key i (TOASTS s') = 1%nat ∧
          ∃ h o, map_get i (TOASTS s') = Some h ∧ heap s' !! h = Some o ∧
                 toast_id o = i ∧ h = length (heap s).
Proof.
  intros s o1 [e0 He0].
  assert (browser s = true) as Hb by apply browser_run.
  pose proof (Inv_run true t0 tr) as HI. fold s in HI.
  destruct (notify a b rnd s) as [s' r] eqn:E.
  destruct (notify_cases _ _ _ _ _ _ E)
    as [(? & _)|[(_ & _ & _ & Hnone)|(i & c & x & -> & Hs)]].
  - congruence.
  - fold o1 in Hnone. congruence.
  - exists s', i. split; [done|].
    destruct (notify_registered _ _ _ _ _ _ E) as (Hget & Hheap & _ & Hne).
    split; [done|]. split.
    + rewrite (sh_TOASTS _ _ _ _ _ _ Hs), count_key_set.
      pose proof (inv_keys _ HI i). case_decide; [lia | done].
    + eexists _, _. by repeat split.
Qed.

Lemma notify_registers_one_witness :
  let s := run [] (init true 0) in
  let o1 := resolved (globalConfig s) (now s) "k3x9q1" (optsBase (Msg "saved") None) in
  renderer_returns (default "" (rd (id o1))) o1 ∧
  ∃ s' i, notify (Msg "saved") None "k3x9q1" s = (s', Returned (Some i)) ∧ i ≠ "" ∧
          count_key i (TOASTS s') = 1%nat ∧
          ∃ h o, map_get i (TOASTS s') = Some h ∧ heap s' !! h = Some o ∧
                 toast_id o = i ∧ h = length (heap s).
Proof.
  intros s o1.
  assert (renderer_returns (default "" (rd (id o1))) o1) as Hr by (vm_compute; eauto).
  split; [exact Hr|].
  exact (notify_registers_one 0 [] (Msg "saved") None "k3x9q1" Hr).
Defined.



(** * Further properties *)

(** ** Elements that stay or leave *)

Lemma detaching_refl es : detaching es es.
Proof. intros e x Hx. eauto. Qed.

Lemma detaching_eq es es' : es' = es → detaching es es'.
Proof. intros ->. apply detaching_refl. Qed.

Lemma detaching_trans es1 es2 es3 :
  detaching es1 es2 → detaching es2 es3 → detaching es1 es3.
Proof.
  intros H1 H2 e x3 Hx3.
  destruct (H2 _ _ Hx3) as (x2 & Hx2 & Ht2 & Hp2).
  destruct (H1 _ _ Hx2) as (x1 & Hx1 & Ht1 & Hp1).
  exists x1. split; [done|]. split; [congruence|auto].
Qed.

Lemma detaching_alter (f : ToastEl → ToastEl) e es :
  (∀ x, data_tid (f x) = data_tid x ∧ (is_Some (parent (f x)) → is_Some (parent x))) →
  detaching es (alter f e es).
Proof.
  intros Hf e' x'. rewrite list_lookup_alter. case_decide; subst.
  - intros (x & Hx & ->)%fmap_Some. exists x. split; [done|]. apply Hf.
  - eauto.
Qed.

Lemma detaching_dismiss i s : detaching (elems s) (elems (dismiss i s)).
Proof.
  destruct (dismiss_cases i s) as [->|(h & o & _ & _ & _ & ->)];
    [apply detaching_refl|].
  simpl. by apply detaching_alter.
Qed.

Lemma detaching_removal i h s : detaching (elems s) (elems (removal i h s)).
Proof.
  destruct (heap s !! h) as [o|] eqn:Ho;
    [|rewrite removal_none by done; apply detaching_refl].
  rewrite (removal_eq _ _ _ _ Ho). simpl.
  apply detaching_alter. intros x. split; [done|]. by intros [? [=]].
Qed.

Lemma detaching_clear s : detaching (elems s) (elems (clear s)).
Proof.
  unfold clear. destruct (negb _); [apply detaching_refl|].
  generalize (map_keys (TOASTS s)). intros l. revert s.
  induction l as [|i l IH]; intros s; simpl; [apply detaching_refl|].
  eapply detaching_trans; [apply detaching_dismiss | apply IH].
Qed.

Lemma detaching_fire t s : detaching (elems s) (elems (fire t s)).
Proof.
  destruct (fire_cases t s) as [->|(tm & Ht & _ & ->)]; [apply detaching_refl|].
  simpl. destruct (callback tm) as [h|h|i h].
  - destruct (heap s !! h); [|apply detaching_refl].
    apply (detaching_dismiss _ (with_timers (delete t (timers s)) s)).
  - destruct (heap s !! h) as [o|]; [|apply detaching_refl].
    destruct (rd (id (opts o))); [|apply detaching_refl].
    apply (detaching_dismiss _ (with_timers (delete t (timers s)) s)).
  - apply (detaching_removal _ _ (with_timers (delete t (timers s)) s)).
Qed.

(** Only a [notify] that returns an identifier adds an element, which
    carries that identifier; every other step leaves the elements in place
    or detaches some. *)
Lemma elems_step ev s :
  (returned_id s ev = None ∧ detaching (elems s) (elems (step ev s))) ∨
  (∃ i x, returned_id s ev = Some i ∧ elems (step ev s) = elems s ++ [x] ∧
          data_tid x = i).
Proof.
  assert (∀ a b rnd,
    (match (notify a b rnd s).2 with Returned r => r | Threw => None end = None ∧
     detaching (elems s) (elems (notify a b rnd s).1)) ∨
    (∃ i x, match (notify a b rnd s).2 with Returned r => r | Threw => None end = Some i ∧
            elems (notify a b rnd s).1 = elems s ++ [x] ∧ data_tid x = i)) as Hnotify.
  { intros a b rnd. destruct (notify a b rnd s) as [s' r] eqn:E. simpl.
    destruct (notify_cases _ _ _ _ _ _ E)
      as [(_ & -> & ->)|[(_ & -> & Hp & _)|(i & c & x & -> & Hs)]].
    - left. split; [done|apply detaching_refl].
    - left. split; [done|apply detaching_eq, Hp].
    - right. exists i, x. split; [done|]. split; [apply Hs|apply Hs]. }
  destruct ev; simpl; try (left; split; [done|]).
  - apply Hnotify.
  - unfold notify_as. apply Hnotify.
  - apply detaching_dismiss.
  - apply detaching_clear.
  - apply detaching_refl.
  - apply detaching_refl.
  - apply detaching_refl.
  - apply detaching_fire.
  - intros e x' Hx'. destruct (frame_lookup s e) as [b Hb].
    change (elems (frame s) !! e = Some x') in Hx'. rewrite Hb in Hx'.
    apply fmap_Some in Hx' as (x & Hx & ->).
    exists x. split; [done|]. by destruct b.
  - destruct (mouseenter_cases e s) as [->|(x & hv & o & _ & _ & _ & _ & ->)];
      [apply detaching_refl|].
    simpl. by apply detaching_alter.
  - destruct (mouseleave_cases e s) as [->|(x & hv & r & _ & _ & _ & _ & ->)];
      [apply detaching_refl|].
    simpl. by apply detaching_alter.
  - unfold clickClose. destruct (elems s !! e) as [x|]; [|apply detaching_refl].
    destruct (closeButton x); [apply detaching_dismiss | apply detaching_refl].
Qed.

(** ** The registry and the page *)

Lemma elem_of_attached_from i n es e :
  e ∈ attached_from i n es ↔
  ∃ x, (n ≤ e)%nat ∧ es !! (e - n)%nat = Some x ∧ carries i x = true.
Proof.
  revert n. induction es as [|y es IH]; intros n; simpl.
  - split; [by intros ?%elem_of_nil | by intros (? & _ & ? & _)].
  - rewrite elem_of_app, IH. split.
    + intros [He|(x & Hle & Hx & Hc)].
      * destruct (carries i y) eqn:Hy; [|by apply elem_of_nil in He].
        apply list_elem_of_singleton in He as ->. exists y.
        rewrite Nat.sub_diag. by repeat split.
      * exists x. split; [lia|]. split; [|done].
        replace (e - n)%nat with (S (e - S n)) by lia. done.
    + intros (x & Hle & Hx & Hc). destruct (decide (e = n)) as [->|Hne].
      * left. rewrite Nat.sub_diag in Hx. simplify_eq/=. rewrite Hc.
        by apply list_elem_of_singleton.
      * right. exists x. split; [lia|]. split; [|done].
        replace (e - n)%nat with (S (e - S n)) in Hx by lia. done.
Qed.

Lemma NoDup_attached_from i n es : NoDup (attached_from i n es).
Proof.
  revert n. induction es as [|y es IH]; intros n; simpl; [apply NoDup_nil_2|].
  apply NoDup_app. split; [|split; [|apply IH]].
  - destruct (carries i y); [apply NoDup_singleton | apply NoDup_nil_2].
  - intros e He. destruct (carries i y); [|by apply elem_of_nil in He].
    apply list_elem_of_singleton in He as ->.
    rewrite elem_of_attached_from. intros (? & ? & _). lia.
Qed.

Lemma elem_of_attached_with i s e :
  e ∈ attached_with i s ↔
  ∃ x, elems s !! e = Some x ∧ data_tid x = i ∧ is_Some (parent x).
Proof.
  unfold attached_with. rewrite elem_of_attached_from. unfold carries.
  split.
  - intros (x & _ & Hx & Hc). rewrite Nat.sub_0_r in Hx.
    apply andb_prop in Hc as [?%bool_decide_eq_true ?%bool_decide_eq_true]. eauto.
  - intros (x & Hx & Hi & Hp). exists x. rewrite Nat.sub_0_r.
    split; [lia|]. split; [done|].
    apply andb_true_intro. split; by apply bool_decide_eq_true.
Qed.

Lemma NoDup_only {A} (l : list A) (a : A) :
  NoDup l → (∀ x, x ∈ l ↔ x = a) → l = [a].
Proof.
  intros Hnd Hl. destruct l as [|y l].
  { assert (a ∈ @nil A) as H by by apply Hl. by apply elem_of_nil in H. }
  assert (y = a) as -> by (apply Hl; left).
  f_equal. destruct l as [|z l]; [done|].
  apply NoDup_cons in Hnd as [Hn _]. exfalso. apply Hn.
  assert (z = a) as -> by (apply Hl; right; left). left.
Qed.

(** In every reachable state, a registered identifier names one object of
    the heap, which carries that identifier; the element of that object
    carries it too and is attached to a container that is part of the
    page. *)
Lemma registry_attached b t0 tr i h :
  let s := run tr (init b t0) in
  map_get i (TOASTS s) = Some h →
  ∃ o x c div,
    heap s !! h = Some o ∧ toast_id o = i ∧ el o = h ∧
    elems s !! h = Some x ∧ data_tid x = i ∧ parent x = Some c ∧
    body s !! c = Some div.
Proof.
  intros s Hget. pose proof (Inv_run b t0 tr) as HI. fold s in HI.
  destruct (inv_reg _ HI _ _ Hget) as (o & x & Ho & Hi & Hx & [c Hc]).
  destruct (inv_heap _ HI _ _ Ho) as (Hel & _).
  destruct (inv_elems _ HI _ _ Hx) as ((o' & Ho' & Htid) & _ & Hpar).
  destruct (lookup_lt_is_Some_2 (body s) c (Hpar _ Hc)) as [div Hdiv].
  exists o, x, c, div. repeat split; try done. congruence.
Qed.

Lemma one_each_step i ev s :
  (returned_id s ev = Some i → attached_with i s = []) →
  one_each i (elems s) → one_each i (elems (step ev s)).
Proof.
  intros Hfree H1.
  destruct (elems_step ev s) as [(Hid & Hd)|(j & x & Hid & -> & Hj)].
  - intros e e' y y' Hy Hy' Hp Hp' Ht Ht'.
    destruct (Hd _ _ Hy) as (z & Hz & Htz & Hpz).
    destruct (Hd _ _ Hy') as (z' & Hz' & Htz' & Hpz').
    apply (H1 e e' z z'); auto; congruence.
  - assert (j = i → ∀ e y, elems s !! e = Some y → is_Some (parent y) →
                           data_tid y ≠ i) as Hnone.
    { intros -> e y Hy Hp Ht. specialize (Hfree Hid).
      assert (e ∈ attached_with i s) as Hin
        by (apply elem_of_attached_with; eauto).
      rewrite Hfree in Hin. by apply elem_of_nil in Hin. }
    intros e e' y y'.
    intros [[_ Hy]|[-> <-]]%lookup_snoc_Some [[_ Hy']|[-> <-]]%lookup_snoc_Some
      Hp Hp' Ht Ht'.
    + by apply (H1 e e' y y').
    + exfalso. apply (Hnone ltac:(congruence) e y Hy Hp Ht).
    + exfalso. apply (Hnone ltac:(congruence) e' y' Hy' Hp' Ht').
    + done.
Qed.

Lemma one_each_run i tr s :
  reuse_free i s tr = true → one_each i (elems s) → one_each i (elems (run tr s)).
Proof.
  revert s. induction tr as [|ev tr IH]; intros s Hf H1; [done|].
  simpl in Hf. apply andb_prop in Hf as [Hev Hf].
  apply IH; [done|]. apply one_each_step; [|done].
  intros Hid. rewrite decide_True in Hev by done. by apply bool_decide_eq_true in Hev.
Qed.

(** When no [notify] of the run returns the identifier while an attached
    element carries it, the element of a registered identifier is the only
    attached element that carries it. *)
Lemma registry_one_element b t0 tr i h :
  let s := run tr (init b t0) in
  reuse_free i (init b t0) tr = true →
  map_get i (TOASTS s) = Some h →
  attached_with i s = [h].
Proof.
  intros s Hf Hget. pose proof (Inv_run b t0 tr) as HI. fold s in HI.
  assert (one_each i (elems s)) as H1.
  { apply one_each_run; [done|]. intros e e' x x' Hx. simpl in Hx.
    by rewrite lookup_nil in Hx. }
  destruct (inv_reg _ HI _ _ Hget) as (o & x & Ho & Hi & Hx & Hp).
  destruct (inv_elems _ HI _ _ Hx) as ((o' & Ho' & Htid) & _).
  assert (data_tid x = i) as Hxi by congruence.
  apply NoDup_only; [apply NoDup_attached_from|].
  intros e. rewrite elem_of_attached_with. split.
  - intros (y & Hy & Hyi & Hpy). by apply (H1 e h y x).
  - intros ->. eauto.
Qed.

(** C2, as stated, fails: showing two toasts under one explicit identifier
    leaves two attached elements that carry it, for one registry entry. *)
Lemma reused_id_two_elements :
  let call := with_id (Present (Some "a")) empty_opts in
  let s := run [ENotify (Opts call) None "k3x9q1"; ENotify (Opts call) None "p0w2zz"]
               (init true 0) in
  map_get "a" (TOASTS s) = Some 1%nat ∧ attached_with "a" s = [O; 1%nat].
Proof. by vm_compute. Qed.

(** C2, amended: after every sequence of operations and callbacks, each
    identifier in the registry names one toast whose element carries the
    identifier and is attached to a container of the page; when no [notify]
    of the run returned that identifier while an element carrying it was
    still attached, that element is the only attached element carrying
    it. *)
Theorem registry_elements b t0 tr i h :
  let s := run tr (init b t0) in
  map_get i (TOASTS s) = Some h →
  (∃ o x c div,
     heap s !! h = Some o ∧ toast_id o = i ∧ el o = h ∧
     elems s !! h = Some x ∧ data_tid x = i ∧ parent x = Some c ∧
     body s !! c = Some div) ∧
  (reuse_free i (init b t0) tr = true → attached_with i s = [h]).
Proof.
  intros s Hget. split.
  - by apply registry_attached.
  - intros Hf. by apply registry_one_element.
Qed.

Lemma registry_elements_witness :
  let call := with_id (Present (Some "a")) empty_opts in
  let other := with_id (Present (Some "b")) empty_opts in
  let tr := [ENotify (Opts call) None "k3x9q1"; EDismiss "a"; ETick 220; EFire 2%nat;
             ENotify (Opts other) None "k3x9q1"; ENotify (Opts other) None "k3x9q1";
             ENotify (Opts call) None "p0w2zz"] in
  let s := run tr (init true 0) in
  map_get "a" (TOASTS s) = Some 3%nat ∧
  reuse_free "a" (init true 0) tr = true ∧
  attached_with "a" s = [3%nat].
Proof.
  intros call other tr s.
  assert (reuse_free "a" (init true 0) tr = true) as Hf by (vm_compute; reflexivity).
  assert (map_get "a" (TOASTS s) = Some 3%nat) as H by (vm_compute; reflexivity).
  split; [exact H|]. split; [exact Hf|].
  exact (proj2 (registry_elements true 0 tr _ _ H) Hf).
Defined.

(** ** Sticky toasts *)

Lemma sticky_mono h s s' :
  sticky h s →
  heap s' !! h = heap s !! h →
  (∀ e x' hv', elems s' !! e = Some x' → hover x' = Some hv' → internal hv' = h →
     ∃ x hv, elems s !! e = Some x ∧ hover x = Some hv ∧ internal hv = h ∧
             remaining hv' = remaining hv) →
  (∀ t tm, timers s' !! t = Some tm →
     timers s !! t = Some tm ∨
     (callback tm ≠ AutoDismiss h ∧ callback tm ≠ HoverResume h)) →
  sticky h s'.
Proof.
  intros (Ho & Hh & Ht) Eh Helems Htimers. split; [|split].
  - by rewrite Eh.
  - intros e x' hv' Hx' Hhv' Hint.
    destruct (Helems _ _ _ Hx' Hhv' Hint) as (x & hv & Hx & Hhv & Hi & ->). eauto.
  - intros t tm Htm. destruct (Htimers _ _ Htm) as [H|H]; eauto.
Qed.

Lemma alter_hover_keeps (f : ToastEl → ToastEl) (e : nat) (es : list ToastEl) e' x' hv' :
  (∀ x, hover (f x) = hover x) →
  alter f e es !! e' = Some x' → hover x' = Some hv' →
  ∃ x, es !! e' = Some x ∧ hover x = Some hv'.
Proof.
  intros Hf Hx' Hhv'. rewrite list_lookup_alter in Hx'. case_decide; subst.
  - apply fmap_Some in Hx' as (x & Hx & ->). exists x. by rewrite <- Hf.
  - eauto.
Qed.

Lemma sticky_dismiss h i s : sticky h s → sticky h (dismiss i s).
Proof.
  intros Hs. destruct (dismiss_cases i s) as [->|(h' & o & _ & _ & _ & ->)]; [done|].
  apply (sticky_mono h s); [done|done|..]; simpl.
  - intros e x' hv' Hx' Hhv' Hint.
    destruct (alter_hover_keeps (set_hide true) _ _ _ _ _ (fun _ => eq_refl) Hx' Hhv') as (x & ? & ?).
    by exists x, hv'.
  - intros t tm. rewrite lookup_insert. case_decide.
    + intros [= <-]. by right.
    + intros ?%cancel_lookup. by left.
Qed.

Lemma sticky_removal h i h' s : sticky h s → sticky h (removal i h' s).
Proof.
  intros Hs. destruct (heap s !! h') as [o|] eqn:Ho; [|by rewrite removal_none].
  rewrite (removal_eq _ _ _ _ Ho).
  apply (sticky_mono h s); [done|done|..]; simpl; [|by left].
  intros e x' hv' Hx' Hhv' Hint.
  destruct (alter_hover_keeps (set_parent None) _ _ _ _ _ (fun _ => eq_refl) Hx' Hhv') as (x & ? & ?).
  by exists x, hv'.
Qed.

Lemma sticky_cancelled h m s :
  sticky h s → (∀ t tm, m !! t = Some tm → timers s !! t = Some tm) →
  sticky h (with_timers m s).
Proof.
  intros Hs Hm. apply (sticky_mono h s); [done|done|..]; simpl; eauto 10.
Qed.

Lemma sticky_clear h s : sticky h s → sticky h (clear s).
Proof.
  unfold clear. destruct (negb _); [done|].
  generalize (map_keys (TOASTS s)). intros l. revert s.
  induction l as [|i l IH]; intros s Hs; simpl; [done|].
  by apply IH, sticky_dismiss.
Qed.

Lemma sticky_fire h t s : sticky h s → sticky h (fire t s).
Proof.
  intros Hs. destruct (fire_cases t s) as [->|(tm & Ht & _ & ->)]; [done|].
  assert (sticky h (with_timers (delete t (timers s)) s)) as Hs'.
  { apply sticky_cancelled; [done|]. intros t' tm'. rewrite lookup_delete.
    by case_decide. }
  simpl. destruct (callback tm) as [h'|h'|i h'].
  - destruct (heap s !! h'); [by apply sticky_dismiss | done].
  - destruct (heap s !! h') as [o|]; [|done].
    destruct (rd (id (opts o))); [by apply sticky_dismiss | done].
  - by apply sticky_removal.
Qed.

Lemma sticky_notify h a b rnd s : sticky h s → sticky h (notify a b rnd s).1.
Proof.
  intros Hs. destruct (notify a b rnd s) as [s' r] eqn:E. simpl.
  destruct (notify_cases _ _ _ _ _ _ E)
    as [(_ & -> & _)|[(_ & _ & [] & _)|(i' & c & x & _ & [])]]; [done|..].
  - apply (sticky_mono h s); [done|congruence|..].
    + rewrite pe_elems0. intros e x' hv' ? ? ?. by exists x', hv'.
    + rewrite pe_timers0. by left.
  - pose proof Hs as Hs0. destruct Hs as ((o & Ho & Hd & Hto) & Hh & Ht).
    assert (h < length (heap s))%nat as Hlt by by apply lookup_lt_Some in Ho.
    apply (sticky_mono h s); [exact Hs0|..].
    + rewrite sh_heap0. by apply lookup_app_l.
    + rewrite sh_elems0. intros e x' hv' [[_ Hx']|[-> <-]]%lookup_snoc_Some Hhv' Hint.
      * by exists x', hv'.
      * rewrite sh_hover0 in Hhv'. destruct (truthy_bool _); [|done].
        simplify_eq/=. lia.
    + rewrite sh_timers0.
      destruct (rd (duration (resolved (globalConfig s) (now s) rnd (optsBase a b))))
        as [[| |]|]; intros t tm Htm; [by left|..];
        rewrite lookup_insert in Htm; case_decide; simplify_eq; auto;
        right; unfold auto_timer; simpl; split; intros [= ?]; lia.
Qed.

Lemma sticky_step h ev s : sticky h s → sticky h (step ev s).
Proof.
  intros Hs. destruct ev; simpl.
  - by apply sticky_notify.
  - by apply sticky_notify.
  - by apply sticky_dismiss.
  - by apply sticky_clear.
  - done.
  - done.
  - destruct Hs as (Ho & Hh & Ht). split; [done|split; [done|]]. simpl.
    intros t tm (tm0 & Htm0 & -> & _)%lookup_set_due. eauto.
  - by apply sticky_fire.
  - apply (sticky_mono h s); [done|done|..]; [|by left].
    intros e x' hv' Hx' Hhv' Hint. destruct (frame_lookup s e) as [b Hb].
    rewrite Hb in Hx'. apply fmap_Some in Hx' as (x & Hx & ->).
    exists x, hv'. by destruct b.
  - destruct (mouseenter_cases e s) as [->|(x & hv & o & Hx & Hhv & Ho & Htr & ->)];
      [done|].
    pose proof Hs as Hs0. destruct Hs as ((o' & Ho' & Hd & Hto) & Hh & Ht).
    assert (internal hv ≠ h) as Hne.
    { intros Hi. rewrite Hi in Ho. simplify_eq. by rewrite Hto in Htr. }
    apply (sticky_mono h s); [exact Hs0|done|..]; simpl.
    + intros e' x' hv' Hx' Hhv' Hint. rewrite list_lookup_alter in Hx'.
      case_decide; subst.
      * apply fmap_Some in Hx' as (y & Hy & ->). simpl in Hhv'. by simplify_eq.
      * by exists x', hv'.
    + intros t tm ?%cancel_lookup. by left.
  - destruct (mouseleave_cases e s) as [->|(x & hv & r & Hx & Hhv & Hr & Hpos & ->)];
      [done|].
    pose proof Hs as Hs0. destruct Hs as ((o' & Ho' & Hd & Hto) & Hh & Ht).
    assert (internal hv ≠ h) as Hne.
    { intros Hi. pose proof (Hh _ _ _ Hx Hhv Hi) as Hz. rewrite Hr in Hz.
      simplify_eq. lia. }
    apply (sticky_mono h s); [exact Hs0|..]; simpl.
    + by rewrite list_lookup_alter_ne.
    + intros e' x' hv' Hx' Hhv' Hint. rewrite list_lookup_alter in Hx'.
      case_decide; subst.
      * apply fmap_Some in Hx' as (y & Hy & ->). simpl in Hhv'. by simplify_eq.
      * by exists x', hv'.
    + intros t tm. rewrite lookup_insert. case_decide.
      * intros [= <-]. right. simpl. split; congruence.
      * by left.
  - unfold clickClose. destruct (elems s !! e) as [x|]; [|done].
    destruct (closeButton x); [by apply sticky_dismiss | done].
Qed.

Lemma sticky_run h tr s : sticky h s → sticky h (run tr s).
Proof.
  revert s. induction tr as [|ev tr IH]; intros s Hs; [done|].
  apply IH, sticky_step, Hs.
Qed.

(** A toast shown with duration 0 starts sticky. *)
Lemma sticky_shown o1 i c x s s' :
  Inv s → shown o1 i c x s s' → rd (duration o1) = Some 0 →
  sticky (length (heap s)) s'.
Proof.
  intros HI [] Hd. split; [|split].
  - exists (new_toast o1 i s). rewrite sh_heap0.
    split; [by apply list_lookup_middle|]. unfold new_toast. simpl. by rewrite Hd.
  - rewrite sh_elems0. intros e y hv [[_ Hy]|[-> <-]]%lookup_snoc_Some Hhv Hint.
    + destruct (inv_elems _ HI _ _ Hy) as (_ & Hi & _).
      apply Hi in Hhv. apply lookup_lt_Some in Hy.
      rewrite <- (inv_len _ HI) in Hy. lia.
    + rewrite sh_hover0 in Hhv. destruct (truthy_bool _); [|done].
      by simplify_eq/=.
  - rewrite sh_timers0, Hd. intros t tm Htm.
    destruct (inv_timers _ HI _ _ Htm) as [_ Hcb].
    split; intros Hc; rewrite Hc in Hcb; simpl in Hcb; lia.
Qed.

Lemma kept_mono i h s s' :
  kept i h s →
  map_get i (TOASTS s') = map_get i (TOASTS s) →
  (∀ h' o', heap s' !! h' = Some o' → toast_id o' = i →
     ∃ o, heap s !! h' = Some o ∧ toast_id o = i) →
  (∀ t tm, timers s' !! t = Some tm →
     timers s !! t = Some tm ∨ ∀ h', callback tm ≠ Removal i h') →
  kept i h s'.
Proof.
  intros (Hg & Hu & Ht) Eg Hheap Htimers. split; [|split].
  - by rewrite Eg.
  - intros h' o' Ho' Hi. destruct (Hheap _ _ Ho' Hi) as (o & Ho & Hio). eauto.
  - intros t tm h' Htm. destruct (Htimers _ _ Htm) as [H|H]; eauto.
Qed.

Lemma kept_dismiss i h j s : j ≠ i → kept i h s → kept i h (dismiss j s).
Proof.
  intros Hne Hk. destruct (dismiss_cases j s) as [->|(h' & o & _ & _ & _ & ->)]; [done|].
  apply (kept_mono i h s); [done|done|..]; simpl; [eauto|].
  intros t tm. rewrite lookup_insert. case_decide.
  - intros [= <-]. right. simpl. congruence.
  - intros ?%cancel_lookup. by left.
Qed.

Lemma kept_removal i h j h' s : j ≠ i → kept i h s → kept i h (removal j h' s).
Proof.
  intros Hne Hk. destruct (heap s !! h') as [o|] eqn:Ho; [|by rewrite removal_none].
  rewrite (removal_eq _ _ _ _ Ho).
  apply (kept_mono i h s); [done|..]; simpl; eauto.
  rewrite map_get_delete. by case_decide.
Qed.

Lemma kept_cancelled i h m s :
  kept i h s → (∀ t tm, m !! t = Some tm → timers s !! t = Some tm) →
  kept i h (with_timers m s).
Proof. intros Hk Hm. apply (kept_mono i h s); simpl; eauto. Qed.

Lemma kept_notify i h a b rnd s :
  default "" (rd (id (resolved (globalConfig s) (now s) rnd (optsBase a b)))) ≠ i →
  kept i h s → kept i h (notify a b rnd s).1.
Proof.
  intros Hne Hk. destruct (notify a b rnd s) as [s' r] eqn:E. simpl.
  destruct (notify_cases _ _ _ _ _ _ E)
    as [(_ & -> & _)|[(_ & _ & [] & _)|(i' & c & x & _ & [])]]; [done|..].
  - apply (kept_mono i h s); [done|congruence|..].
    + rewrite pe_heap0. eauto.
    + rewrite pe_timers0. by left.
  - rewrite sh_id0 in Hne. simpl in Hne.
    apply (kept_mono i h s); [done|..].
    + rewrite sh_TOASTS0, map_get_set. by case_decide.
    + rewrite sh_heap0. intros h' o' [[_ Ho']|[-> <-]]%lookup_snoc_Some Hi; [eauto|].
      by simpl in Hi.
    + rewrite sh_timers0.
      destruct (rd (duration (resolved (globalConfig s) (now s) rnd (optsBase a b))))
        as [[| |]|]; intros t tm Htm; [by left|..];
        rewrite lookup_insert in Htm; case_decide; simplify_eq; auto;
        right; by unfold auto_timer.
Qed.

(** Steps that neither dismiss the sticky toast nor reuse its identifier
    leave it registered. *)
Lemma kept_step i h ev s :
  Inv s → sticky h s → kept i h s →
  dismisses i h ev = false → event_id s ev ≠ Some i →
  kept i h (step ev s).
Proof.
  intros HI Hs Hk Hd Hid.
  assert (∀ h' o', heap s !! h' = Some o' → h' ≠ h → toast_id o' ≠ i) as Hother.
  { intros h' o' Ho' Hne Hi. destruct Hk as (_ & Hu & _). eauto. }
  destruct ev; simpl in *.
  - apply kept_notify; [|done]. intros H. apply Hid. by f_equal.
  - apply kept_notify; [|done]. intros H. apply Hid. by f_equal.
  - apply kept_dismiss; [|done]. intros ->. by rewrite bool_decide_eq_true_2 in Hd.
  - done.
  - done.
  - done.
  - destruct Hk as (Hg & Hu & Ht). split; [done|split; [done|]]. simpl.
    intros t tm h' (tm0 & Htm0 & -> & _)%lookup_set_due. eauto.
  - destruct (fire_cases t s) as [->|(tm & Ht & _ & ->)]; [done|].
    assert (kept i h (with_timers (delete t (timers s)) s)) as Hk'.
    { apply kept_cancelled; [done|]. intros t' tm'. rewrite lookup_delete.
      by case_decide. }
    destruct Hs as (_ & _ & Hown). destruct (Hown _ _ Ht) as [Ha Hr].
    simpl. destruct (callback tm) as [h'|h'|j h'] eqn:Hcb.
    + destruct (heap s !! h') as [o'|] eqn:Ho'; [|done].
      apply kept_dismiss; [|done]. apply (Hother h'); [done|congruence].
    + destruct (heap s !! h') as [o'|] eqn:Ho'; [|done].
      destruct (inv_heap _ HI _ _ Ho') as (_ & -> & _).
      apply kept_dismiss; [|done]. apply (Hother h'); [done|congruence].
    + apply kept_removal; [|done]. intros ->. destruct Hk as (_ & _ & Hrm).
      apply (Hrm _ _ h' Ht). done.
  - apply (kept_mono i h s); [done|done|eauto|by left].
  - destruct (mouseenter_cases e s) as [->|(x & hv & o & _ & _ & _ & _ & ->)];
      [done|].
    apply (kept_mono i h s); [done|done|..]; simpl; [eauto|].
    intros t tm ?%cancel_lookup. by left.
  - destruct (mouseleave_cases e s) as [->|(x & hv & r & _ & _ & _ & _ & ->)];
      [done|].
    apply (kept_mono i h s); [done|done|..]; simpl.
    + intros h' o' Ho' Hi. rewrite list_lookup_alter in Ho'. case_decide; subst.
      * apply fmap_Some in Ho' as (o & Ho & ->). eauto.
      * eauto.
    + intros t tm. rewrite lookup_insert. case_decide.
      * intros [= <-]. by right.
      * by left.
  - unfold clickClose. destruct (elems s !! e) as [x|] eqn:Hx; [|done].
    destruct (closeButton x); [|done].
    destruct (inv_elems _ HI _ _ Hx) as ((o & Ho & ->) & _).
    apply kept_dismiss; [|done]. apply (Hother e); [done|].
    intros ->. by rewrite bool_decide_eq_true_2 in Hd.
Qed.

Lemma kept_run i h tr s :
  Inv s → sticky h s → kept i h s → undisturbed i h s tr = true →
  kept i h (run tr s).
Proof.
  revert s. induction tr as [|ev tr IH]; intros s HI Hs Hk Hu; [done|].
  simpl in Hu. apply andb_prop in Hu as [[Hd Hid]%andb_prop Hu].
  apply negb_true_iff in Hd. apply negb_true_iff, bool_decide_eq_false in Hid.
  apply IH; auto using Inv_step, sticky_step, kept_step.
Qed.

(** C4, as stated, fails when an identifier is reused: the sticky toast
    shown second under the identifier of a timed toast is dismissed and
    removed by the first toast's timer, without any call to [dismiss] or
    [clear]. *)
Lemma sticky_dismissed_by_namesake :
  let timed := {| id := Present (Some "a"); title := Absent; message := Absent;
                  type := Absent; duration := Present (Some 1000);
                  closable := Absent; pauseOnHover := Absent; position := Absent;
                  containerClass := Absent; toastClass := Absent;
                  injectStyles := Absent; onClose := Absent; render := Absent |} in
  let lasting := {| id := Present (Some "a"); title := Absent; message := Absent;
                    type := Absent; duration := Present (Some 0);
                    closable := Absent; pauseOnHover := Absent; position := Absent;
                    containerClass := Absent; toastClass := Absent;
                    injectStyles := Absent; onClose := Absent; render := Absent |} in
  let s1 := run [ENotify (Opts timed) None "k3x9q1"; ENotify (Opts lasting) None "p0w2zz"]
                (init true 0) in
  let s2 := run [ETick 1000; EFire 1; ETick 220; EFire 2] s1 in
  map_get "a" (TOASTS s1) = Some 1%nat ∧
  (rd ∘ duration ∘ opts <$> heap s1 !! 1%nat) = Some (Some 0) ∧
  map_get "a" (TOASTS s2) = None ∧
  (parent <$> elems s2 !! 1%nat) = Some None.
Proof. by vm_compute. Qed.

(** C4, amended: a toast shown with resolved duration exactly 0 never has
    an auto-dismiss timer of its own, neither from [setAutoDismiss] nor
    from its hover listeners; and when no other toast has or takes its
    identifier, it stays registered as long as it is not dismissed by
    [dismiss], [clear] or its close button. *)
Theorem sticky_toast b t0 tr a b' rnd s1 i tr2 :
  let s := run tr (init b t0) in
  let o1 := resolved (globalConfig s) (now s) rnd (optsBase a b') in
  let h := length (heap s) in
  let s2 := run tr2 s1 in
  notify a b' rnd s = (s1, Returned (Some i)) →
  rd (duration o1) = Some 0 →
  (∃ o, heap s2 !! h = Some o ∧ toast_id o = i ∧ timeoutId o = None) ∧
  (∀ t tm, timers s2 !! t = Some tm →
     callback tm ≠ AutoDismiss h ∧ callback tm ≠ HoverResume h) ∧
  (unused i s → undisturbed i h s1 tr2 = true → map_get i (TOASTS s2) = Some h).
Proof.
  intros s o1 h s2 E Hd.
  pose proof (Inv_run b t0 tr) as HI. fold s in HI.
  destruct (notify_cases _ _ _ _ _ _ E)
    as [(_ & _ & ?)|[(_ & ? & _)|(? & c & x & [= <-] & Hsh)]]; [done..|].
  fold s o1 in Hsh.
  pose proof (sticky_shown _ _ _ _ _ _ HI Hsh Hd) as Hst. fold h in Hst.
  pose proof (Inv_shown _ _ _ _ _ _ HI Hsh) as HI1.
  pose proof (sticky_run h tr2 s1 Hst) as ((o & Ho & _ & Hto) & _ & Htm).
  fold s2 in Ho, Htm.
  split; [|split; [done|]].
  - exists o. split; [done|]. split; [|done].
    destruct (ev_heap _ _ (evolves_run tr2 s1) h (new_toast o1 i s))
      as (o' & Ho' & Hi & _).
    { rewrite (sh_heap _ _ _ _ _ _ Hsh). by apply list_lookup_middle. }
    fold s2 in Ho'. by simplify_eq.
  - intros Hun Hund.
    apply (kept_run i h tr2 s1 HI1 Hst); [|done].
    split; [|split].
    + rewrite (sh_TOASTS _ _ _ _ _ _ Hsh), map_get_set. by case_decide.
    + rewrite (sh_heap _ _ _ _ _ _ Hsh).
      intros h' o' [[_ Ho']|[-> _]]%lookup_snoc_Some Hi; [|done].
      unfold unused in Hun. rewrite Forall_lookup in Hun. by destruct (Hun _ _ Ho').
    + rewrite (sh_timers _ _ _ _ _ _ Hsh), Hd. intros t tm h' Ht Hcb.
      destruct (inv_timers _ HI _ _ Ht) as [_ Hok]. rewrite Hcb in Hok.
      destruct Hok as (o' & Ho' & Hi).
      unfold unused in Hun. rewrite Forall_lookup in Hun. by destruct (Hun _ _ Ho').
Qed.

Lemma sticky_toast_witness :
  let lasting := {| id := Absent; title := Absent; message := Present (Some "saved");
                    type := Absent; duration := Present (Some 0);
                    closable := Absent; pauseOnHover := Absent; position := Absent;
                    containerClass := Absent; toastClass := Absent;
                    injectStyles := Absent; onClose := Absent; render := Absent |} in
  let s := run [] (init true 0) in
  let s1 := (notify (Opts lasting) None "k3x9q1" s).1 in
  let tr2 := [ETick 5000; EMouseEnter 0; ETick 100; EMouseLeave 0; EFire 1] in
  notify (Opts lasting) None "k3x9q1" s = (s1, Returned (Some "t_0_k3x9q1")) ∧
  unused "t_0_k3x9q1" s ∧ undisturbed "t_0_k3x9q1" 0 s1 tr2 = true ∧
  map_get "t_0_k3x9q1" (TOASTS (run tr2 s1)) = Some O.
Proof.
  intros lasting s s1 tr2.
  assert (notify (Opts lasting) None "k3x9q1" s = (s1, Returned (Some "t_0_k3x9q1")))
    as E by (vm_compute; reflexivity).
  assert (rd (duration (resolved (globalConfig s) (now s) "k3x9q1"
                          (optsBase (Opts lasting) None))) = Some 0)
    as Hd by (vm_compute; reflexivity).
  assert (unused "t_0_k3x9q1" s) as Hun by apply Forall_nil_2.
  assert (undisturbed "t_0_k3x9q1" 0 s1 tr2 = true) as Hund
    by (vm_compute; reflexivity).
  split; [exact E|]. split; [exact Hun|]. split; [exact Hund|].
  exact (proj2 (proj2 (sticky_toast true 0 [] (Opts lasting) None "k3x9q1"
                         s1 "t_0_k3x9q1" tr2 E Hd)) Hun Hund).
Defined.

(** ** Dismissal sequences *)

Lemma dismiss_eq i h o s :
  browser s = true → map_get i (TOASTS s) = Some h → heap s !! h = Some o →
  dismiss i s = dismissed i h o s.
Proof.
  intros Hb Hg Ho. unfold dismiss, isBrowser, dismissed, cancel.
  rewrite Hb, Hg, Ho. simpl.
  destruct (truthy_num (timeoutId o)); [|done]. by destruct (timeoutId o).
Qed.

Lemma fire_removal t i h o tm s :
  timers s !! t = Some tm → callback tm = Removal i h → due tm <= now s →
  heap s !! h = Some o →
  fire t s = removed i o (with_timers (delete t (timers s)) s).
Proof.
  intros Ht Hcb Hdue Ho. unfold fire. rewrite Ht. case_decide; [|lia].
  rewrite Hcb. by apply removal_eq.
Qed.

(** C1: the code does not make a second [dismiss] a no-op. For a toast
    registered in a reachable browser state, two calls of [dismiss] in
    succession schedule two removal callbacks, and once both have run the
    toast's [onClose] has been invoked twice. *)
Theorem dismiss_twice_closes_twice t0 tr i h o :
  let s := run tr (init true t0) in
  let s2 := dismiss i (dismiss i s) in
  let t1 := nextTimer s in
  let t2 := S (nextTimer s) in
  map_get i (TOASTS s) = Some h → heap s !! h = Some o →
  timers s2 !! t1 = Some (removal_timer i h s) ∧
  timers s2 !! t2 = Some (removal_timer i h s) ∧
  dismiss i (dismiss i s) ≠ dismiss i s ∧
  closeLog (run [ETick 220; EFire t1; EFire t2] s2)
  = closeLog s ++ invoked o ++ invoked o.
Proof.
  intros s s2 t1 t2 Hg Ho.
  pose proof (Inv_run true t0 tr) as HI. fold s in HI.
  assert (browser s = true) as Hb by apply browser_run.
  assert (∀ t, timeoutId o = Some t → (t < nextTimer s)%nat) as Hlt.
  { intros t Ht. destruct (inv_heap _ HI _ _ Ho) as (_ & _ & H). apply H in Ht. lia. }
  assert (∀ m, cancel (timeoutId o) m !! t1 = m !! t1) as Hc1.
  { intros m. unfold cancel. destruct (truthy_num _); [|done].
    destruct (timeoutId o) as [t|] eqn:Ht; [|done].
    rewrite lookup_delete_ne; [done|]. specialize (Hlt _ eq_refl). unfold t1. lia. }
  assert (dismiss i s = dismissed i h o s) as E1 by by apply dismiss_eq.
  assert (s2 = dismissed i h o (dismissed i h o s)) as E2.
  { unfold s2. rewrite E1. by apply dismiss_eq. }
  assert (timers s2 !! t1 = Some (removal_timer i h s)) as Ht1.
  { rewrite E2. simpl. rewrite lookup_insert_ne by (unfold t1; lia).
    rewrite Hc1. by rewrite lookup_insert_eq. }
  assert (timers s2 !! t2 = Some (removal_timer i h s)) as Ht2.
  { rewrite E2. simpl. by rewrite lookup_insert_eq. }
  split; [done|]. split; [done|]. split.
  { fold s2. rewrite E1, E2. intros E. apply (f_equal nextTimer) in E.
    simpl in E. lia. }
  unfold run. simpl.
  set (s3 := with_now (now s2 + 220) s2).
  assert (now s3 = now s + 220) as Hnow by (unfold s3; rewrite E2; done).
  assert (due (removal_timer i h s) <= now s3) as Hdue by (rewrite Hnow; simpl; lia).
  assert (heap s3 !! h = Some o) as Hheap by (unfold s3; rewrite E2; done).
  rewrite (fire_removal t1 i h o (removal_timer i h s) s3 Ht1 eq_refl Hdue Hheap).
  set (s4 := removed i o (with_timers (delete t1 (timers s3)) s3)).
  assert (timers s4 !! t2 = Some (removal_timer i h s)) as Ht2'.
  { unfold s4. simpl. rewrite lookup_delete_ne by (unfold t1, t2; lia). done. }
  assert (due (removal_timer i h s) <= now s4) as Hdue' by done.
  assert (heap s4 !! h = Some o) as Hheap' by done.
  rewrite (fire_removal t2 i h o (removal_timer i h s) s4 Ht2' eq_refl Hdue' Hheap').
  unfold s4, s3. rewrite E2. simpl. by rewrite <- app_assoc.
Qed.

Lemma dismiss_twice_closes_twice_witness :
  let call := {| id := Present (Some "a"); title := Absent; message := Absent;
                 type := Absent; duration := Absent; closable := Absent;
                 pauseOnHover := Absent; position := Absent;
                 containerClass := Absent; toastClass := Absent;
                 injectStyles := Absent; onClose := Present (Some (UserCb 7));
                 render := Absent |} in
  let tr := [ENotify (Opts call) None "k3x9q1"] in
  let s := run tr (init true 0) in
  ∃ o, map_get "a" (TOASTS s) = Some O ∧ heap s !! O = Some o ∧
       closeLog (run [ETick 220; EFire 2; EFire 3] (dismiss "a" (dismiss "a" s)))
       = [UserCb 7; UserCb 7].
Proof.
  intros call tr s. eexists.
  assert (map_get "a" (TOASTS s) = Some O) as Hg by (vm_compute; reflexivity).
  split; [exact Hg|]. split; [vm_compute; reflexivity|].
  refine (eq_trans (proj2 (proj2 (proj2
            (dismiss_twice_closes_twice 0 tr "a" O _ Hg _)))) _).
  - vm_compute; reflexivity.
  - vm_compute; reflexivity.
Defined.

Lemma mouseleave_eq e x hv r s :
  elems s !! e = Some x → hover x = Some hv → remaining hv = Some r → 0 < r →
  mouseleave e s = left_hover e hv r s.
Proof.
  intros Hx Hhv Hr Hpos. unfold mouseleave. rewrite Hx, Hhv, Hr.
  by case_decide; [|lia].
Qed.

Lemma fire_resume_unregistered t tm h o i s :
  timers s !! t = Some tm → callback tm = HoverResume h → due tm <= now s →
  heap s !! h = Some o → rd (id (opts o)) = Some i →
  map_get i (TOASTS s) = None →
  fire t s = with_timers (delete t (timers s)) s.
Proof.
  intros Ht Hcb Hdue Ho Hid Hgone. unfold fire. rewrite Ht, Hcb.
  case_decide; [|lia]. simpl. rewrite Ho, Hid.
  unfold dismiss, isBrowser. simpl. rewrite Hgone. by destruct (negb _).
Qed.

(** C6: [dismiss] cancels the timer its toast's object names, but the
    hover listeners stay live during the hiding window. For a registered
    toast with hover listeners and [r > 0] ms remaining, a [mouseleave]
    after [dismiss] starts a timer that the removal callback does not
    cancel: once the toast is removed that timer is still pending, and it
    fires when due. The timer waits the [r] ms the platform makes of the
    delay, which is [r] itself below 2^31. *)
Theorem hover_timer_outlives_removal t0 tr i h o e x hv r :
  let s := run tr (init true t0) in
  let t1 := nextTimer s in
  let t2 := S (nextTimer s) in
  let s1 := dismiss i s in
  let s2 := mouseleave e s1 in
  let s3 := run [ETick 220; EFire t1] s2 in
  let s4 := run [ETick (Z.to_N (timeout_ms (Some r)))] s3 in
  map_get i (TOASTS s) = Some h → heap s !! h = Some o →
  elems s !! e = Some x → hover x = Some hv → internal hv = h →
  remaining hv = Some r → 0 < r →
  (∀ t, timeoutId o = Some t → timers s1 !! t = None) ∧
  map_get i (TOASTS s3) = None ∧
  timers s3 !! t2
  = Some {| callback := HoverResume h; delay := Some r;
            due := now s + timeout_ms (Some r) |} ∧
  (r < 2 ^ 31 → timeout_ms (Some r) = r) ∧
  now s + timeout_ms (Some r) <= now s4 ∧
  timers s4 !! t2 = timers s3 !! t2 ∧
  timers (fire t2 s4) !! t2 = None.
Proof.
  intros s t1 t2 s1 s2 s3 s4 Hg Ho Hx Hhv Hint Hr Hpos.
  pose proof (Inv_run true t0 tr) as HI. fold s in HI.
  assert (browser s = true) as Hb by apply browser_run.
  destruct (inv_heap _ HI _ _ Ho) as (Hel & Hid & Hto).
  assert (toast_id o = i) as Hoi.
  { destruct (inv_reg _ HI _ _ Hg) as (o' & _ & Ho' & Hi & _). congruence. }
  assert (e = h) as ->.
  { destruct (inv_elems _ HI _ _ Hx) as (_ & H & _). rewrite <- (H _ Hhv). done. }
  assert (s1 = dismissed i h o s) as E1 by by apply dismiss_eq.
  assert (elems s1 !! h = Some (set_hide true x)) as Hx1.
  { rewrite E1. simpl. rewrite Hel, list_lookup_alter_eq, Hx. done. }
  assert (s2 = left_hover h hv r s1) as E2 by by apply (mouseleave_eq h _ hv r s1 Hx1).
  assert (timers s1 !! t1 = Some (removal_timer i h s)) as Ht1.
  { rewrite E1. simpl. by rewrite lookup_insert_eq. }
  assert (nextTimer s1 = t2) as Hn1 by by rewrite E1.
  assert (now s1 = now s) as Hnow1 by by rewrite E1.
  split.
  { intros t Ht. rewrite E1. simpl. specialize (Hto _ Ht).
    rewrite lookup_insert_ne by lia. unfold cancel. rewrite Ht.
    destruct t as [|t]; [lia|]. simpl. by rewrite lookup_delete_eq. }
  assert (timers s2 !! t1 = Some (removal_timer i h s)) as Ht1'.
  { rewrite E2. simpl. rewrite Hn1. rewrite lookup_insert_ne by (unfold t1, t2; lia).
    done. }
  set (s2' := with_now (now s2 + 220) s2).
  assert (heap s2' !! h = Some (set_timeoutId (Some t2) o)) as Hh2.
  { unfold s2'. rewrite E2. simpl. rewrite Hint, list_lookup_alter_eq, Hn1.
    rewrite E1. simpl. by rewrite Ho. }
  assert (now s2' = now s + 220) as Hnow2.
  { unfold s2'. rewrite E2. simpl. by rewrite Hnow1. }
  assert (s3 = removed i (set_timeoutId (Some t2) o)
                 (with_timers (delete t1 (timers s2')) s2')) as E3.
  { unfold s3, run. simpl. fold s2'.
    apply (fire_removal t1 i h _ (removal_timer i h s) s2');
      [exact Ht1'|done| |exact Hh2].
    rewrite Hnow2. simpl. lia. }
  assert (timers s3 !! t2
          = Some {| callback := HoverResume h; delay := Some r;
                    due := now s + timeout_ms (Some r) |})
    as Ht2.
  { rewrite E3. simpl. rewrite lookup_delete_ne by (unfold t1, t2; lia).
    rewrite E2. simpl. rewrite Hn1, lookup_insert_eq. unfold resume_timer.
    by rewrite Hint, Hnow1. }
  assert (map_get i (TOASTS s3) = None) as Hgone.
  { rewrite E3. simpl. rewrite map_get_delete. by case_decide. }
  pose proof (timeout_ms_nonneg (Some r)) as Hms.
  assert (now s4 = now s + 220 + Z.of_N (Z.to_N (timeout_ms (Some r)))) as Hnow4.
  { unfold s4, run. simpl. rewrite E3. simpl. rewrite <- Hnow2. done. }
  assert (map_get (toast_id o) (TOASTS s4) = None) as Hgone' by by rewrite Hoi.
  split; [done|]. split; [done|].
  split; [intros Hlt; apply timeout_ms_small; lia|].
  split; [rewrite Hnow4; lia|].
  split; [done|].
  rewrite (fire_resume_unregistered t2 _ h (set_timeoutId (Some t2) o) (toast_id o) s4
             Ht2 eq_refl).
  - simpl. by rewrite lookup_delete_eq.
  - rewrite Hnow4. simpl. lia.
  - unfold s4, run. simpl. rewrite E3. done.
  - done.
  - exact Hgone'.
Qed.

Lemma hover_timer_outlives_removal_witness :
  let tr := [ENotify (Msg "saved") None "k3x9q1"; ETick 100; EMouseEnter 0] in
  let s := run tr (init true 0) in
  let s3 := run [ETick 220; EFire 2] (mouseleave 0 (dismiss "t_0_k3x9q1" s)) in
  map_get "t_0_k3x9q1" (TOASTS s) = Some O ∧
  map_get "t_0_k3x9q1" (TOASTS s3) = None ∧
  timers s3 !! 3%nat
  = Some {| callback := HoverResume 0; delay := Some 3900; due := 4000 |}.
Proof.
  intros tr s s3.
  assert (map_get "t_0_k3x9q1" (TOASTS s) = Some O) as Hg by (vm_compute; reflexivity).
  split; [exact Hg|].
  refine ((fun H => conj (proj1 (proj2 H)) (proj1 (proj2 (proj2 H))))
            (hover_timer_outlives_removal 0 tr "t_0_k3x9q1" O _ O _ _ 3900 Hg _ _ _ _ _ _)).
  - vm_compute; reflexivity.
  - vm_compute; reflexivity.
  - vm_compute; reflexivity.
  - vm_compute; reflexivity.
  - vm_compute; reflexivity.
  - lia.
Defined.

(** ** Timers and their toasts *)

Lemma owns_init b t0 : owns_timers (init b t0).
Proof. intros h o t tm Ho. simpl in Ho. by rewrite lookup_nil in Ho. Qed.

Lemma owns_same s s' :
  owns_timers s → heap s' = heap s →
  (∀ t tm, timers s' !! t = Some tm → timers s !! t = Some tm) →
  owns_timers s'.
Proof.
  intros Hs Eh Ht h o t tm Ho Hto Htm. rewrite Eh in Ho. eauto.
Qed.

Lemma owns_dismiss i s : Inv s → owns_timers s → owns_timers (dismiss i s).
Proof.
  intros HI Hs. destruct (dismiss_cases i s) as [->|(h' & o' & _ & _ & _ & ->)]; [done|].
  intros h o t tm Ho Hto. simpl in *.
  destruct (inv_heap _ HI _ _ Ho) as (_ & _ & Hlt). specialize (Hlt _ Hto).
  rewrite lookup_insert_ne by lia. intros ?%cancel_lookup. eauto.
Qed.

Lemma owns_removal i h s : owns_timers s → owns_timers (removal i h s).
Proof.
  intros Hs. destruct (heap s !! h) as [o|] eqn:Ho; [|by rewrite removal_none].
  rewrite (removal_eq _ _ _ _ Ho). by apply (owns_same s).
Qed.

Lemma owns_clear s : Inv s → owns_timers s → owns_timers (clear s).
Proof.
  unfold clear. destruct (negb _); [done|].
  generalize (map_keys (TOASTS s)). intros l. revert s.
  induction l as [|i l IH]; intros s HI Hs; simpl; [done|].
  apply IH; [by apply Inv_dismiss | by apply owns_dismiss].
Qed.

Lemma owns_fire t s : Inv s → owns_timers s → owns_timers (fire t s).
Proof.
  intros HI Hs. destruct (fire_cases t s) as [->|(tm & Ht & _ & ->)]; [done|].
  assert (Inv (with_timers (delete t (timers s)) s)) as HI'.
  { apply Inv_cancelled; [done|]. intros t' tm'. rewrite lookup_delete.
    by case_decide. }
  assert (owns_timers (with_timers (delete t (timers s)) s)) as Hs'.
  { apply (owns_same s); [done|done|]. intros t' tm'. simpl.
    rewrite lookup_delete. by case_decide. }
  simpl. destruct (callback tm) as [h'|h'|i h'].
  - destruct (heap s !! h'); [by apply owns_dismiss | done].
  - destruct (heap s !! h') as [o|]; [|done].
    destruct (rd (id (opts o))); [by apply owns_dismiss | done].
  - by apply owns_removal.
Qed.

Lemma owns_notify a b rnd s : Inv s → owns_timers s → owns_timers (notify a b rnd s).1.
Proof.
  intros HI Hs. destruct (notify a b rnd s) as [s' r] eqn:E. simpl.
  destruct (notify_cases _ _ _ _ _ _ E)
    as [(_ & -> & _)|[(_ & _ & [] & _)|(i' & c & x & _ & [])]]; [done|..].
  - apply (owns_same s); [done|done|]. by rewrite pe_timers0.
  - intros h o t tm. rewrite sh_heap0, sh_timers0.
    intros [[_ Ho]|[-> <-]]%lookup_snoc_Some Hto.
    + destruct (inv_heap _ HI _ _ Ho) as (_ & _ & Hlt). specialize (Hlt _ Hto).
      destruct (rd (duration (resolved (globalConfig s) (now s) rnd (optsBase a b))))
        as [[| |]|]; rewrite ?lookup_insert_ne by lia; eauto.
    + unfold new_toast in Hto. simpl in Hto.
      destruct (rd (duration (resolved (globalConfig s) (now s) rnd (optsBase a b))))
        as [[| |]|]; simplify_eq; rewrite lookup_insert_eq; intros [= <-];
        by left.
Qed.

Lemma owns_step ev s : Inv s → owns_timers s → owns_timers (step ev s).
Proof.
  intros HI Hs. destruct ev; simpl.
  - by apply owns_notify.
  - by apply owns_notify.
  - by apply owns_dismiss.
  - by apply owns_clear.
  - done.
  - done.
  - intros h o t tm Ho Hto (tm0 & Htm0 & -> & _)%lookup_set_due. eauto.
  - by apply owns_fire.
  - done.
  - destruct (mouseenter_cases e s) as [->|(x & hv & o & _ & _ & _ & _ & ->)];
      [done|].
    apply (owns_same s); [done|done|]. simpl. apply cancel_lookup.
  - destruct (mouseleave_cases e s) as [->|(x & hv & r & _ & _ & _ & _ & ->)];
      [done|].
    intros h o t tm. simpl. rewrite list_lookup_alter. case_decide; subst.
    + intros (o' & Ho' & ->)%fmap_Some. simpl. intros [= <-].
      rewrite lookup_insert_eq. intros [= <-]. by right.
    + intros Ho Hto. destruct (inv_heap _ HI _ _ Ho) as (_ & _ & Hlt).
      specialize (Hlt _ Hto). rewrite lookup_insert_ne by lia. eauto.
  - unfold clickClose. destruct (elems s !! e) as [x|]; [|done].
    destruct (closeButton x); [by apply owns_dismiss | done].
Qed.

Lemma owns_run b t0 tr : owns_timers (run tr (init b t0)).
Proof.
  assert (∀ s, Inv s → owns_timers s → owns_timers (run tr s)) as H.
  { induction tr as [|ev tr IH]; intros s HI Hs; [done|].
    apply IH; [by apply Inv_step | by apply owns_step]. }
  apply H; [apply Inv_init | apply owns_init].
Qed.

(** In every reachable state, when the [timeoutId] of a toast names a
    pending timer, that timer is one of the toast's own (its auto-dismiss
    or its hover-resume timer), and when it fires it calls [dismiss] with
    that toast's identifier. *)
Theorem timeout_targets_own_toast b t0 tr h o t tm :
  let s := run tr (init b t0) in
  heap s !! h = Some o → timeoutId o = Some t → timers s !! t = Some tm →
  (callback tm = AutoDismiss h ∨ callback tm = HoverResume h) ∧
  (due tm <= now s →
   fire t s = dismiss (toast_id o) (with_timers (delete t (timers s)) s)).
Proof.
  intros s Ho Hto Htm.
  pose proof (Inv_run b t0 tr) as HI. fold s in HI.
  pose proof (owns_run b t0 tr h o t tm Ho Hto Htm) as Hown.
  split; [done|]. intros Hdue.
  destruct (inv_heap _ HI _ _ Ho) as (_ & Hid & _).
  unfold fire. rewrite Htm. case_decide; [|lia]. simpl.
  destruct Hown as [-> | ->]; rewrite Ho; [done|]. by rewrite Hid.
Qed.

Lemma timeout_targets_own_toast_witness :
  let tr := [ENotify (Msg "saved") None "k3x9q1"; ETick 4000] in
  let s := run tr (init true 0) in
  ∃ o tm, heap s !! O = Some o ∧ timeoutId o = Some 1%nat ∧
          timers s !! 1%nat = Some tm ∧
          fire 1 s = dismiss (toast_id o) (with_timers (delete 1%nat (timers s)) s).
Proof.
  intros tr s. eexists _, _.
  split; [vm_compute; reflexivity|]. split; [vm_compute; reflexivity|].
  split; [vm_compute; reflexivity|].
  refine (proj2 (timeout_targets_own_toast true 0 tr O _ 1%nat _ _ _ _) _).
  - vm_compute; reflexivity.
  - vm_compute; reflexivity.
  - vm_compute; reflexivity.
  - vm_compute; discriminate.
Defined.

(** ** Without a rendering surface *)

(** Outside a browser nothing is ever shown: whatever is called, the
    registry, the heap, the page, the timers and the [onClose] trace stay
    empty, [notify] returns [null], and [dismiss] and [clear] change
    nothing. Only [configure] has an effect (it has no [isBrowser] guard). *)
Theorem no_surface_no_effect t0 tr a b rnd i :
  let s := run tr (init false t0) in
  (TOASTS s = [] ∧ heap s = [] ∧ elems s = [] ∧ body s = [] ∧
   CONTAINERS s = ∅ ∧ timers s = ∅ ∧ frames s = [] ∧ closeLog s = [] ∧
   styleInjected s = false) ∧
  notify a b rnd s = (s, Returned None) ∧ dismiss i s = s ∧ clear s = s.
Proof.
  intros s.
  assert (browser s = false) as Hb by apply browser_run.
  split; [|by unfold notify, dismiss, clear, isBrowser; rewrite Hb].
  unfold s. clear s Hb.
  set (blank := fun s : State =>
         browser s = false ∧ TOASTS s = [] ∧ heap s = [] ∧ elems s = [] ∧
         body s = [] ∧ CONTAINERS s = ∅ ∧ timers s = ∅ ∧ frames s = [] ∧
         closeLog s = [] ∧ styleInjected s = false).
  assert (∀ s, blank s → blank (run tr s)) as H.
  { induction tr as [|ev tr IH]; intros s Hs; [done|].
    apply IH. destruct Hs as (Hb & HT & Hh & He & Hbody & HC & Htm & Hf & Hl & Hst).
    destruct ev; simpl;
      unfold notify_as, notify, dismiss, clear, fire, mouseenter, mouseleave,
        clickClose, isBrowser; rewrite ?Hb, ?Htm, ?He; simpl;
      try (by repeat split).
    unfold frame, blank. simpl. rewrite Hf, He. simpl. by repeat split. }
  destruct (H (init false t0)) as (_ & ?); [by repeat split|done].
Qed.

(** ** Toasts, once shown *)

(** No operation changes a toast that has been shown: its object keeps its
    identifier, its element and its resolved options (so a later
    [configure] does not reach it), and its element keeps carrying the
    identifier. *)
Theorem shown_toast_unchanged tr s h o x :
  heap s !! h = Some o → elems s !! el o = Some x →
  ∃ o' x', heap (run tr s) !! h = Some o' ∧ toast_id o' = toast_id o ∧
           el o' = el o ∧ opts o' = opts o ∧
           elems (run tr s) !! el o = Some x' ∧ data_tid x' = data_tid x.
Proof.
  intros Ho Hx. destruct (evolves_run tr s) as [_ _ _ Hheap Helems].
  destruct (Hheap _ _ Ho) as (o' & ? & ? & ? & ?).
  destruct (Helems _ _ Hx) as (x' & ? & ?).
  by exists o', x'.
Qed.

Lemma shown_toast_unchanged_witness :
  let s := run [ENotify (Msg "saved") None "k3x9q1"] (init true 0) in
  let tr := [EConfigure (with_message (Present (Some "other")) empty_opts);
             ETick 4000; EFire 1] in
  ∃ o x, heap s !! O = Some o ∧ elems s !! el o = Some x ∧
    ∃ o' x', heap (run tr s) !! O = Some o' ∧ toast_id o' = toast_id o ∧
             el o' = el o ∧ opts o' = opts o ∧
             elems (run tr s) !! el o = Some x' ∧ data_tid x' = data_tid x.
Proof.
  intros s tr. eexists _, _.
  split; [vm_compute; reflexivity|]. split; [vm_compute; reflexivity|].
  refine (shown_toast_unchanged tr s O _ _ _ _).
  - vm_compute; reflexivity.
  - vm_compute; reflexivity.
Defined.

(** ** Containers *)

Lemma containerFor_surface p cc s :
  let s' := (containerFor p cc s).1 in
  (body s' = body s ∧ CONTAINERS s' = CONTAINERS s) ∨
  (CONTAINERS s !! containerKey p (default "" cc) = None ∧
   body s' = body s ++ [container_div p (default "" cc)] ∧
   CONTAINERS s' = <[containerKey p (default "" cc) := length (body s)]> (CONTAINERS s)).
Proof.
  unfold containerFor. destruct (negb _); [by left|].
  destruct (CONTAINERS s !! _) eqn:E; [by left|]. by right.
Qed.

Lemma setAutoDismiss_surface h s :
  body (setAutoDismiss h s) = body s ∧
  CONTAINERS (setAutoDismiss h s) = CONTAINERS s.
Proof.
  unfold setAutoDismiss. destruct (heap s !! h) as [o|]; [|done].
  by destruct (rd (duration (opts o))) as [[| |]|]; destruct (timeoutId o).
Qed.

Lemma notify_surface a b rnd s :
  let s' := (notify a b rnd s).1 in
  (body s' = body s ∧ CONTAINERS s' = CONTAINERS s) ∨
  ∃ p cc, CONTAINERS s !! containerKey p cc = None ∧
          body s' = body s ++ [container_div p cc] ∧
          CONTAINERS s' = <[containerKey p cc := length (body s)]> (CONTAINERS s).
Proof.
  unfold notify. destruct (negb _); [by left|].
  set (o1 := resolved _ _ _ _).
  set (s1 := if truthy_bool (rd (injectStyles o1)) then injectDefaultStyles s else s).
  assert (body s1 = body s ∧ CONTAINERS s1 = CONTAINERS s) as [Eb Ec].
  { unfold s1, injectDefaultStyles. destruct (truthy_bool _); [|done].
    by destruct (negb _), (styleInjected s). }
  pose proof (containerFor_surface (rd (position o1)) (rd (containerClass o1)) s1) as H.
  destruct (containerFor (rd (position o1)) (rd (containerClass o1)) s1) as [s2 r].
  simpl in H. rewrite Eb, Ec in H.
  assert (∀ s3 : State, body s3 = body s2 → CONTAINERS s3 = CONTAINERS s2 →
            (body s3 = body s ∧ CONTAINERS s3 = CONTAINERS s) ∨
            ∃ p cc, CONTAINERS s !! containerKey p cc = None ∧
                    body s3 = body s ++ [container_div p cc] ∧
                    CONTAINERS s3
                    = <[containerKey p cc := length (body s)]> (CONTAINERS s)) as Hgo.
  { intros s3 -> ->. destruct H as [?|?]; [by left|right; eauto]. }
  destruct r as [c|]; [|by apply Hgo].
  destruct (buildToastElement _ o1); [|by apply Hgo].
  simpl. apply Hgo; by rewrite ?(proj1 (setAutoDismiss_surface _ _)),
                               ?(proj2 (setAutoDismiss_surface _ _)).
Qed.

Lemma dismiss_surface i s :
  body (dismiss i s) = body s ∧ CONTAINERS (dismiss i s) = CONTAINERS s.
Proof. by destruct (dismiss_cases i s) as [->|(h & o & _ & _ & _ & ->)]. Qed.

Lemma removal_surface i h s :
  body (removal i h s) = body s ∧ CONTAINERS (removal i h s) = CONTAINERS s.
Proof.
  destruct (heap s !! h) as [o|] eqn:Ho; [|by rewrite removal_none].
  by rewrite (removal_eq _ _ _ _ Ho).
Qed.

Lemma clear_surface s :
  body (clear s) = body s ∧ CONTAINERS (clear s) = CONTAINERS s.
Proof.
  unfold clear. destruct (negb _); [done|].
  generalize (map_keys (TOASTS s)). intros l. revert s.
  induction l as [|i l IH]; intros s; simpl; [done|].
  destruct (IH (dismiss i s)) as [-> ->]. apply dismiss_surface.
Qed.

Lemma fire_surface t s :
  body (fire t s) = body s ∧ CONTAINERS (fire t s) = CONTAINERS s.
Proof.
  destruct (fire_cases t s) as [->|(tm & _ & _ & ->)]; [done|].
  simpl. destruct (callback tm) as [h|h|i h].
  - destruct (heap s !! h); [|done].
    apply (dismiss_surface _ (with_timers (delete t (timers s)) s)).
  - destruct (heap s !! h) as [o|]; [|done].
    destruct (rd (id (opts o))); [|done].
    apply (dismiss_surface _ (with_timers (delete t (timers s)) s)).
  - apply (removal_surface _ _ (with_timers (delete t (timers s)) s)).
Qed.

(** A step adds at most one container, only [notify] adds one, and only
    under a key that has none yet. *)
Lemma step_surface ev s :
  (body (step ev s) = body s ∧ CONTAINERS (step ev s) = CONTAINERS s) ∨
  ∃ p cc, CONTAINERS s !! containerKey p cc = None ∧
          body (step ev s) = body s ++ [container_div p cc] ∧
          CONTAINERS (step ev s)
          = <[containerKey p cc := length (body s)]> (CONTAINERS s).
Proof.
  destruct ev; simpl; try (by left).
  - apply notify_surface.
  - apply notify_surface.
  - left. apply dismiss_surface.
  - left. apply clear_surface.
  - left. apply fire_surface.
  - left. by destruct (mouseenter_cases e s) as [->|(x & hv & o & _ & _ & _ & _ & ->)].
  - left. by destruct (mouseleave_cases e s) as [->|(x & hv & r & _ & _ & _ & _ & ->)].
  - left. unfold clickClose. destruct (elems s !! e) as [x|]; [|done].
    destruct (closeButton x); [apply dismiss_surface | done].
Qed.

Lemma containers_ok_step ev s : containers_ok s → containers_ok (step ev s).
Proof.
  intros [Hk Hc]. unfold containers_ok.
  destruct (step_surface ev s) as [[Eb Ec]|(p & cc & Hnone & Eb & Ec)];
    rewrite Eb, Ec; [done|].
  split.
  - intros k c. rewrite lookup_insert. case_decide.
    + intros [= <-]. subst k. exists p, cc. split; [done|].
      by apply list_lookup_middle.
    + intros Hkc. destruct (Hk _ _ Hkc) as (p' & cc' & ? & ?).
      exists p', cc'. split; [done|]. by apply lookup_app_l_Some.
  - intros c div [[_ Hdiv]|[-> _]]%lookup_snoc_Some.
    + destruct (Hc _ _ Hdiv) as [k Hkc]. exists k.
      rewrite lookup_insert_ne; [done|]. intros <-. congruence.
    + exists (containerKey p cc). by rewrite lookup_insert_eq.
Qed.

Lemma containers_ok_run b t0 tr : containers_ok (run tr (init b t0)).
Proof.
  assert (∀ s, containers_ok s → containers_ok (run tr s)) as H.
  { induction tr as [|ev tr IH]; intros s Hs; [done|].
    by apply IH, containers_ok_step. }
  apply H. split; simpl.
  - intros k c. by rewrite lookup_empty.
  - intros c div. by rewrite lookup_nil.
Qed.

(** In every reachable state there is one container per key: each cached
    container is the non-interactive [div] built for the position and
    class of its key, two different keys never name the same container,
    and every container of the page is cached under some key. *)
Theorem one_container_per_key b t0 tr k c :
  let s := run tr (init b t0) in
  CONTAINERS s !! k = Some c →
  (∃ p cc, k = containerKey p cc ∧ body s !! c = Some (container_div p cc) ∧
           c_pointerEvents (container_div p cc) = "none") ∧
  (∀ k', CONTAINERS s !! k' = Some c → k' = k) ∧
  (∀ c' div, body s !! c' = Some div → ∃ k', CONTAINERS s !! k' = Some c').
Proof.
  intros s Hkc. destruct (containers_ok_run b t0 tr) as [Hk Hc]. fold s in Hk, Hc.
  destruct (Hk _ _ Hkc) as (p & cc & -> & Hdiv).
  split; [by exists p, cc|]. split; [|done].
  intros k' Hk'. destruct (Hk _ _ Hk') as (p' & cc' & -> & Hdiv').
  rewrite Hdiv in Hdiv'. injection Hdiv' as Hname.
  assert (p = p' ∧ cc = cc') as [-> ->]; [|done].
  clear -Hname. unfold container_div in Hname.
  destruct cc as [|a1 c1], cc' as [|a2 c2];
    destruct p as [[]|], p' as [[]|]; simpl in Hname; by simplify_eq.
Qed.

Lemma one_container_per_key_witness :
  let s := run [ENotify (Msg "saved") None "k3x9q1"] (init true 0) in
  CONTAINERS s !! "top-right" = Some O ∧
  ∀ k', CONTAINERS s !! k' = Some O → k' = "top-right".
Proof.
  intros s.
  assert (CONTAINERS s !! "top-right" = Some O) as H by (vm_compute; reflexivity).
  split; [exact H|].
  exact (proj1 (proj2 (one_container_per_key true 0
                         [ENotify (Msg "saved") None "k3x9q1"] _ _ H))).
Defined.

(** ** From dismissal to removal *)

(** One dismissal, start to end. For a toast registered in a reachable
    browser state, [dismiss] hides its element and keeps it registered and
    attached; the removal callback does nothing before 220 ms have passed;
    once it has run, the identifier is unregistered, the element is
    detached, [onClose] has been invoked once, and a further [dismiss] of
    the identifier changes nothing. *)
Theorem dismissal_sequence t0 tr i h o x :
  let s := run tr (init true t0) in
  let t := nextTimer s in
  let s1 := dismiss i s in
  let s2 := run [ETick 220; EFire t] s1 in
  map_get i (TOASTS s) = Some h → heap s !! h = Some o → elems s !! h = Some x →
  (map_get i (TOASTS s1) = Some h ∧ elems s1 !! h = Some (set_hide true x) ∧
   closeLog s1 = closeLog s ∧
   ∀ ms, (ms < 220)%N → fire t (step (ETick ms) s1) = step (ETick ms) s1) ∧
  (map_get i (TOASTS s2) = None ∧
   elems s2 !! h = Some (set_parent None (set_hide true x)) ∧
   closeLog s2 = closeLog s ++ invoked o ∧
   dismiss i s2 = s2).
Proof.
  intros s t s1 s2 Hg Ho Hx.
  pose proof (Inv_run true t0 tr) as HI. fold s in HI.
  assert (browser s = true) as Hb by apply browser_run.
  destruct (inv_heap _ HI _ _ Ho) as (Hel & _).
  assert (s1 = dismissed i h o s) as E1 by by apply dismiss_eq.
  assert (timers s1 !! t = Some (removal_timer i h s)) as Ht.
  { rewrite E1. simpl. by rewrite lookup_insert_eq. }
  assert (elems s1 !! h = Some (set_hide true x)) as Hx1.
  { rewrite E1. simpl. by rewrite Hel, list_lookup_alter_eq, Hx. }
  split.
  { split; [by rewrite E1|]. split; [done|]. split; [by rewrite E1|].
    intros ms Hms. unfold fire. simpl. rewrite Ht. case_decide; [|done].
    exfalso. simpl in *. rewrite E1 in *. simpl in *. lia. }
  set (s1' := with_now (now s1 + 220) s1).
  assert (s2 = removed i o (with_timers (delete t (timers s1')) s1')) as E2.
  { unfold s2, run. simpl. fold s1'.
    apply (fire_removal t i h o (removal_timer i h s) s1'); [exact Ht|done| |].
    - unfold s1'. rewrite E1. simpl. lia.
    - unfold s1'. rewrite E1. done. }
  assert (map_get i (TOASTS s2) = None) as Hgone.
  { rewrite E2. simpl. rewrite map_get_delete. by case_decide. }
  split; [done|]. split; [|split].
  - rewrite E2. simpl. rewrite E1. simpl.
    by rewrite Hel, !list_lookup_alter_eq, Hx.
  - rewrite E2. simpl. by rewrite E1.
  - unfold dismiss. rewrite Hgone. by destruct (negb _).
Qed.

Lemma dismissal_sequence_witness :
  let call := {| id := Present (Some "a"); title := Absent; message := Absent;
                 type := Absent; duration := Absent; closable := Absent;
                 pauseOnHover := Absent; position := Absent;
                 containerClass := Absent; toastClass := Absent;
                 injectStyles := Absent; onClose := Present (Some (UserCb 7));
                 render := Absent |} in
  let tr := [ENotify (Opts call) None "k3x9q1"] in
  let s := run tr (init true 0) in
  let s2 := run [ETick 220; EFire 2] (dismiss "a" s) in
  ∃ o x, map_get "a" (TOASTS s) = Some O ∧ heap s !! O = Some o ∧
         elems s !! O = Some x ∧
         map_get "a" (TOASTS s2) = None ∧ closeLog s2 = closeLog s ++ invoked o.
Proof.
  intros call tr s s2. eexists _, _.
  assert (map_get "a" (TOASTS s) = Some O) as Hg by (vm_compute; reflexivity).
  split; [exact Hg|].
  split; [vm_compute; reflexivity|]. split; [vm_compute; reflexivity|].
  refine ((fun H => conj (proj1 (proj2 H)) (proj1 (proj2 (proj2 (proj2 H)))))
            (dismissal_sequence 0 tr "a" O _ _ Hg _ _)).
  - vm_compute; reflexivity.
  - vm_compute; reflexivity.
Defined.

Lemma fire_auto t h o tm s :
  timers s !! t = Some tm → callback tm = AutoDismiss h → due tm <= now s →
  heap s !! h = Some o → browser s = true →
  map_get (toast_id o) (TOASTS s) = Some h →
  fire t s = dismissed (toast_id o) h o (with_timers (delete t (timers s)) s).
Proof.
  intros Ht Hcb Hdue Ho Hb Hg. unfold fire. rewrite Ht, Hcb.
  case_decide; [|lia]. simpl. rewrite Ho. by apply dismiss_eq.
Qed.

(** The life of a timed toast that nobody touches. A toast shown with a
    positive duration [d] below 2^31, the range in which the platform
    takes a delay as it is, keeps its timer pending until [d] ms have
    passed;
    when the timer then fires the toast is hidden and its removal is
    scheduled 220 ms later; when that callback runs the toast is
    unregistered and detached and its [onClose] is invoked once. *)
Theorem auto_dismiss_sequence b t0 tr a b' rnd s1 i d :
  let s := run tr (init b t0) in
  let o1 := resolved (globalConfig s) (now s) rnd (optsBase a b') in
  let h := length (heap s) in
  let e := length (elems s) in
  let t := nextTimer s in
  let s2 := run [ETick (Z.to_N d); EFire t] s1 in
  let s3 := run [ETick 220; EFire (S t)] s2 in
  notify a b' rnd s = (s1, Returned (Some i)) →
  rd (duration o1) = Some d → 0 < d < 2 ^ 31 →
  (∀ ms, Z.of_N ms < d → fire t (step (ETick ms) s1) = step (ETick ms) s1) ∧
  (map_get i (TOASTS s2) = Some h ∧ (hide <$> elems s2 !! e) = Some true ∧
   timers s2 !! t = None ∧
   timers s2 !! S t
   = Some {| callback := Removal i h; delay := Some 220; due := now s + d + 220 |}) ∧
  (map_get i (TOASTS s3) = None ∧ (parent <$> elems s3 !! e) = Some None ∧
   closeLog s3
   = closeLog s ++ match rd (onClose o1) with Some cb => [cb] | None => [] end).
Proof.
  intros s o1 h e t s2 s3 E Hd Hpos.
  destruct (notify_cases _ _ _ _ _ _ E)
    as [(_ & _ & ?)|[(_ & ? & _)|(? & c & x & [= <-] & Hsh)]]; [done..|].
  fold s o1 in Hsh. destruct Hsh.
  assert (timers s1 !! t = Some (auto_timer o1 s)) as Ht.
  { rewrite sh_timers0, Hd. destruct d; [lia| |lia]. by rewrite lookup_insert_eq. }
  assert (nextTimer s1 = S t) as Hn.
  { rewrite sh_nextTimer0, Hd. by destruct d; [lia| |lia]. }
  assert (due (auto_timer o1 s) = now s + d) as Hdue.
  { unfold auto_timer. simpl. rewrite Hd. by rewrite timeout_ms_small by lia. }
  assert (heap s1 !! h = Some (new_toast o1 i s)) as Hh.
  { rewrite sh_heap0. by apply list_lookup_middle. }
  assert (map_get i (TOASTS s1) = Some h) as Hg.
  { rewrite sh_TOASTS0, map_get_set. by case_decide. }
  assert (elems s1 !! e = Some x) as Hx.
  { rewrite sh_elems0. by apply list_lookup_middle. }
  split.
  { intros ms Hms. unfold fire. simpl. rewrite Ht. case_decide; [|done].
    rewrite Hdue, sh_now0 in *. lia. }
  set (s1' := with_now (now s1 + Z.of_N (Z.to_N d)) s1).
  set (s1'' := with_timers (delete t (timers s1')) s1').
  assert (s2 = dismissed i h (new_toast o1 i s) s1'') as E2.
  { unfold s2, run. simpl. fold s1'.
    apply (fire_auto t h (new_toast o1 i s) (auto_timer o1 s) s1');
      [exact Ht|done| |exact Hh|done|exact Hg].
    rewrite Hdue. unfold s1'. simpl. rewrite sh_now0. lia. }
  assert (timers s2 !! S t = Some (removal_timer i h s1'')) as Hrm.
  { rewrite E2. simpl. rewrite Hn. by rewrite lookup_insert_eq. }
  assert (now s2 = now s + d) as Hnow2.
  { rewrite E2. simpl. rewrite sh_now0. lia. }
  split.
  { split; [by rewrite E2|]. split; [|split].
    - rewrite E2. simpl. fold e. by rewrite list_lookup_alter_eq, Hx.
    - rewrite E2. simpl. rewrite Hn. rewrite lookup_insert_ne by lia.
      unfold cancel, new_toast. simpl. rewrite Hd.
      destruct d; [lia| |lia]. simpl. unfold t.
      destruct (nextTimer s); simpl; by rewrite lookup_delete_eq.
    - rewrite Hrm. unfold removal_timer. simpl. rewrite sh_now0.
      do 2 f_equal. lia. }
  set (s2' := with_now (now s2 + 220) s2).
  assert (s3 = removed i (new_toast o1 i s)
                 (with_timers (delete (S t) (timers s2')) s2')) as E3.
  { unfold s3, run. simpl. fold s2'.
    apply (fire_removal (S t) i h _ (removal_timer i h s1'') s2');
      [exact Hrm|done| |].
    - unfold s2'. rewrite E2. simpl. lia.
    - unfold s2'. rewrite E2. done. }
  split; [|split].
  - rewrite E3. simpl. rewrite map_get_delete. by case_decide.
  - rewrite E3. simpl. rewrite E2. simpl. fold e.
    by rewrite !list_lookup_alter_eq, Hx.
  - rewrite E3. simpl. rewrite E2. simpl. by rewrite sh_closeLog0.
Qed.

Lemma auto_dismiss_sequence_witness :
  let s := run [] (init true 0) in
  let s1 := (notify (Msg "saved") None "k3x9q1" s).1 in
  let s2 := run [ETick (Z.to_N 4000); EFire (nextTimer s)] s1 in
  let s3 := run [ETick 220; EFire (S (nextTimer s))] s2 in
  notify (Msg "saved") None "k3x9q1" s = (s1, Returned (Some "t_0_k3x9q1")) ∧
  map_get "t_0_k3x9q1" (TOASTS s3) = None.
Proof.
  intros s s1 s2 s3.
  assert (notify (Msg "saved") None "k3x9q1" s = (s1, Returned (Some "t_0_k3x9q1")))
    as E by (vm_compute; reflexivity).
  assert (rd (duration (resolved (globalConfig s) (now s) "k3x9q1"
                          (optsBase (Msg "saved") None))) = Some 4000)
    as Hd by (vm_compute; reflexivity).
  assert (0 < 4000 < 2 ^ 31) as Hpos by lia.
  split; [exact E|].
  exact (proj1 (proj2 (proj2
           (auto_dismiss_sequence true 0 [] (Msg "saved") None "k3x9q1" s1
              "t_0_k3x9q1" 4000 E Hd Hpos)))).
Defined.

(** ** Hover bookkeeping *)

Lemma mouseenter_eq e x hv o s :
  elems s !! e = Some x → hover x = Some hv → heap s !! internal hv = Some o →
  truthy_num (timeoutId o) = true →
  mouseenter e s = entered e hv o s.
Proof.
  intros Hx Hhv Ho Ht. unfold mouseenter, entered, cancel.
  rewrite Hx, Hhv, Ho, Ht. by destruct (timeoutId o).
Qed.

(** Pausing and resuming moves the deadline by the time spent hovering.
    In a reachable state, for an element with hover listeners whose object
    names a pending timer: if the clock reads [elapsed] ms more than at the
    last (re)start, more than that was remaining, and the numbers are in
    the ranges where the source's subtractions and the platform's delay
    are exact (the [elapsed] time below 2^53 in size, the time then left
    below 2^31), then [mouseenter], a stay of [ms] milliseconds and
    [mouseleave] replace the pending timer by one timer that is due
    [remaining - elapsed] ms after the pointer leaves. *)
Theorem hover_moves_deadline b t0 tr e x hv o t tm r ms :
  let s := run tr (init b t0) in
  let elapsed := now s - start hv in
  let s3 := run [EMouseEnter e; ETick ms; EMouseLeave e] s in
  elems s !! e = Some x → hover x = Some hv → heap s !! internal hv = Some o →
  timeoutId o = Some t → timers s !! t = Some tm →
  remaining hv = Some r →
  Z.abs elapsed < 2 ^ 53 → elapsed < r → r - elapsed < 2 ^ 31 →
  timers s3
  = <[nextTimer s := {| callback := HoverResume (internal hv);
                        delay := Some (r - elapsed);
                        due := now s + Z.of_N ms + (r - elapsed) |}]>
      (delete t (timers s)) ∧
  (∃ o', heap s3 !! internal hv = Some o' ∧ timeoutId o' = Some (nextTimer s)) ∧
  (∃ x', elems s3 !! e = Some x' ∧
         hover x' = Some {| internal := internal hv; remaining := Some (r - elapsed);
                            start := now s + Z.of_N ms |}).
Proof.
  intros s elapsed s3 Hx Hhv Ho Hto Htm Hr Hsafe Hlt H31.
  pose proof (Inv_run b t0 tr) as HI. fold s in HI.
  destruct (inv_timers _ HI _ _ Htm) as [[Hge _] _].
  assert (truthy_num (timeoutId o) = true) as Htr.
  { rewrite Hto. destruct t; [lia|done]. }
  pose proof (mouseenter_eq e x hv o s Hx Hhv Ho Htr) as E1.
  set (s1 := with_now (now (entered e hv o s) + Z.of_N ms) (entered e hv o s)).
  assert (Z.max 0 (fsub r (fsub (now s) (start hv))) = r - elapsed) as Hmax.
  { rewrite (fsub_small (now s)) by done. fold elapsed.
    rewrite fsub_small by lia. lia. }
  assert (timeout_ms (Some (r - elapsed)) = r - elapsed) as Hms
    by (apply timeout_ms_small; lia).
  assert (elems s1 !! e = Some (set_hover (Some (paused hv s)) x)) as Hx1.
  { unfold s1, entered. simpl. by rewrite list_lookup_alter_eq, Hx. }
  assert (s3 = left_hover e (paused hv s) (r - elapsed) s1) as E3.
  { unfold s3, run. simpl. rewrite E1. fold s1.
    apply (mouseleave_eq e _ (paused hv s) (r - elapsed) s1 Hx1); [done| |lia].
    unfold paused. simpl. rewrite Hr. simpl. by rewrite Hmax. }
  split; [|split].
  - rewrite E3. simpl. unfold resume_timer, cancel. rewrite Htr, Hto, Hms. simpl.
    do 3 f_equal.
  - rewrite E3. simpl. rewrite list_lookup_alter_eq, Ho. simpl. eauto.
  - rewrite E3. simpl. rewrite !list_lookup_alter_eq, Hx. simpl.
    eexists. split; [done|]. done.
Qed.

Lemma hover_moves_deadline_witness :
  let tr := [ENotify (Msg "saved") None "k3x9q1"; ETick 1500] in
  let s := run tr (init true 0) in
  let s3 := run [EMouseEnter 0; ETick 700; EMouseLeave 0] s in
  ∃ x hv o tm,
    elems s !! O = Some x ∧ hover x = Some hv ∧ heap s !! internal hv = Some o ∧
    timeoutId o = Some 1%nat ∧ timers s !! 1%nat = Some tm ∧
    remaining hv = Some 4000 ∧
    timers s3
    = <[nextTimer s := {| callback := HoverResume (internal hv);
                          delay := Some (4000 - (now s - start hv));
                          due := now s + Z.of_N 700 + (4000 - (now s - start hv)) |}]>
        (delete 1%nat (timers s)).
Proof.
  intros tr s s3. eexists _, _, _, _.
  split; [vm_compute; reflexivity|]. split; [vm_compute; reflexivity|].
  split; [vm_compute; reflexivity|]. split; [vm_compute; reflexivity|].
  split; [vm_compute; reflexivity|]. split; [vm_compute; reflexivity|].
  refine (proj1 (hover_moves_deadline true 0 tr O _ _ _ 1%nat _ 4000 700
                   _ _ _ _ _ _ _ _ _)).
  - vm_compute; reflexivity.
  - vm_compute; reflexivity.
  - vm_compute; reflexivity.
  - vm_compute; reflexivity.
  - vm_compute; reflexivity.
  - vm_compute; reflexivity.
  - vm_compute; reflexivity.
  - vm_compute; reflexivity.
  - vm_compute; reflexivity.
Defined.











(** ** The public entry points *)

Lemma resolved_with_type g t0 rnd base v :
  resolved g t0 rnd (with_type (Present v) (assign empty_opts base))
  = with_type (Present v) (resolved g t0 rnd base).
Proof.
  rewrite assign_empty_l. unfold resolved, merged.
  assert (id (assign (assign (assign empty_opts DEFAULTS) g) (with_type (Present v) base))
          = id (assign (assign (assign empty_opts DEFAULTS) g) base)) as Hid by done.
  rewrite Hid. by destruct (truthy_str _).
Qed.

Lemma setAutoDismiss_elems h s : elems (setAutoDismiss h s) = elems s.
Proof.
  unfold setAutoDismiss. destruct (heap s !! h) as [o|]; [|done].
  by destruct (rd (duration (opts o))) as [[| |]|]; destruct (timeoutId o).
Qed.

(** The element a successful [notify] appends is the one
    [buildToastElement] made, attached and given its hover closure. *)
Lemma notify_element a b rnd s s' i :
  notify a b rnd s = (s', Returned (Some i)) →
  let o1 := resolved (globalConfig s) (now s) rnd (optsBase a b) in
  ∃ e0 c hv, buildToastElement i o1 = Some e0 ∧
             elems s' = elems s ++ [set_hover hv (set_parent (Some c) e0)].
Proof.
  intros E o1. unfold notify, isBrowser in E. fold o1 in E.
  destruct (browser s); simpl in E; [|done].
  destruct (resolved_id_nonempty (globalConfig s) (now s) rnd (optsBase a b))
    as (i' & Hi & _). fold o1 in Hi. rewrite Hi in E. simpl in E.
  set (s1 := if truthy_bool (rd (injectStyles o1)) then injectDefaultStyles s else s) in *.
  assert (elems s1 = elems s) as E1.
  { unfold s1, injectDefaultStyles. destruct (truthy_bool _); [|done].
    by destruct (negb _), (styleInjected s). }
  assert (elems (containerFor (rd (position o1)) (rd (containerClass o1)) s1).1
          = elems s1) as E2.
  { unfold containerFor. destruct (negb _); [done|]. by destruct (_ !! _). }
  destruct (containerFor (rd (position o1)) (rd (containerClass o1)) s1) as [s2 [c|]];
    [|done].
  simpl in E2. destruct (buildToastElement i' o1) as [e0|] eqn:Hb; [|done].
  injection E as <- <-. exists e0, c. eexists. split; [done|].
  by rewrite setAutoDismiss_elems; simpl; rewrite E2, E1.
Qed.

(** [success], [error], [info] and [warning] behave as [notify] on the
    same arguments with the [type] forced: the toast they register has the
    options [notify] would have resolved, except [type], which is the
    wrapper's whatever the caller and the configuration say; its element
    has the class of that type; the returned identifier is the one
    [notify] would resolve. *)
Theorem wrapper_forces_type t a b rnd s s' i :
  notify_as t a b rnd s = (s', Returned (Some i)) →
  let o1 := resolved (globalConfig s) (now s) rnd (optsBase a b) in
  (success = notify_as success_t ∧ error = notify_as error_t ∧
   info = notify_as info_t ∧ warning = notify_as warning_t) ∧
  rd (id o1) = Some i ∧
  ∃ h o x, map_get i (TOASTS s') = Some h ∧ heap s' !! h = Some o ∧
           opts o = with_type (Present (Some t)) o1 ∧
           rd (type (opts o)) = Some t ∧
           elems s' !! el o = Some x ∧
           className x
           = "talx-toast talx-toast--" +:+ type_name t
             +:+ (if truthy_str (rd (toastClass o1))
                  then " " +:+ default "" (rd (toastClass o1)) else "").
Proof.
  intros E o1. split; [done|]. unfold notify_as in E.
  destruct (notify_element _ _ _ _ _ _ E) as (e0 & c' & hv & Hb & Hel).
  destruct (notify_cases _ _ _ _ _ _ E)
    as [(_ & _ & ?)|[(_ & ? & _)|(? & c & x & [= <-] & Hsh)]]; [done..|].
  simpl in Hsh, Hb. rewrite resolved_with_type in Hsh, Hb. fold o1 in Hsh, Hb.
  destruct Hsh. split; [done|].
  exists (length (heap s)), (new_toast (with_type (Present (Some t)) o1) i s).
  eexists.
  split; [rewrite sh_TOASTS0, map_get_set; by case_decide|].
  split; [rewrite sh_heap0; by apply list_lookup_middle|].
  split; [done|]. split; [done|].
  split; [rewrite Hel; by apply list_lookup_middle|].
  simpl. unfold buildToastElement in Hb.
  destruct (rd (render _)) as [[|f]|]; [|destruct (f _)|]; simplify_eq/=;
    by destruct (rd (toastClass o1)).
Qed.

Lemma wrapper_forces_type_witness :
  let call := with_type (Present (Some info_t)) empty_opts in
  let s := init true 0 in
  let s' := (notify_as error_t (Msg "failed") (Some call) "k3x9q1" s).1 in
  notify_as error_t (Msg "failed") (Some call) "k3x9q1" s
  = (s', Returned (Some "t_0_k3x9q1")) ∧
  rd (id (resolved (globalConfig s) (now s) "k3x9q1"
            (optsBase (Msg "failed") (Some call)))) = Some "t_0_k3x9q1".
Proof.
  intros call s s'.
  assert (notify_as error_t (Msg "failed") (Some call) "k3x9q1" s
          = (s', Returned (Some "t_0_k3x9q1"))) as E by (vm_compute; reflexivity).
  split; [exact E|].
  exact (proj1 (proj2 (wrapper_forces_type _ _ _ _ _ _ _ E))).
Defined.

Lemma notify_style a b rnd s :
  styleInjected (notify a b rnd s).1
  = styleInjected s
    || (browser s
        && truthy_bool (rd (injectStyles
                              (resolved (globalConfig s) (now s) rnd (optsBase a b))))).
Proof.
  unfold notify, isBrowser. destruct (browser s) eqn:Hb; simpl;
    [|by rewrite orb_false_r].
  set (o1 := resolved _ _ _ _).
  set (s1 := if truthy_bool (rd (injectStyles o1)) then injectDefaultStyles s else s).
  assert (styleInjected s1 = styleInjected s || truthy_bool (rd (injectStyles o1)))
    as E1.
  { unfold s1, injectDefaultStyles, isBrowser. rewrite Hb. simpl.
    destruct (truthy_bool _); [|by rewrite orb_false_r].
    by destruct (styleInjected s) eqn:Hs; simpl; rewrite ?Hs. }
  assert (styleInjected (containerFor (rd (position o1)) (rd (containerClass o1)) s1).1
          = styleInjected s1) as E2.
  { unfold containerFor. destruct (negb _); [done|]. by destruct (_ !! _). }
  destruct (containerFor (rd (position o1)) (rd (containerClass o1)) s1) as [s2 [c|]];
    simpl in *; [|by rewrite E2].
  destruct (buildToastElement _ o1); simpl; [|by rewrite E2].
  rewrite <- E1, <- E2. unfold setAutoDismiss. simpl.
  destruct (_ !! _) as [o|]; [|done].
  by destruct (rd (duration (opts o))) as [[| |]|]; destruct (timeoutId o).
Qed.

(** The default style sheet is injected by [notify] only, in a browser and
    when the resolved [injectStyles] is on; once injected it stays, and no
    other operation touches it. *)
Theorem style_sheet_injection ev s :
  styleInjected (step ev s) = styleInjected s || (browser s && wants_styles s ev).
Proof.
  destruct ev; simpl; rewrite ?andb_false_r, ?orb_false_r; try done.
  - apply notify_style.
  - unfold notify_as. apply notify_style.
  - by destruct (dismiss_cases id0 s) as [->|(h & o & _ & _ & _ & ->)].
  - unfold clear. destruct (negb _); [done|].
    generalize (map_keys (TOASTS s)). intros l. revert s.
    induction l as [|i l IH]; intros s; simpl; [done|]. rewrite IH.
    by destruct (dismiss_cases i s) as [->|(h & o & _ & _ & _ & ->)].
  - destruct (fire_cases t s) as [->|(tm & _ & _ & ->)]; [done|].
    simpl. destruct (callback tm) as [h|h|i h].
    + destruct (heap s !! h) as [o|]; [|done].
      by destruct (dismiss_cases (toast_id o) (with_timers (delete t (timers s)) s))
        as [->|(h' & o' & _ & _ & _ & ->)].
    + destruct (heap s !! h) as [o|]; [|done].
      destruct (rd (id (opts o))) as [i|]; [|done].
      by destruct (dismiss_cases i (with_timers (delete t (timers s)) s))
        as [->|(h' & o' & _ & _ & _ & ->)].
    + destruct (heap s !! h) as [o|] eqn:Ho.
      * by rewrite (removal_eq _ _ o (with_timers (delete t (timers s)) s)).
      * by rewrite removal_none.
  - by destruct (mouseenter_cases e s) as [->|(x & hv & o & _ & _ & _ & _ & ->)].
  - by destruct (mouseleave_cases e s) as [->|(x & hv & r & _ & _ & _ & _ & ->)].
  - unfold clickClose. destruct (elems s !! e) as [x|]; [|done].
    destruct (closeButton x); [|done].
    by destruct (dismiss_cases (data_tid x) s) as [->|(h & o & _ & _ & _ & ->)].
Qed.

Lemma buildToastElement_None i o :
  buildToastElement i o = None ↔
  ∃ f, rd (render o) = Some (RFun f) ∧
       f {| ra_id := i; ra_title := rd (title o); ra_message := rd (message o);
            ra_type := rd (type o) |} = OutThrow.
Proof.
  unfold buildToastElement. split.
  - destruct (rd (render o)) as [[|f]|]; [done| |done].
    destruct (f _) eqn:Hf; [done..|]. eauto.
  - intros (f & -> & ->). done.
Qed.

(** A renderer that throws makes [notify] throw, and the call is not
    undone: on a page where the code can render, when the custom renderer
    of the resolved options throws on the arguments [notify] gives it,
    [notify] throws; nothing is then registered, attached or scheduled,
    but the container has already been looked up or created and the style
    sheet injected. *)
Theorem renderer_failure a b rnd s f :
  let o1 := resolved (globalConfig s) (now s) rnd (optsBase a b) in
  let i := default "" (rd (id o1)) in
  let s' := (notify a b rnd s).1 in
  browser s = true →
  rd (render o1) = Some (RFun f) →
  f {| ra_id := i; ra_title := rd (title o1); ra_message := rd (message o1);
       ra_type := rd (type o1) |} = OutThrow →
  (notify a b rnd s).2 = Threw ∧
  TOASTS s' = TOASTS s ∧ heap s' = heap s ∧ elems s' = elems s ∧
  timers s' = timers s ∧ frames s' = frames s ∧ closeLog s' = closeLog s ∧
  is_Some (CONTAINERS s' !! containerKey (rd (position o1))
                                          (default "" (rd (containerClass o1)))) ∧
  styleInjected s' = styleInjected s || truthy_bool (rd (injectStyles o1)).
Proof.
  intros o1 i s' Hb Hrender Hf.
  assert (buildToastElement i o1 = None) as Hnone
    by (apply buildToastElement_None; eauto).
  assert ((notify a b rnd s).2 = Threw) as Hr.
  { destruct (notify a b rnd s) as [s'' r] eqn:E. simpl.
    destruct (notify_cases _ _ _ _ _ _ E)
      as [(? & _)|[(_ & ? & _)|(i' & c & x & _ & Hsh)]]; [congruence|done|].
    destruct (sh_built _ _ _ _ _ _ Hsh) as [e0 He0].
    fold o1 in He0. pose proof (sh_id _ _ _ _ _ _ Hsh) as Hid. fold o1 in Hid.
    unfold i in Hnone. rewrite Hid in Hnone. simpl in Hnone. congruence. }
  split; [done|].
  assert (page_ext s s' ∧
          is_Some (CONTAINERS s' !! containerKey (rd (position o1))
                                                  (default "" (rd (containerClass o1)))))
    as [[] Hkey].
  { unfold s'. destruct (notify a b rnd s) as [s'' r] eqn:E. simpl in Hr. subst r.
    destruct (notify_cases _ _ _ _ _ _ E)
      as [(_ & _ & ?)|[(_ & _ & Hp & _)|(? & c & x & ? & _)]]; [done| |done].
    split; [done|]. simpl.
    unfold notify, isBrowser in E. rewrite Hb in E. simpl in E. fold o1 i in E.
    set (s1 := if truthy_bool (rd (injectStyles o1)) then injectDefaultStyles s else s)
      in *.
    destruct (containerFor_browser (rd (position o1)) (rd (containerClass o1)) s1)
      as (s2 & c & Hc & _ & Hkey).
    { unfold s1, injectDefaultStyles, isBrowser. rewrite Hb. simpl.
      destruct (truthy_bool _); [|done]. by destruct (styleInjected s). }
    rewrite Hc, Hnone in E. injection E as <-. eauto. }
  repeat (split; [done|]).
  unfold s'. rewrite notify_style, Hb. done.
Qed.

Lemma renderer_failure_witness :
  let call := {| id := Absent; title := Absent; message := Present (Some "saved");
                 type := Absent; duration := Absent; closable := Absent;
                 pauseOnHover := Absent; position := Absent;
                 containerClass := Absent; toastClass := Absent;
                 injectStyles := Absent; onClose := Absent;
                 render := Present (Some (RFun (fun _ => OutThrow))) |} in
  let s := init true 0 in
  (notify (Opts call) None "k3x9q1" s).2 = Threw ∧
  TOASTS (notify (Opts call) None "k3x9q1" s).1 = TOASTS s.
Proof.
  intros call s.
  assert (browser s = true) as Hb by reflexivity.
  assert (rd (render (resolved (globalConfig s) (now s) "k3x9q1"
                        (optsBase (Opts call) None)))
          = Some (RFun (fun _ => OutThrow))) as Hr by (vm_compute; reflexivity).
  pose proof (renderer_failure (Opts call) None "k3x9q1" s _ Hb Hr eq_refl)
    as (H1 & H2 & _).
  split; [exact H1 | exact H2].
Defined.

(** ** Bulk dismissal *)

Lemma map_get_keys i h m : map_get i m = Some h → i ∈ map_keys m.
Proof.
  unfold map_keys. induction m as [|[k v] m IH]; simpl; [done|].
  case_decide; [subst; intros _; left | intros Hm; right; by apply IH].
Qed.

Lemma map_keys_get i m : i ∈ map_keys m → is_Some (map_get i m).
Proof.
  unfold map_keys. induction m as [|[k v] m IH]; simpl.
  - by intros ?%elem_of_nil.
  - case_decide; [eauto|]. intros [?|?]%elem_of_cons; [done | by apply IH].
Qed.

(** Dismissing the identifiers of a list one after the other, in a state
    where every [timeoutId] is below [n] and [n] is at most the next timer
    identifier. *)
Lemma dismiss_all_spec l n s :
  Inv s → browser s = true →
  (∀ h o t, heap s !! h = Some o → timeoutId o = Some t → (t < n)%nat) →
  (n ≤ nextTimer s)%nat →
  let s' := foldl (fun s i => dismiss i s) s l in
  TOASTS s' = TOASTS s ∧ heap s' = heap s ∧ now s' = now s ∧
  closeLog s' = closeLog s ∧ (nextTimer s ≤ nextTimer s')%nat ∧
  (Forall (fun i => is_Some (map_get i (TOASTS s))) l →
   nextTimer s' = (nextTimer s + length l)%nat) ∧
  (∀ t tm, (n ≤ t < nextTimer s)%nat → timers s !! t = Some tm →
           timers s' !! t = Some tm) ∧
  (∀ e x, elems s !! e = Some x → hide x = true →
          ∃ x', elems s' !! e = Some x' ∧ hide x' = true) ∧
  (∀ e x, elems s !! e = Some x →
          ∃ x', elems s' !! e = Some x' ∧ parent x' = parent x) ∧
  (∀ i h, i ∈ l → map_get i (TOASTS s) = Some h →
          (∃ t, (nextTimer s ≤ t < nextTimer s')%nat ∧
                timers s' !! t = Some (removal_timer i h s)) ∧
          (∃ x', elems s' !! h = Some x' ∧ hide x' = true)).
Proof.
  revert s. induction l as [|i l IH]; intros s HI Hb Hto Hn; simpl.
  { repeat split; eauto; try lia.
    all: by match goal with H : _ ∈ [] |- _ => apply elem_of_nil in H end. }
  assert (Inv (dismiss i s)) as HI1 by by apply Inv_dismiss.
  assert (TOASTS (dismiss i s) = TOASTS s ∧ heap (dismiss i s) = heap s ∧
          now (dismiss i s) = now s ∧ closeLog (dismiss i s) = closeLog s ∧
          browser (dismiss i s) = true ∧ (nextTimer s ≤ nextTimer (dismiss i s))%nat ∧
          (is_Some (map_get i (TOASTS s)) →
           nextTimer (dismiss i s) = S (nextTimer s)) ∧
          (∀ t tm, (n ≤ t < nextTimer s)%nat → timers s !! t = Some tm →
                   timers (dismiss i s) !! t = Some tm) ∧
          (∀ e x, elems s !! e = Some x →
                  ∃ x', elems (dismiss i s) !! e = Some x' ∧ parent x' = parent x ∧
                        (hide x = true → hide x' = true)) ∧
          (∀ h, map_get i (TOASTS s) = Some h →
                timers (dismiss i s) !! nextTimer s = Some (removal_timer i h s)) ∧
          (∀ h, map_get i (TOASTS s) = Some h →
                ∃ x', elems (dismiss i s) !! h = Some x' ∧ hide x' = true))
    as (ET & EH & EN & EL & Hb1 & Hn1 & Hn1' & Hkeep & Hel & Hnew & Hnewx).
  { destruct (map_get i (TOASTS s)) as [h|] eqn:Hg.
    - destruct (inv_reg _ HI _ _ Hg) as (o & x & Ho & Hi & Hx & _).
      destruct (inv_heap _ HI _ _ Ho) as (Hel & _).
      rewrite (dismiss_eq i h o s Hb Hg Ho). simpl.
      do 5 (split; [done|]). split; [lia|]. split; [done|].
      split; [|split; [|split]].
      + intros t tm Ht Htm. rewrite lookup_insert_ne by lia.
        unfold cancel. destruct (truthy_num _); [|done].
        destruct (timeoutId o) as [t'|] eqn:Ht'; [|done].
        specialize (Hto _ _ _ Ho Ht'). rewrite lookup_delete_ne by lia. done.
      + intros e y Hy. rewrite list_lookup_alter. case_decide; subst.
        * rewrite Hy. simpl. eauto.
        * eauto.
      + intros h' [= <-]. by rewrite lookup_insert_eq.
      + intros h' [= <-]. rewrite Hel, list_lookup_alter_eq, Hx. simpl. eauto.
    - assert (dismiss i s = s) as ->.
      { unfold dismiss. rewrite Hg. by destruct (negb _). }
      do 5 (split; [done|]). split; [lia|]. split; [by intros [? [=]]|].
      split; [done|]. split; [eauto|]. done. }
  destruct (IH (dismiss i s) HI1 Hb1) as (ET' & EH' & EN' & EL' & Hn' & Hlen & Hkeep' & Hhid' & Hpar' & Hall');
    [by rewrite EH|lia|].
  split; [congruence|]. split; [congruence|]. split; [congruence|].
  split; [congruence|]. split; [lia|]. split; [|split; [|split; [|split]]].
  - intros [Hi Hl]%Forall_cons. rewrite Hlen, (Hn1' Hi); [lia|]. by rewrite ET.
  - intros t tm Ht Htm. apply Hkeep'; [lia|]. by apply Hkeep.
  - intros e x Hx Hh. destruct (Hel _ _ Hx) as (x1 & Hx1 & _ & Hh1). eauto.
  - intros e x Hx. destruct (Hel _ _ Hx) as (x1 & Hx1 & Hp1 & _).
    destruct (Hpar' _ _ Hx1) as (x2 & ? & ?). exists x2. split; [done|congruence].
  - intros j h [->|Hj]%elem_of_cons Hg.
    + pose proof (Hnew _ Hg) as Ht. destruct (Hnewx _ Hg) as (x1 & Hx1 & Hh1).
      pose proof (Hn1' ltac:(eauto)) as Hnx. split.
      * exists (nextTimer s). split; [lia|]. apply Hkeep'; [lia|done].
      * eauto.
    + rewrite <- ET in Hg. destruct (Hall' _ _ Hj Hg) as ((t & Ht & Htm) & Hx').
      split; [|done]. exists t. split; [lia|].
      rewrite Htm. unfold removal_timer. by rewrite EN.
Qed.

(** [clear] dismisses every registered toast and nothing else. In a
    reachable browser state it schedules exactly one removal callback per
    registered toast, each due in 220 ms, hides every registered toast's
    element and leaves it attached, and leaves the registry and the
    [onClose] trace as they are until those callbacks run. *)
Theorem clear_dismisses_all t0 tr i h x :
  let s := run tr (init true t0) in
  map_get i (TOASTS s) = Some h → elems s !! h = Some x →
  TOASTS (clear s) = TOASTS s ∧ closeLog (clear s) = closeLog s ∧
  nextTimer (clear s) = (nextTimer s + length (TOASTS s))%nat ∧
  (∃ t, (nextTimer s ≤ t < nextTimer (clear s))%nat ∧
        timers (clear s) !! t = Some (removal_timer i h s)) ∧
  (∃ x', elems (clear s) !! h = Some x' ∧ hide x' = true ∧ parent x' = parent x).
Proof.
  intros s Hg Hx.
  pose proof (Inv_run true t0 tr) as HI. fold s in HI.
  assert (browser s = true) as Hb by apply browser_run.
  unfold clear, isBrowser. rewrite Hb. simpl.
  destruct (dismiss_all_spec (map_keys (TOASTS s)) (nextTimer s) s HI Hb)
    as (ET & EH & EN & EL & Hn & Hlen & _ & _ & Hpar & Hall); [|done|].
  { intros h' o t Ho Ht. destruct (inv_heap _ HI _ _ Ho) as (_ & _ & Hlt).
    specialize (Hlt _ Ht). lia. }
  split; [done|]. split; [done|]. split; [|split].
  - rewrite Hlen; [by unfold map_keys; rewrite length_fmap|].
    apply Forall_forall. intros j Hj. by apply map_keys_get.
  - by destruct (Hall i h (map_get_keys _ _ _ Hg) Hg) as [? _].
  - destruct (Hall i h (map_get_keys _ _ _ Hg) Hg) as [_ (x' & Hx' & Hh)].
    destruct (Hpar _ _ Hx) as (x'' & Hx'' & Hp). simplify_eq. eauto.
Qed.

Lemma clear_dismisses_all_witness :
  let tr := [ENotify (Msg "one") None "k3x9q1"; ETick 5;
             ENotify (Msg "two") None "p0w2zz"] in
  let s := run tr (init true 0) in
  ∃ x, map_get "t_5_p0w2zz" (TOASTS s) = Some 1%nat ∧ elems s !! 1%nat = Some x ∧
       TOASTS (clear s) = TOASTS s ∧ closeLog (clear s) = closeLog s ∧
       nextTimer (clear s) = (nextTimer s + length (TOASTS s))%nat.
Proof.
  intros tr s. eexists.
  assert (map_get "t_5_p0w2zz" (TOASTS s) = Some 1%nat) as Hg
    by (vm_compute; reflexivity).
  split; [exact Hg|]. split; [vm_compute; reflexivity|].
  refine ((fun H => conj (proj1 H) (conj (proj1 (proj2 H)) (proj1 (proj2 (proj2 H)))))
            (clear_dismisses_all 0 tr "t_5_p0w2zz" 1%nat _ Hg _)).
  vm_compute; reflexivity.
Defined.

(** ** What changes the registry and the [onClose] trace *)

Lemma dismiss_quiet i s :
  TOASTS (dismiss i s) = TOASTS s ∧ closeLog (dismiss i s) = closeLog s.
Proof. by destruct (dismiss_cases i s) as [->|(h & o & _ & _ & _ & ->)]. Qed.

Lemma clear_quiet s : TOASTS (clear s) = TOASTS s ∧ closeLog (clear s) = closeLog s.
Proof.
  unfold clear. destruct (negb _); [done|].
  generalize (map_keys (TOASTS s)). intros l. revert s.
  induction l as [|i l IH]; intros s; simpl; [done|].
  destruct (IH (dismiss i s)) as [-> ->]. apply dismiss_quiet.
Qed.

Lemma notify_quiet a b rnd s :
  let i := default "" (rd (id (resolved (globalConfig s) (now s) rnd (optsBase a b)))) in
  closeLog (notify a b rnd s).1 = closeLog s ∧
  (TOASTS (notify a b rnd s).1 = TOASTS s ∨
   TOASTS (notify a b rnd s).1 = map_set i (length (heap s)) (TOASTS s)).
Proof.
  intros i. destruct (notify a b rnd s) as [s' r] eqn:E. simpl.
  destruct (notify_cases _ _ _ _ _ _ E)
    as [(_ & -> & _)|[(_ & _ & [] & _)|(i' & c & x & _ & [])]]; [by split; [|left]|..].
  - split; [done|by left].
  - split; [done|]. right. unfold i. by rewrite sh_id0.
Qed.

(** The registry changes only when [notify] registers a toast and when a
    removal callback runs; [onClose] is invoked only when a removal
    callback runs, once per run, for the toast the callback was scheduled
    for. In particular [dismiss] and [clear] themselves neither unregister
    a toast nor invoke [onClose]. *)
Theorem registry_and_close_changes ev s :
  (TOASTS (step ev s) = TOASTS s ∧ closeLog (step ev s) = closeLog s) ∨
  (∃ i, event_id s ev = Some i ∧
        TOASTS (step ev s) = map_set i (length (heap s)) (TOASTS s) ∧
        closeLog (step ev s) = closeLog s) ∨
  (∃ t tm i h o, ev = EFire t ∧ timers s !! t = Some tm ∧
                 callback tm = Removal i h ∧ due tm <= now s ∧
                 heap s !! h = Some o ∧
                 TOASTS (step ev s) = map_delete i (TOASTS s) ∧
                 closeLog (step ev s) = closeLog s ++ invoked o).
Proof.
  destruct ev; simpl; try (by left).
  - destruct (notify_quiet messageOrOpts maybeOpts rnd s) as [El [ET|ET]];
      [by left|right; left; eauto].
  - unfold notify_as.
    destruct (notify_quiet (Opts (with_type (Present (Some t))
                (assign empty_opts (optsBase msgOrOpts maybe)))) None rnd s)
      as [El [ET|ET]]; [by left|right; left; eauto].
  - left. apply dismiss_quiet.
  - left. apply clear_quiet.
  - destruct (fire_cases t s) as [->|(tm & Ht & Hdue & ->)]; [by left|].
    simpl. destruct (callback tm) as [h|h|i h] eqn:Hcb.
    + left. destruct (heap s !! h) as [o|]; [|done].
      apply (dismiss_quiet _ (with_timers (delete t (timers s)) s)).
    + left. destruct (heap s !! h) as [o|]; [|done].
      destruct (rd (id (opts o))); [|done].
      apply (dismiss_quiet _ (with_timers (delete t (timers s)) s)).
    + destruct (heap s !! h) as [o|] eqn:Ho.
      * right. right. exists t, tm, i, h, o.
        rewrite (removal_eq _ _ o (with_timers (delete t (timers s)) s)) by done.
        by repeat split.
      * left. by rewrite removal_none.
  - left. by destruct (mouseenter_cases e s) as [->|(x & hv & o & _ & _ & _ & _ & ->)].
  - left. by destruct (mouseleave_cases e s) as [->|(x & hv & r & _ & _ & _ & _ & ->)].
  - left. unfold clickClose. destruct (elems s !! e) as [x|]; [|done].
    destruct (closeButton x); [apply dismiss_quiet | done].
Qed.

(** ** Animation frames *)

Lemma unhide_foldl (l : list nat) (es : list ToastEl) e x :
  es !! e = Some x →
  foldl (fun es e => alter (set_hide false) e es) es l !! e
  = Some (if bool_decide (e ∈ l) then set_hide false x else x).
Proof.
  revert es x. induction l as [|e' l IH]; intros es x Hx; simpl; [done|].
  destruct (decide (e' = e)) as [->|Hne].
  - rewrite (IH _ (set_hide false x)) by by rewrite list_lookup_alter_eq, Hx.
    rewrite (bool_decide_eq_true_2 (e ∈ e :: l)) by left.
    by case_bool_decide.
  - rewrite (IH _ x) by by rewrite list_lookup_alter_ne.
    destruct (decide (e ∈ l)).
    + rewrite !bool_decide_eq_true_2; [done|by right|done].
    + rewrite !bool_decide_eq_false_2; [done| |done].
      intros [?|?]%elem_of_cons; congruence.
Qed.

(** The animation-frame callbacks queued by [notify] clear the hide class
    of their elements and nothing else, whether or not the toast has been
    dismissed in the meantime: a toast dismissed before its first frame is
    shown again by that frame while its removal stays scheduled. *)
Theorem frame_unhides_queued e x s :
  elems s !! e = Some x →
  elems (frame s) !! e
  = Some (if bool_decide (e ∈ frames s) then set_hide false x else x) ∧
  frames (frame s) = [] ∧
  TOASTS (frame s) = TOASTS s ∧ timers (frame s) = timers s ∧ heap (frame s) = heap s.
Proof.
  intros Hx. split; [|done]. by apply unhide_foldl.
Qed.

Lemma frame_unhides_queued_witness :
  let s := run [ENotify (Msg "saved") None "k3x9q1"; EDismiss "t_0_k3x9q1"]
               (init true 0) in
  ∃ x, elems s !! O = Some x ∧ hide x = true ∧
       elems (frame s) !! O
       = Some (if bool_decide (O ∈ frames s) then set_hide false x else x).
Proof.
  intros s. eexists.
  split; [vm_compute; reflexivity|]. split; [vm_compute; reflexivity|].
  refine (proj1 (frame_unhides_queued O _ s _)).
  vm_compute; reflexivity.
Defined.

(** ** Generated ids *)

Lemma digit36_cases d :
  (d < 36)%N ∨ digit36 d = "0"%char.
Proof.
  destruct (N.lt_ge_cases d 36) as [?|Hge]; [by left|right].
  unfold digit36. apply nth_overflow. simpl. lia.
Qed.

Lemma value36_digit36 d : (d < 36)%N → value36 (digit36 d) = d.
Proof.
  intros Hd.
  assert (forallb (fun k => N.eqb (value36 (digit36 (N.of_nat k))) (N.of_nat k))
                  (seq 0 36) = true) as H by (vm_compute; reflexivity).
  rewrite forallb_forall in H.
  specialize (H (N.to_nat d)). rewrite N2Nat.id in H.
  apply N.eqb_eq, H, in_seq. lia.
Qed.

Lemma digit36_plain d : digit36 d ≠ "_"%char ∧ digit36 d ≠ "-"%char.
Proof.
  destruct (digit36_cases d) as [Hd|E]; [|by rewrite E].
  assert (forallb (fun k => negb (Ascii.eqb (digit36 (N.of_nat k)) "_")
                            && negb (Ascii.eqb (digit36 (N.of_nat k)) "-"))
                  (seq 0 36) = true) as H by (vm_compute; reflexivity).
  rewrite forallb_forall in H.
  specialize (H (N.to_nat d)). rewrite N2Nat.id in H.
  assert (In (N.to_nat d) (seq 0 36)) as Hin by (apply in_seq; lia).
  apply H, andb_prop in Hin as [H1 H2].
  apply negb_true_iff, Ascii.eqb_neq in H1, H2. done.
Qed.

Lemma append_cons c s t : String c s +:+ t = String c (s +:+ t).
Proof. reflexivity. Qed.

Lemma append_nil t : "" +:+ t = t.
Proof. reflexivity. Qed.

Local Ltac unappend := rewrite ?append_cons, ?append_nil.

Lemma digits36_acc fuel n acc :
  digits36 fuel n acc = digits36 fuel n "" +:+ acc.
Proof.
  revert n acc. induction fuel as [|f IH]; intros n acc; simpl; [done|].
  destruct (n / 36 =? 0)%N; [done|].
  rewrite (IH _ (String _ acc)), (IH _ (String _ "")).
  generalize (digits36 f (n / 36) ""). intros s.
  induction s as [|c s IHs]; unappend; [done|by f_equal].
Qed.

Lemma parse36_app a s t : parse36 a (s +:+ t) = parse36 (parse36 a s) t.
Proof. revert a. induction s as [|c s IH]; intros a; unappend; simpl; [done|apply IH]. Qed.

Lemma every_app P s t : every P (s +:+ t) ↔ every P s ∧ every P t.
Proof. induction s as [|c s IH]; unappend; simpl; [tauto|]. rewrite IH. tauto. Qed.

Lemma digits36_every (P : ascii → Prop) fuel n acc :
  (∀ d, P (digit36 d)) → every P acc → every P (digits36 fuel n acc).
Proof.
  intros HP. revert n acc. induction fuel as [|f IH]; intros n acc Hacc; simpl; [done|].
  destruct (n / 36 =? 0)%N; [by split|]. apply IH. by split.
Qed.

(** With enough fuel the digits read back as the number. *)
Lemma parse36_digits36 fuel n :
  (n < 2 ^ N.of_nat fuel)%N → parse36 0 (digits36 fuel n "") = n.
Proof.
  revert n. induction fuel as [|f IH]; intros n Hn.
  - simpl in *. lia.
  - assert (n mod 36 < 36)%N as Hm by (apply N.mod_lt; lia).
    pose proof (N.div_mod n 36 ltac:(lia)) as Hdm.
    simpl digits36. destruct (n / 36 =? 0)%N eqn:E.
    + apply N.eqb_eq in E. simpl. rewrite value36_digit36 by done. lia.
    + rewrite digits36_acc, parse36_app, IH; [simpl; rewrite value36_digit36 by done; lia|].
      rewrite Nat2N.inj_succ, N.pow_succ_r' in Hn.
      apply N.Div0.div_lt_upper_bound. lia.
Qed.

Lemma size_nat_bound p : (N.pos p < 2 ^ N.of_nat (Pos.size_nat p))%N.
Proof.
  induction p as [p IH|p IH|]; cbn [Pos.size_nat];
    rewrite ?Nat2N.inj_succ, ?N.pow_succ_r'; simpl; lia.
Qed.

Lemma digits36_nonempty fuel n : fuel ≠ O → digits36 fuel n "" ≠ "".
Proof.
  destruct fuel as [|f]; [done|]. intros _. simpl.
  destruct (n / 36 =? 0)%N; [done|]. rewrite digits36_acc.
  by destruct (digits36 f (n / 36) "").
Qed.

Lemma size_nat_pos p : Pos.size_nat p ≠ O.
Proof. by destruct p. Qed.

(** [toString(36)] never writes an underscore. *)
Lemma toString36_plain z : every (fun c => c ≠ "_"%char) (toString36 z).
Proof.
  destruct z as [|p|p]; unfold toString36; unappend; simpl; [done|..].
  - apply digits36_every; [apply digit36_plain|done].
  - split; [done|]. apply digits36_every; [apply digit36_plain|done].
Qed.

(** A numeral of a positive number starts with a digit. *)
Lemma digits36_head p c s :
  digits36 (Pos.size_nat p) (N.pos p) "" = String c s → c ≠ "-"%char.
Proof.
  intros E.
  pose proof (digits36_every (fun c => c ≠ "-"%char) (Pos.size_nat p) (N.pos p) ""
                (fun d => proj2 (digit36_plain d)) I) as H.
  rewrite E in H. apply H.
Qed.

Lemma toString36_inj z1 z2 : toString36 z1 = toString36 z2 → z1 = z2.
Proof.
  assert (∀ p, parse36 0 (digits36 (Pos.size_nat p) (N.pos p) "") = N.pos p) as Hp
    by (intros p; apply parse36_digits36, size_nat_bound).
  destruct z1 as [|p|p], z2 as [|q|q]; unfold toString36; unappend; intros E; try done.
  - pose proof (Hp q) as H. rewrite <- E in H. done.
  - pose proof (Hp p) as H. rewrite E in H. done.
  - pose proof (Hp p) as H. rewrite E, Hp in H. by simplify_eq.
  - by apply digits36_head in E.
  - symmetry in E. by apply digits36_head in E.
  - injection E as E. pose proof (Hp p) as H. rewrite E, Hp in H. by simplify_eq.
Qed.

(** Two strings without an underscore, each followed by an underscore and a
    rest, are equal as wholes only if they and the rests are equal. *)
Lemma underscore_split s1 s2 r1 r2 :
  every (fun c => c ≠ "_"%char) s1 → every (fun c => c ≠ "_"%char) s2 →
  s1 +:+ "_" +:+ r1 = s2 +:+ "_" +:+ r2 → s1 = s2 ∧ r1 = r2.
Proof.
  revert s2. induction s1 as [|c s1 IH]; intros [|c2 s2]; unappend; simpl;
    intros H1 H2 E.
  - by simplify_eq.
  - injection E as E1 _. subst. by destruct H2.
  - injection E as E1 _. subst. by destruct H1.
  - injection E as E1 E. subst. destruct (IH s2) as [-> ->]; tauto.
Qed.

Lemma makeId_inj t1 r1 t2 r2 : makeId t1 r1 = makeId t2 r2 → t1 = t2 ∧ r1 = r2.
Proof.
  unfold makeId. unappend. intros E. injection E as E.
  apply underscore_split in E as [E ->]; [|apply toString36_plain..].
  by apply toString36_inj in E.
Qed.

(** When neither call is given an id, [notify] resolves two calls to the
    same id only if they happen in the same millisecond with the same
    random suffix: the generated id determines the clock reading and the
    suffix, both readable from it; and a generated id is never empty, so
    it is kept as it is. *)
Theorem generated_ids_distinct g1 g2 t1 t2 r1 r2 b1 b2 :
  truthy_str (rd (id (merged g1 b1))) = false →
  truthy_str (rd (id (merged g2 b2))) = false →
  t1 ≠ t2 ∨ r1 ≠ r2 →
  rd (id (resolved g1 t1 r1 b1)) = Some (makeId t1 r1) ∧
  rd (id (resolved g2 t2 r2 b2)) = Some (makeId t2 r2) ∧
  makeId t1 r1 ≠ makeId t2 r2 ∧
  truthy_str (Some (makeId t1 r1)) = true.
Proof.
  intros H1 H2 Hne. unfold resolved. rewrite H1, H2.
  split; [done|]. split; [done|]. split; [|done].
  intros [? ?]%makeId_inj. tauto.
Qed.

Lemma generated_ids_distinct_witness :
  let g := with_type (Present (Some success_t)) empty_opts in
  let b1 := optsBase (Msg "saved") None in
  let b2 := optsBase (Msg "saved") None in
  rd (id (resolved g 1762128000000 "k3x9q1" b1)) = Some (makeId 1762128000000 "k3x9q1") ∧
  rd (id (resolved g 1762128000001 "k3x9q1" b2)) = Some (makeId 1762128000001 "k3x9q1") ∧
  makeId 1762128000000 "k3x9q1" ≠ makeId 1762128000001 "k3x9q1" ∧
  truthy_str (Some (makeId 1762128000000 "k3x9q1")) = true.
Proof.
  intros g b1 b2.
  apply (generated_ids_distinct g g 1762128000000 1762128000001 "k3x9q1" "k3x9q1" b1 b2).
  - vm_compute; reflexivity.
  - vm_compute; reflexivity.
  - left. lia.
Defined.

(** ** The built element and its listeners *)

Lemma same_build_refl x : same_build x x.
Proof. by repeat split. Qed.

Lemma build_kept_refl es : build_kept es es.
Proof. intros e x Hx. eauto using same_build_refl. Qed.

Lemma build_kept_eq es es' : es' = es → build_kept es es'.
Proof. intros ->. apply build_kept_refl. Qed.

Lemma build_kept_trans es1 es2 es3 :
  build_kept es1 es2 → build_kept es2 es3 → build_kept es1 es3.
Proof.
  intros H1 H2 e x Hx.
  destruct (H1 _ _ Hx) as (x' & Hx' & (?&?&?&?)).
  destruct (H2 _ _ Hx') as (x'' & Hx'' & (?&?&?&?)).
  exists x''. split; [done|]. repeat split; congruence.
Qed.

Lemma build_kept_app es l : build_kept es (es ++ l).
Proof.
  intros e x Hx. exists x. split; [by apply lookup_app_l_Some|apply same_build_refl].
Qed.

Lemma build_kept_alter (f : ToastEl → ToastEl) e es :
  (∀ x, es !! e = Some x → same_build x (f x)) → build_kept es (alter f e es).
Proof.
  intros Hf e' x Hx. rewrite list_lookup_alter. case_decide; subst.
  - rewrite Hx. simpl. eauto.
  - eauto using same_build_refl.
Qed.

Lemma build_kept_dismiss i s : build_kept (elems s) (elems (dismiss i s)).
Proof.
  destruct (dismiss_cases i s) as [->|(h & o & _ & _ & _ & ->)];
    [apply build_kept_refl|].
  simpl. apply build_kept_alter. intros x _. by repeat split.
Qed.

Lemma build_kept_removal i h s : build_kept (elems s) (elems (removal i h s)).
Proof.
  destruct (heap s !! h) as [o|] eqn:Ho;
    [|rewrite removal_none by done; apply build_kept_refl].
  rewrite (removal_eq _ _ _ _ Ho). simpl.
  apply build_kept_alter. intros x _. by repeat split.
Qed.

Lemma build_kept_clear s : build_kept (elems s) (elems (clear s)).
Proof.
  unfold clear. destruct (negb _); [apply build_kept_refl|].
  generalize (map_keys (TOASTS s)). intros l. revert s.
  induction l as [|i l IH]; intros s; simpl; [apply build_kept_refl|].
  eapply build_kept_trans; [apply build_kept_dismiss | apply IH].
Qed.

Lemma build_kept_notify a b rnd s : build_kept (elems s) (elems (notify a b rnd s).1).
Proof.
  destruct (notify a b rnd s) as [s' r] eqn:E.
  destruct (notify_cases _ _ _ _ _ _ E)
    as [(_ & -> & _)|[(_ & _ & Hp & _)|(i & c & x & _ & Hs)]]; simpl.
  - apply build_kept_refl.
  - apply build_kept_eq, Hp.
  - rewrite (sh_elems _ _ _ _ _ _ Hs). apply build_kept_app.
Qed.

Lemma build_kept_fire t s : build_kept (elems s) (elems (fire t s)).
Proof.
  destruct (fire_cases t s) as [->|(tm & Ht & _ & ->)]; [apply build_kept_refl|].
  simpl. destruct (callback tm) as [h|h|i h].
  - destruct (heap s !! h); [|apply build_kept_refl].
    apply (build_kept_dismiss _ (with_timers (delete t (timers s)) s)).
  - destruct (heap s !! h) as [o|]; [|apply build_kept_refl].
    destruct (rd (id (opts o))); [|apply build_kept_refl].
    apply (build_kept_dismiss _ (with_timers (delete t (timers s)) s)).
  - apply (build_kept_removal _ _ (with_timers (delete t (timers s)) s)).
Qed.

Lemma build_kept_step ev s : build_kept (elems s) (elems (step ev s)).
Proof.
  destruct ev; simpl.
  - apply build_kept_notify.
  - apply build_kept_notify.
  - apply build_kept_dismiss.
  - apply build_kept_clear.
  - apply build_kept_refl.
  - apply build_kept_refl.
  - apply build_kept_refl.
  - apply build_kept_fire.
  - intros e x Hx. destruct (frame_lookup s e) as [b Hb]. rewrite Hx in Hb.
    eexists. split; [exact Hb|]. by destruct b.
  - destruct (mouseenter_cases e s) as [->|(x & hv & o & Hx & Hh & _ & _ & ->)];
      [apply build_kept_refl|].
    simpl. apply build_kept_alter. intros y Hy.
    assert (y = x) as -> by congruence. repeat split; simpl; try done.
    by rewrite Hh.
  - destruct (mouseleave_cases e s) as [->|(x & hv & r & Hx & Hh & _ & _ & ->)];
      [apply build_kept_refl|].
    simpl. apply build_kept_alter. intros y Hy.
    assert (y = x) as -> by congruence. repeat split; simpl; try done.
    by rewrite Hh.
  - unfold clickClose. destruct (elems s !! e) as [x|]; [|apply build_kept_refl].
    destruct (closeButton x); [apply build_kept_dismiss | apply build_kept_refl].
Qed.

Lemma build_kept_run tr s : build_kept (elems s) (elems (run tr s)).
Proof.
  revert s. induction tr as [|ev tr IH]; intros s; [apply build_kept_refl|].
  eapply build_kept_trans; [apply build_kept_step | apply IH].
Qed.

(** The listeners of a toast element stay as [buildToastElement] and
    [notify] installed them, whatever happens after the [notify] call: the
    element keeps carrying the identifier; it has a close button exactly
    when the resolved [closable] is truthy, and a click on it is
    [dismiss] of that identifier, while without the button a click does
    nothing; and without a truthy [pauseOnHover] the element has no hover
    listeners, so the pointer entering or leaving it changes nothing. *)
Theorem built_element_permanent a b rnd s s1 i tr :
  notify a b rnd s = (s1, Returned (Some i)) →
  let o1 := resolved (globalConfig s) (now s) rnd (optsBase a b) in
  let e := length (elems s) in
  let s' := run tr s1 in
  ∃ x, elems s' !! e = Some x ∧ data_tid x = i ∧
       closeButton x = truthy_bool (rd (closable o1)) ∧
       clickClose e s' = (if truthy_bool (rd (closable o1)) then dismiss i s' else s') ∧
       (truthy_bool (rd (pauseOnHover o1)) = false →
        hover x = None ∧ mouseenter e s' = s' ∧ mouseleave e s' = s').
Proof.
  intros E o1 e s'.
  destruct (notify_element _ _ _ _ _ _ E) as (e0 & c & hv & Hb & Hel). fold o1 in Hb.
  destruct (notify_cases _ _ _ _ _ _ E)
    as [(_ & _ & ?)|[(_ & ? & _)|(? & c' & x1 & [= <-] & Hsh)]]; [done..|].
  fold o1 in Hsh.
  assert (elems s1 !! e = Some x1) as Hx1.
  { rewrite (sh_elems _ _ _ _ _ _ Hsh). by apply list_lookup_middle. }
  assert (x1 = set_hover hv (set_parent (Some c) e0)) as Hx1'.
  { rewrite Hel in Hx1. rewrite list_lookup_middle in Hx1 by done. congruence. }
  destruct (build_kept_run tr s1 _ _ Hx1) as (x & Hx & Htid & Hco & Hbtn & Hhv).
  fold s' in Hx. exists x.
  assert (closeButton e0 = truthy_bool (rd (closable o1))) as Hbtn0.
  { unfold buildToastElement in Hb.
    destruct (rd (render o1)) as [[|f]|]; [|destruct (f _)|]; by simplify_eq. }
  assert (closeButton x = truthy_bool (rd (closable o1))) as Hbtn1
    by by rewrite Hbtn, Hx1'.
  assert (data_tid x = i) as Htid1 by by rewrite Htid, (sh_tid _ _ _ _ _ _ Hsh).
  split; [done|]. split; [done|]. split; [done|].
  split.
  - unfold clickClose. by rewrite Hx, Hbtn1, Htid1.
  - intros Hp. rewrite (sh_hover _ _ _ _ _ _ Hsh), Hp in Hhv. simpl in Hhv.
    unfold mouseenter, mouseleave. rewrite Hx.
    by destruct (hover x).
Qed.

Lemma built_element_permanent_witness :
  let call := empty_opts in
  let s := init true 0 in
  let s1 := (notify (Msg "saved") (Some call) "k3x9q1" s).1 in
  let tr := [EFrame; ETick 100; EMouseEnter O; EDismiss "t_0_k3x9q1"] in
  notify (Msg "saved") (Some call) "k3x9q1" s = (s1, Returned (Some "t_0_k3x9q1")) ∧
  ∃ x, elems (run tr s1) !! length (elems s) = Some x ∧
       data_tid x = "t_0_k3x9q1" ∧
       clickClose (length (elems s)) (run tr s1)
       = (if truthy_bool (rd (closable (resolved (globalConfig s) (now s) "k3x9q1"
                                          (optsBase (Msg "saved") (Some call)))))
          then dismiss "t_0_k3x9q1" (run tr s1) else run tr s1).
Proof.
  intros call s s1 tr.
  assert (notify (Msg "saved") (Some call) "k3x9q1" s
          = (s1, Returned (Some "t_0_k3x9q1"))) as E by (vm_compute; reflexivity).
  split; [exact E|].
  destruct (built_element_permanent _ _ _ _ _ _ tr E) as (x & H1 & H2 & _ & H3 & _).
  exists x. split; [exact H1|]. split; [exact H2 | exact H3].
Defined.

(** ** The global configuration *)

Lemma over_assoc {A} (a b c : Slot A) : over (over a b) c = over a (over b c).
Proof. by destruct c, b. Qed.

Lemma present_over {A} (a b : Slot A) : present (over a b) = present a || present b.
Proof. by destruct a, b. Qed.

Lemma assign_assoc a b c : assign (assign a b) c = assign a (assign b c).
Proof. unfold assign; simpl. by rewrite !over_assoc. Qed.

Lemma has_key_assign k a b : has_key k (assign a b) = has_key k a || has_key k b.
Proof. destruct k; simpl; apply present_over. Qed.

Lemma globalConfig_dismiss i s : globalConfig (dismiss i s) = globalConfig s.
Proof. by destruct (dismiss_cases i s) as [->|(h & o & _ & _ & _ & ->)]. Qed.

Lemma globalConfig_clear s : globalConfig (clear s) = globalConfig s.
Proof.
  unfold clear. destruct (negb _); [done|].
  generalize (map_keys (TOASTS s)). intros l. revert s.
  induction l as [|i l IH]; intros s; simpl; [done|].
  by rewrite IH, globalConfig_dismiss.
Qed.

Lemma globalConfig_notify a b rnd s : globalConfig (notify a b rnd s).1 = globalConfig s.
Proof.
  destruct (notify a b rnd s) as [s' r] eqn:E.
  destruct (notify_cases _ _ _ _ _ _ E)
    as [(_ & -> & _)|[(_ & _ & Hp & _)|(i & c & x & _ & Hs)]]; simpl;
    [done|apply Hp|apply Hs].
Qed.

Lemma globalConfig_fire t s : globalConfig (fire t s) = globalConfig s.
Proof.
  destruct (fire_cases t s) as [->|(tm & Ht & _ & ->)]; [done|].
  simpl. destruct (callback tm) as [h|h|i h].
  - destruct (heap s !! h); [|done].
    apply (globalConfig_dismiss _ (with_timers (delete t (timers s)) s)).
  - destruct (heap s !! h) as [o|]; [|done].
    destruct (rd (id (opts o))); [|done].
    apply (globalConfig_dismiss _ (with_timers (delete t (timers s)) s)).
  - destruct (heap s !! h) as [o|] eqn:Ho; [|by rewrite removal_none].
    by rewrite (removal_eq _ _ o (with_timers (delete t (timers s)) s)).
Qed.

Lemma globalConfig_step ev s :
  is_configure ev = false → globalConfig (step ev s) = globalConfig s.
Proof.
  destruct ev; simpl; intros Hev; try done.
  - apply globalConfig_notify.
  - apply globalConfig_notify.
  - apply globalConfig_dismiss.
  - apply globalConfig_clear.
  - apply globalConfig_fire.
  - by destruct (mouseenter_cases e s) as [->|(x & hv & o & _ & _ & _ & _ & ->)].
  - by destruct (mouseleave_cases e s) as [->|(x & hv & r & _ & _ & _ & _ & ->)].
  - unfold clickClose. destruct (elems s !! e) as [x|]; [|done].
    destruct (closeButton x); [apply globalConfig_dismiss | done].
Qed.

Lemma has_key_step k ev s :
  has_key k (globalConfig s) = true → has_key k (globalConfig (step ev s)) = true.
Proof.
  intros Hk. destruct (is_configure ev) eqn:E.
  - destruct ev; try done. simpl.
    by rewrite has_key_assign, assign_empty_l, Hk.
  - by rewrite globalConfig_step.
Qed.

(** The configuration only grows: [configure] is the one operation that
    changes it, two [configure] calls amount to one call with the second
    object laid over the first, the keys configured after a call are those
    configured before together with those of the argument, and so a key
    once configured stays configured whatever is called later: no call
    brings the built-in default of that key back. *)
Theorem configure_accumulates k tr s :
  has_key k (globalConfig s) = true →
  has_key k (globalConfig (run tr s)) = true ∧
  (∀ ev, is_configure ev = false → globalConfig (step ev s) = globalConfig s) ∧
  (∀ o k', has_key k' (globalConfig (configure o s))
           = has_key k' (globalConfig s) || has_key k' o) ∧
  (∀ o1 o2, configure o2 (configure o1 s) = configure (assign o1 o2) s).
Proof.
  intros Hk. split; [|split; [|split]].
  - revert s Hk. induction tr as [|ev tr IH]; intros s Hk; [done|].
    simpl. by apply IH, has_key_step.
  - intros ev. apply globalConfig_step.
  - intros o k'. simpl. by rewrite has_key_assign, assign_empty_l.
  - intros o1 o2. unfold configure. simpl.
    by rewrite !assign_empty_l, assign_assoc.
Qed.

Lemma configure_accumulates_witness :
  let o := with_type (Present None) empty_opts in
  let s := configure o (init true 0) in
  let tr := [ENotify (Msg "saved") None "k3x9q1";
             EConfigure (with_message (Present (Some "hello")) empty_opts);
             EClear] in
  has_key k_type (globalConfig s) = true ∧
  has_key k_type (globalConfig (run tr s)) = true.
Proof.
  intros o s tr.
  assert (has_key k_type (globalConfig s) = true) as H by (vm_compute; reflexivity).
  split; [exact H|].
  exact (proj1 (configure_accumulates k_type tr s H)).
Defined.

(** ** What a toast displays *)

Lemma resolved_render_plain g t rnd base :
  render base = Absent → truthy_render (rd (render g)) = false →
  truthy_render (rd (render (resolved g t rnd base))) = false.
Proof.
  intros Hb Hg.
  destruct (resolved_fields g t rnd base) as (_&_&_&_&_&_&_&_&_&_&_& ->).
  destruct (merged_layered g base) as (_&_&_&_&_&_&_&_&_&_&_&_& ->).
  rewrite Hb. simpl. by destruct (render g).
Qed.

(** A message given as a bare string is what the toast displays, as text:
    unless a custom renderer is configured, the element built by
    [notify(message)] has the default content, whose message line is the
    string (no line for the empty string) whatever [message] the
    configuration holds, and whose title line is the configured title if
    there is a non-empty one; and the content stays so whatever happens
    afterwards. *)
Theorem string_message_displayed m rnd s s' i tr :
  notify (Msg m) None rnd s = (s', Returned (Some i)) →
  truthy_render (rd (render (globalConfig s))) = false →
  ∃ x, elems (run tr s') !! length (elems s) = Some x ∧
       content x
       = CDefault (let t := layered Absent (title (globalConfig s)) (title DEFAULTS) in
                   if truthy_str t then t else None)
                  (if truthy_str (Some m) then Some m else None).
Proof.
  intros E Hr.
  destruct (notify_element _ _ _ _ _ _ E) as (e0 & c & hv & Hb & Hel).
  set (o1 := resolved (globalConfig s) (now s) rnd (optsBase (Msg m) None)) in *.
  assert (s'.(elems) !! length (elems s) = Some (set_hover hv (set_parent (Some c) e0)))
    as Hx1 by (rewrite Hel; by apply list_lookup_middle).
  destruct (build_kept_run tr s' _ _ Hx1) as (x & Hx & _ & Hco & _).
  exists x. split; [done|]. rewrite Hco. simpl.
  pose proof (resolved_render_plain (globalConfig s) (now s) rnd (optsBase (Msg m) None)
                eq_refl Hr) as Hplain. fold o1 in Hplain.
  assert (rd (title o1) = layered Absent (title (globalConfig s)) (title DEFAULTS)) as Ht.
  { unfold o1.
    destruct (resolved_fields (globalConfig s) (now s) rnd (optsBase (Msg m) None))
      as (-> & _).
    by destruct (merged_layered (globalConfig s) (optsBase (Msg m) None)) as (_ & -> & _). }
  assert (rd (message o1) = Some m) as Hm.
  { unfold o1.
    destruct (resolved_fields (globalConfig s) (now s) rnd (optsBase (Msg m) None))
      as (_ & -> & _).
    by destruct (merged_layered (globalConfig s) (optsBase (Msg m) None))
      as (_ & _ & -> & _). }
  unfold buildToastElement in Hb. rewrite Ht, Hm in Hb.
  destruct (rd (render o1)) as [[|f]|]; [|done|]; by simplify_eq.
Qed.

Lemma string_message_displayed_witness :
  let s := configure (with_message (Present (Some "configured")) empty_opts)
                     (init true 0) in
  let s' := (notify (Msg "saved") None "k3x9q1" s).1 in
  let tr := [EFrame; EDismiss "t_0_k3x9q1"; ETick 220; EFire 2%nat] in
  notify (Msg "saved") None "k3x9q1" s = (s', Returned (Some "t_0_k3x9q1")) ∧
  ∃ x, elems (run tr s') !! length (elems s) = Some x ∧
       content x
       = CDefault (let t := layered Absent (title (globalConfig s)) (title DEFAULTS) in
                   if truthy_str t then t else None)
                  (if truthy_str (Some "saved") then Some "saved" else None).
Proof.
  intros s s' tr.
  assert (notify (Msg "saved") None "k3x9q1" s = (s', Returned (Some "t_0_k3x9q1")))
    as E by (vm_compute; reflexivity).
  split; [exact E|].
  apply (string_message_displayed "saved" "k3x9q1" s s' "t_0_k3x9q1" tr E).
  vm_compute; reflexivity.
Defined.

(** ** Durations that are not positive *)

(** Only the duration 0 makes a toast sticky. With a duration that is
    [undefined] (the key passed without a value) or negative and not below
    -2^31, [notify] still sets the timer, due at once: it can fire without
    any time passing, and then the toast is hidden and its removal is
    scheduled 220 ms later. *)
Theorem nonpositive_duration_due_at_once a b rnd s s1 i :
  let o1 := resolved (globalConfig s) (now s) rnd (optsBase a b) in
  let h := length (heap s) in
  let e := length (elems s) in
  let t := nextTimer s in
  let s2 := fire t s1 in
  notify a b rnd s = (s1, Returned (Some i)) →
  (∀ d, rd (duration o1) = Some d → - 2 ^ 31 <= d < 0) →
  timers s1 !! t
  = Some {| callback := AutoDismiss h; delay := rd (duration o1); due := now s |} ∧
  map_get i (TOASTS s2) = Some h ∧ (hide <$> elems s2 !! e) = Some true ∧
  timers s2 !! t = None ∧
  timers s2 !! S t
  = Some {| callback := Removal i h; delay := Some 220; due := now s + 220 |}.
Proof.
  intros o1 h e t s2 E Hd.
  destruct (notify_cases _ _ _ _ _ _ E)
    as [(_ & _ & ?)|[(_ & ? & _)|(? & c & x & [= <-] & Hsh)]]; [done..|].
  fold o1 in Hsh. destruct Hsh.
  assert (timeout_ms (rd (duration o1)) = 0) as Hmax.
  { destruct (rd (duration o1)) as [d|] eqn:Hd'; [|done].
    specialize (Hd d eq_refl). unfold timeout_ms. simpl.
    rewrite toInt32_small by lia. lia. }
  assert (rd (duration o1) ≠ Some 0) as Hnz.
  { intros H0. specialize (Hd 0 H0). lia. }
  assert (timers s1 !! t = Some (auto_timer o1 s)) as Ht.
  { rewrite sh_timers0. destruct (rd (duration o1)) as [[| |]|]; try done;
      by rewrite lookup_insert_eq. }
  assert (nextTimer s1 = S t) as Hn.
  { rewrite sh_nextTimer0. by destruct (rd (duration o1)) as [[| |]|]. }
  assert (timeoutId (new_toast o1 i s) = Some t) as Hid.
  { unfold new_toast. simpl. by destruct (rd (duration o1)) as [[| |]|]. }
  assert (due (auto_timer o1 s) = now s) as Hdue.
  { unfold auto_timer. simpl. rewrite Hmax. lia. }
  assert (heap s1 !! h = Some (new_toast o1 i s)) as Hh.
  { rewrite sh_heap0. by apply list_lookup_middle. }
  assert (map_get i (TOASTS s1) = Some h) as Hg.
  { rewrite sh_TOASTS0, map_get_set. by case_decide. }
  assert (elems s1 !! e = Some x) as Hx.
  { rewrite sh_elems0. by apply list_lookup_middle. }
  split.
  { rewrite Ht. unfold auto_timer. by rewrite Hmax, Z.add_0_r. }
  assert (s2 = dismissed i h (new_toast o1 i s)
                 (with_timers (delete t (timers s1)) s1)) as E2.
  { apply (fire_auto t h (new_toast o1 i s) (auto_timer o1 s) s1);
      [exact Ht|done| |exact Hh|done|exact Hg].
    rewrite Hdue, sh_now0. lia. }
  split; [by rewrite E2|]. split; [|split].
  - rewrite E2. simpl. fold e. by rewrite list_lookup_alter_eq, Hx.
  - rewrite E2. simpl. rewrite Hn, lookup_insert_ne by lia.
    unfold cancel, new_toast. simpl. clear Hid Hdue Ht Hh E2.
    destruct (rd (duration o1)) as [[| |]|]; try done; simpl; unfold t;
      destruct (nextTimer s); simpl; by rewrite ?lookup_delete_eq.
  - rewrite E2. simpl. rewrite Hn, lookup_insert_eq.
    unfold removal_timer. simpl. by rewrite sh_now0.
Qed.

Lemma nonpositive_duration_due_at_once_witness :
  let call := {| id := Absent; title := Absent; message := Present (Some "saved");
                 type := Absent; duration := Present None; closable := Absent;
                 pauseOnHover := Absent; position := Absent;
                 containerClass := Absent; toastClass := Absent;
                 injectStyles := Absent; onClose := Absent; render := Absent |} in
  let s := init true 0 in
  let s1 := (notify (Opts call) None "k3x9q1" s).1 in
  notify (Opts call) None "k3x9q1" s = (s1, Returned (Some "t_0_k3x9q1")) ∧
  map_get "t_0_k3x9q1" (TOASTS (fire (nextTimer s) s1)) = Some (length (heap s)) ∧
  (hide <$> elems (fire (nextTimer s) s1) !! length (elems s)) = Some true.
Proof.
  intros call s s1.
  assert (notify (Opts call) None "k3x9q1" s = (s1, Returned (Some "t_0_k3x9q1")))
    as E by (vm_compute; reflexivity).
  assert (∀ d, rd (duration (resolved (globalConfig s) (now s) "k3x9q1"
                               (optsBase (Opts call) None))) = Some d →
               - 2 ^ 31 <= d < 0)
    as Hd by (intros d; vm_compute; intros [=]).
  split; [exact E|].
  pose proof (nonpositive_duration_due_at_once (Opts call) None "k3x9q1" s s1
                "t_0_k3x9q1" E Hd) as (_ & H1 & H2 & _).
  split; [exact H1 | exact H2].
Defined.

(** ** Pause on hover *)














